(** * WaveNet Cardigan feed: the CSV reconciliation scripts, embedded and checked

    The repository holds successive generations of one Node script.  Each
    generation is embedded in a module of its own:

    - [Fetch]     src/fetch_cefas.mjs, first script (three literal timestamp
                  shapes, [classifyParam], selection by InstId / Deployment);
    - [Picker]    src/fetch_cefas.mjs, second script (station summary,
                  [pickStation], label objects and [pickField]);
    - [Strict]    src/unnamed/part_000, first script ([findCol],
                  [matchesStation], the [wanted] table, exit status 1);
    - [Suffix]    src/unnamed/part_000, second script ([toISO] that appends
                  a UTC marker);
    - [Canon]     src/unnamed/part_000, second script (label objects and
                  [canonicalize]);
    - [Shape]     src/unnamed/part_001 (wide / long detection,
                  [classifyWideHeader], [classifyLongParam]);
    - [Needles]   src/unnamed/part_002 ([rowIsCardigan], [normParam]).

    Host primitives (strings, [parseFloat], [localeCompare], [Date]) live in
    [JS] and [JSDate]; [Spec] holds the statements of the specification,
    written from its words.

    Strings are sequences of 8-bit code units.  Case mapping and white space
    are those of ASCII; other units are left alone.  On the ASCII text of the
    feed (header names, station tokens, labels, date and number cells) this is
    what the host does. *)

From Stdlib Require Import String Ascii List ZArith NArith Bool Lia QArith.
From Stdlib Require Import Sorting.Sorted Sorting.Permutation.
Import ListNotations.

Local Open Scope string_scope.
Local Open Scope Z_scope.

(* ================================================================== *)
(** ** Host primitives *)
(* ================================================================== *)

Module JS.

(** *** Characters *)

Definition code (c : ascii) : N := N_of_ascii c.

Definition isDigit (c : ascii) : bool :=
  ((48 <=? code c) && (code c <=? 57))%N.

Definition isLowerAZ (c : ascii) : bool :=
  ((97 <=? code c) && (code c <=? 122))%N.

Definition isUpperAZ (c : ascii) : bool :=
  ((65 <=? code c) && (code c <=? 90))%N.

(** White space removed by [String.prototype.trim] and skipped by
    [parseFloat]: TAB, LF, VT, FF, CR and SPACE. *)
Definition isWhite (c : ascii) : bool :=
  (((9 <=? code c) && (code c <=? 13)) || (code c =? 32))%N.

Definition lowerChar (c : ascii) : ascii :=
  if isUpperAZ c then ascii_of_N (code c + 32) else c.

Definition upperChar (c : ascii) : ascii :=
  if isLowerAZ c then ascii_of_N (code c - 32) else c.

(** *** Strings *)

Fixpoint smap (f : ascii -> ascii) (s : string) : string :=
  match s with
  | EmptyString => EmptyString
  | String c r => String (f c) (smap f r)
  end.

Fixpoint sfilter (p : ascii -> bool) (s : string) : string :=
  match s with
  | EmptyString => EmptyString
  | String c r => if p c then String c (sfilter p r) else sfilter p r
  end.

Fixpoint sforall (p : ascii -> bool) (s : string) : bool :=
  match s with
  | EmptyString => true
  | String c r => p c && sforall p r
  end.

Definition toLowerCase : string -> string := smap lowerChar.
Definition toUpperCase : string -> string := smap upperChar.

Fixpoint trimStart (s : string) : string :=
  match s with
  | String c r => if isWhite c then trimStart r else s
  | EmptyString => EmptyString
  end.

(** [trimEnd] drops the longest all-white suffix. *)
Fixpoint trimEnd (s : string) : string :=
  match s with
  | EmptyString => EmptyString
  | String c r =>
      match trimEnd r with
      | EmptyString => if isWhite c then EmptyString else String c EmptyString
      | t => String c t
      end
  end.

Definition trim (s : string) : string := trimEnd (trimStart s).

(** [s.startsWith(p)] *)
Fixpoint startsWith (p s : string) : bool :=
  match p with
  | EmptyString => true
  | String a p' =>
      match s with
      | EmptyString => false
      | String b s' => Ascii.eqb a b && startsWith p' s'
      end
  end.

(** [hay.includes(needle)] *)
Fixpoint includes (hay needle : string) : bool :=
  startsWith needle hay ||
  match hay with
  | EmptyString => false
  | String _ r => includes r needle
  end.

(** [s.endsWith(p)] *)
Fixpoint endsWith (s p : string) : bool :=
  String.eqb s p ||
  match s with
  | EmptyString => false
  | String _ r => endsWith r p
  end.

(** [s.replace(",", ".")]: a string pattern replaces the first occurrence
    only. *)
Fixpoint replaceFirstComma (s : string) : string :=
  match s with
  | EmptyString => EmptyString
  | String c r =>
      if Ascii.eqb c "," then String "." r else String c (replaceFirstComma r)
  end.

(** [s.replace(/\D/g, "")] *)
Definition digitsOnly (s : string) : string := sfilter isDigit s.

(** [s.replace(/[^a-z0-9]/g, "")]; the variant with [+] after the class
    removes the same characters. *)
Definition isAlnumLower (c : ascii) : bool := isLowerAZ c || isDigit c.
Definition stripNonAlnum (s : string) : string := sfilter isAlnumLower s.

(** [arr.join(sep)] *)
Fixpoint join (sep : string) (l : list string) : string :=
  match l with
  | [] => ""
  | [x] => x
  | x :: r => x ++ sep ++ join sep r
  end.

(** [a.localeCompare(b)] on timestamps.  The scripts call it on the
    timestamps of the records only, and those are written by [toISOString]
    with the characters [-], [:], [.], [+], the digits, [T] and [Z].  The
    host collation orders these characters as listed, the minus sign before
    the plus sign and both before the digits, and compares two such strings
    character by character from the left.  The rank of any other character
    only makes the comparison total; it is not the host's. *)
Definition collationRank (c : ascii) : N :=
  if Ascii.eqb c "-" then 0
  else if Ascii.eqb c ":" then 1
  else if Ascii.eqb c "." then 2
  else if Ascii.eqb c "+" then 3
  else if isDigit c then 4 + (code c - 48)
  else if Ascii.eqb c "T" then 14
  else if Ascii.eqb c "Z" then 15
  else 16 + code c.

Fixpoint localeCompare (a b : string) : comparison :=
  match a, b with
  | EmptyString, EmptyString => Eq
  | EmptyString, String _ _ => Lt
  | String _ _, EmptyString => Gt
  | String x a', String y b' =>
      match (collationRank x ?= collationRank y)%N with
      | Eq => localeCompare a' b'
      | c => c
      end
  end.

Definition isStampChar (c : ascii) : bool := (collationRank c <? 16)%N.

(** [a.localeCompare(b) <= 0] *)
Definition localeLeb (a b : string) : bool :=
  match localeCompare a b with
  | Gt => false
  | _ => true
  end.

(** [String(v ?? "")] and [String(v)] on a cell that may be [undefined]. *)
Definition strOrEmpty (v : option string) : string :=
  match v with Some s => s | None => "" end.

Definition strOf (v : option string) : string :=
  match v with Some s => s | None => "undefined" end.

(** The scripts' own helpers [norm] and [lc]. *)
Definition norm (v : option string) : string := trim (strOrEmpty v).
Definition lc (v : option string) : string := toLowerCase (norm v).

(** *** Numbers read by [parseFloat]

    A number value is kept as the decimal it was read from: [Fin neg m e]
    stands for the double nearest to [(-1)^neg * m * 10^e].  Rounding to
    binary64 is not modelled, except where it changes the kind of the result:
    a magnitude at or above [2^1024 - 2^970] rounds to an infinity. *)

Inductive num : Type :=
| NaN : num
| Inf (neg : bool) : num
| Fin (neg : bool) (m : N) (e : Z) : num.

Definition isFinite (v : num) : bool :=
  match v with Fin _ _ _ => true | _ => false end.

(** The rational a finite number stands for. *)
Definition toQ (v : num) : Q :=
  match v with
  | Fin neg m e =>
      let mag := if 0 <=? e then inject_Z (Z.of_N m * 10 ^ e)
                 else (Z.of_N m # Z.to_pos (10 ^ (- e))) in
      if neg then Qopp mag else mag
  | _ => 0%Q
  end.

Definition overflowBound : Z := 2 ^ 1024 - 2 ^ 970.

Definition overflows (m : N) (e : Z) : bool :=
  if 0 <=? e then overflowBound <=? Z.of_N m * 10 ^ e
  else overflowBound * 10 ^ (- e) <=? Z.of_N m.

Fixpoint spanDigits (s : string) : string * string :=
  match s with
  | String c r =>
      if isDigit c then let (d, t) := spanDigits r in (String c d, t)
      else (EmptyString, s)
  | EmptyString => (EmptyString, EmptyString)
  end.

Definition digitVal (c : ascii) : N := (code c - 48)%N.

Fixpoint digitsValueFrom (acc : N) (d : string) : N :=
  match d with
  | EmptyString => acc
  | String c r => digitsValueFrom (acc * 10 + digitVal c)%N r
  end.

Definition digitsValue (d : string) : N := digitsValueFrom 0%N d.

Definition isEmptyStr (s : string) : bool :=
  match s with EmptyString => true | _ => false end.

(** ExponentPart, when one is present at the head of [s]; otherwise the
    literal ends before it and the exponent is 0. *)
Definition parseExponent (s : string) : Z :=
  match s with
  | String c r =>
      if Ascii.eqb c "e" || Ascii.eqb c "E" then
        let '(neg, r') :=
          match r with
          | String c' r2 =>
              if Ascii.eqb c' "+" then (false, r2)
              else if Ascii.eqb c' "-" then (true, r2)
              else (false, r)
          | EmptyString => (false, r)
          end in
        let d := fst (spanDigits r') in
        if isEmptyStr d then 0
        else if neg then - Z.of_N (digitsValue d) else Z.of_N (digitsValue d)
      else 0
  | EmptyString => 0
  end.

(** Longest prefix that is a StrUnsignedDecimalLiteral other than
    [Infinity]: mantissa digits and decimal exponent. *)
Definition parseUnsigned (s : string) : option (N * Z) :=
  let d1 := fst (spanDigits s) in
  let r1 := snd (spanDigits s) in
  let plain :=
    if isEmptyStr d1 then None else Some (digitsValue d1, parseExponent r1) in
  match r1 with
  | String c r2 =>
      if Ascii.eqb c "." then
        let d2 := fst (spanDigits r2) in
        let r3 := snd (spanDigits r2) in
        if isEmptyStr d1 && isEmptyStr d2 then None
        else Some (digitsValue (d1 ++ d2),
                   parseExponent r3 - Z.of_nat (String.length d2))
      else plain
  | EmptyString => plain
  end.

Definition parseSigned (neg : bool) (u : string) : num :=
  if startsWith "Infinity" u then Inf neg
  else match parseUnsigned u with
       | None => NaN
       | Some (m, e) => if overflows m e then Inf neg else Fin neg m e
       end.

(** [parseFloat(s)] *)
Definition parseFloat (s : string) : num :=
  match trimStart s with
  | String c u =>
      if Ascii.eqb c "+" then parseSigned false u
      else if Ascii.eqb c "-" then parseSigned true u
      else parseSigned false (String c u)
  | EmptyString => parseSigned false EmptyString
  end.

End JS.

(* ================================================================== *)
(** ** The host's [Date] *)
(* ================================================================== *)

Module JSDate.
Import JS.

Definition msPerDay : Z := 86400000.

(** Largest magnitude of a time value (TimeClip). *)
Definition maxTime : Z := 8640000000000000.

Definition isLeap (y : Z) : bool :=
  ((y mod 4 =? 0) && negb (y mod 100 =? 0)) || (y mod 400 =? 0).

(** Day number of 1 January of year [y], counted from 1970-01-01. *)
Definition dayFromYear (y : Z) : Z :=
  365 * (y - 1970) + (y - 1969) / 4 - (y - 1901) / 100 + (y - 1601) / 400.

(** Days before the first of month [m] (0 = January) in a year. *)
Definition daysBeforeMonth (leap : bool) (m : Z) : Z :=
  let l := if leap then 1 else 0 in
  match m with
  | 0 => 0 | 1 => 31 | 2 => 59 + l | 3 => 90 + l | 4 => 120 + l
  | 5 => 151 + l | 6 => 181 + l | 7 => 212 + l | 8 => 243 + l
  | 9 => 273 + l | 10 => 304 + l | _ => 334 + l
  end.

(** MakeDay: months outside 0..11 carry into the year, days outside the
    month carry into the following months. *)
Definition makeDay (year month date : Z) : Z :=
  let ym := year + month / 12 in
  let mn := month mod 12 in
  dayFromYear ym + daysBeforeMonth (isLeap ym) mn + date - 1.

Definition makeTime (h mi s ms : Z) : Z :=
  h * 3600000 + mi * 60000 + s * 1000 + ms.

(** [Date.UTC(y, m, d, h, mi, s)] on integers; years 0..99 mean 1900..1999. *)
Definition dateUTC (y m d h mi s : Z) : Z :=
  let yr := if (0 <=? y) && (y <=? 99) then 1900 + y else y in
  makeDay yr m d * msPerDay + makeTime h mi s 0.

(** Year, month (1..12) and day of month of a day number. *)
Definition civilFromDays (days : Z) : Z * Z * Z :=
  let z := days + 719468 in
  let era := z / 146097 in
  let doe := z - era * 146097 in
  let yoe := (doe - doe / 1460 + doe / 36524 - doe / 146096) / 365 in
  let doy := doe - (365 * yoe + yoe / 4 - yoe / 100) in
  let mp := (5 * doy + 2) / 153 in
  let d := doy - (153 * mp + 2) / 5 + 1 in
  let m := if mp <? 10 then mp + 3 else mp - 9 in
  let y := yoe + era * 400 + (if m <=? 2 then 1 else 0) in
  (y, m, d).

Definition digitChar (n : Z) : ascii := ascii_of_N (Z.to_N (48 + n mod 10)).

(** The [w] low decimal digits of [n], most significant first. *)
Fixpoint pad (w : nat) (n : Z) : string :=
  match w with
  | O => EmptyString
  | S w' => pad w' (n / 10) ++ String (digitChar n) EmptyString
  end.

Definition yearString (y : Z) : string :=
  if (0 <=? y) && (y <=? 9999) then pad 4 y
  else if y <? 0 then String "-" (pad 6 (- y))
  else String "+" (pad 6 y).

(** [new Date(t).toISOString()] for a time value [t] in range. *)
Definition toISOString (t : Z) : string :=
  let day := t / msPerDay in
  let r := t mod msPerDay in
  let '(y, m, d) := civilFromDays day in
  yearString y ++ "-" ++ pad 2 m ++ "-" ++ pad 2 d ++ "T" ++
  pad 2 (r / 3600000) ++ ":" ++ pad 2 (r / 60000 mod 60) ++ ":" ++
  pad 2 (r / 1000 mod 60) ++ "." ++ pad 3 (r mod 1000) ++ "Z".

(** What a run can observe of the machine it runs on: the wall clock, which
    no generation of the script reads, and the engine's string-to-time
    conversion behind [new Date(s)], whose result for text outside the
    ECMAScript date-time format is left to the engine and whose reading of a
    date-time without offset depends on the machine's time zone.  [None] is
    the invalid date. *)
Record Host : Type := mkHost {
  wallClock : Z;
  dateParse : string -> option Z
}.

(** [new Date(s)], then [isNaN(d) ? null : d.toISOString()]. *)
Definition newDate (h : Host) (s : string) : option Z :=
  match dateParse h s with
  | Some t => if Z.abs t <=? maxTime then Some t else None
  | None => None
  end.

Definition isoOfString (h : Host) (s : string) : option string :=
  option_map toISOString (newDate h s).

End JSDate.

(* ================================================================== *)
(** ** Rows, records and output documents shared by all generations *)
(* ================================================================== *)

Module Feed.
Import JS JSDate.

(** A parsed CSV record: column name to cell, in the object's key order. *)
Definition Row : Type := list (string * string).

Fixpoint prop (r : Row) (k : string) : option string :=
  match r with
  | [] => None
  | (k', v) :: r' => if String.eqb k' k then Some v else prop r' k
  end.

(** [r[col]] where [col] is a resolved column name or [null]; a [null]
    subscript reads the property named "null". *)
Definition colKey (col : option string) : string :=
  match col with Some k => k | None => "null" end.

Definition cell (r : Row) (col : option string) : option string :=
  prop r (colKey col).

(** [Object.keys(rows[0])] *)
Definition headersOf (rows : list Row) : list string :=
  match rows with
  | r :: _ => map fst r
  | [] => []
  end.

Inductive Key : Type := hm0 | tp | tz | dir.

Definition Key_eqb (a b : Key) : bool :=
  match a, b with
  | hm0, hm0 | tp, tp | tz, tz | dir, dir => true
  | _, _ => false
  end.

(** A record of the series: [{ ts, ...fields }], fields in the order they
    were first assigned. *)
Record Entry : Type := mkEntry {
  ts : string;
  fields : list (Key * num)
}.

(** [obj[k] = v] *)
Fixpoint setKey (fs : list (Key * num)) (k : Key) (v : num) : list (Key * num) :=
  match fs with
  | [] => [(k, v)]
  | (k', v') :: r => if Key_eqb k' k then (k', v) :: r else (k', v') :: setKey r k v
  end.

Fixpoint getKey (fs : list (Key * num)) (k : Key) : option num :=
  match fs with
  | [] => None
  | (k', v) :: r => if Key_eqb k' k then Some v else getKey r k
  end.

(** The [Map] from timestamp to record, in insertion order. *)
Definition TsMap : Type := list (string * Entry).

Fixpoint has (m : TsMap) (t : string) : bool :=
  match m with
  | [] => false
  | (k, _) :: r => String.eqb k t || has r t
  end.

Fixpoint get (m : TsMap) (t : string) : option Entry :=
  match m with
  | [] => None
  | (k, e) :: r => if String.eqb k t then Some e else get r t
  end.

(** [byTs.get(t)[k] = v] for a key that is present. *)
Fixpoint assign (m : TsMap) (t : string) (k : Key) (v : num) : TsMap :=
  match m with
  | [] => []
  | (k', e) :: r =>
      if String.eqb k' t then (k', mkEntry (ts e) (setKey (fields e) k v)) :: r
      else (k', e) :: assign r t k v
  end.

(** [if (!byTs.has(t)) byTs.set(t, { ts: t }); byTs.get(t)[k] = v;] *)
Definition record (m : TsMap) (t : string) (k : Key) (v : num) : TsMap :=
  assign (if has m t then m else (m ++ [(t, mkEntry t [])])%list) t k v.

(** [[...byTs.values()]] *)
Definition values (m : TsMap) : list Entry := map snd m.

(** [a.ts.localeCompare(b.ts) <= 0] *)
Definition tsLeb (a b : Entry) : bool := localeLeb (ts a) (ts b).

Definition tsLe (a b : Entry) : Prop := tsLeb a b = true.

(** Every key of the map is the timestamp of its record, and no key occurs
    twice. *)
Definition keyed (m : TsMap) : Prop :=
  NoDup (map fst m) /\ Forall (fun p => ts (snd p) = fst p) m.

(** [arr.sort(cmp)]: a stable sort. *)
Fixpoint insertBy (le : Entry -> Entry -> bool) (x : Entry) (l : list Entry)
  : list Entry :=
  match l with
  | [] => [x]
  | y :: r => if le x y then x :: y :: r else y :: insertBy le x r
  end.

Fixpoint sortBy (le : Entry -> Entry -> bool) (l : list Entry) : list Entry :=
  match l with
  | [] => []
  | x :: r => insertBy le x (sortBy le r)
  end.

Definition sortByTs : list Entry -> list Entry := sortBy tsLeb.

(** [series.at(-1) ?? null] *)
Definition lastEntry (l : list Entry) : option Entry := List.last (map Some l) None.

(** [a || b] on values that are a non-empty string or [null]. *)
Definition orElse {A : Type} (a b : option A) : option A :=
  match a with Some _ => a | None => b end.

(** [headers[H.findIndex(p)]] where [H = headers.map(fold)]. *)
Fixpoint firstHeaderVia (fold : string -> string) (p : string -> bool)
  (headers : list string) : option string :=
  match headers with
  | [] => None
  | h :: r => if p (fold h) then Some h else firstHeaderVia fold p r
  end.

Definition firstHeader : (string -> bool) -> list string -> option string :=
  firstHeaderVia (fun h => lc (Some h)).

Fixpoint pickExactVia (fold : string -> string) (headers names : list string)
  : option string :=
  match names with
  | [] => None
  | n :: r =>
      match firstHeaderVia fold (String.eqb (fold n)) headers with
      | Some h => Some h
      | None => pickExactVia fold headers r
      end
  end.

Fixpoint pickLooseVia (fold : string -> string) (headers needles : list string)
  : option string :=
  match needles with
  | [] => None
  | n :: r =>
      match firstHeaderVia fold (fun h => includes h (fold n)) headers with
      | Some h => Some h
      | None => pickLooseVia fold headers r
      end
  end.

(** [pickExact] and [pickLoose] of fetch_cefas.mjs and part_001 fold with
    [lc]. *)
Definition pickExact : list string -> list string -> option string :=
  pickExactVia (fun h => lc (Some h)).

Definition pickLoose : list string -> list string -> option string :=
  pickLooseVia (fun h => lc (Some h)).

(** [findCol] (part_000), [pick] and [pickHeader] (part_002) try every exact
    name, then every loose needle; the first and the last fold with
    [toLowerCase] alone. *)
Definition pickBoth (fold : string -> string) (headers exact loose : list string)
  : option string :=
  orElse (pickExactVia fold headers exact) (pickLooseVia fold headers loose).

(** [[a, b, ...].filter(Boolean)] on values that are a non-empty string or
    [null]. *)
Fixpoint somes (l : list (option string)) : list string :=
  match l with
  | [] => []
  | Some x :: r => x :: somes r
  | None :: r => somes r
  end.

(** [[...new Set(l)]] *)
Fixpoint dedup (l : list string) : list string :=
  match l with
  | [] => []
  | x :: r => x :: filter (fun y => negb (String.eqb y x)) (dedup r)
  end.

(** [parseFloat(norm(cell).replace(",", "."))] kept when [Number.isFinite]
    (fetch_cefas.mjs, part_001, part_000 second document). *)
Definition readValue (v : option string) : option num :=
  let raw := replaceFirstComma (norm v) in
  let val := parseFloat raw in
  if isFinite val then Some val else None.

(** [parseFloat(String(cell).replace(",", "."))] kept when [Number.isFinite]
    (part_000 first document, part_002). *)
Definition readValueRaw (v : option string) : option num :=
  let val := parseFloat (replaceFirstComma (strOf v)) in
  if isFinite val then Some val else None.

(** [process.env.X || d] *)
Definition envOr (v : option string) (d : string) : string :=
  match v with
  | Some s => if isEmptyStr s then d else s
  | None => d
  end.

(** The environment variables the scripts read. *)
Record Env : Type := mkEnv {
  CEFAS_RECORDSET_ID : option string;
  STATION_CODE_env : option string;
  PLATFORM_ID_env : option string;
  INST_ID : option string
}.

(** What [fetch] and [parse] hand to the script: a failed download, or the
    parsed records.  Text that csv-parse rejects is outside the model. *)
Inductive Response : Type :=
| Failed : Response
| Parsed (rows : list Row) : Response.

(** The files a run writes.  Diagnostics and the HTML index are recorded as
    written; their content is not modelled. *)
Inductive Doc : Type :=
| History (series : list Entry)
| Latest (latest : option Entry)
| Diagnostics
| Index.

Record Outcome : Type := mkOutcome {
  exitStatus : Z;
  written : list (string * Doc)
}.

Definition seriesOf (o : Outcome) : option (list Entry) :=
  match List.find (fun f => String.eqb (fst f) "public/history.json") (written o) with
  | Some (_, History s) => Some s
  | _ => None
  end.

Definition latestOf (o : Outcome) : option (option Entry) :=
  match List.find (fun f => String.eqb (fst f) "public/latest.json") (written o) with
  | Some (_, Latest l) => Some l
  | _ => None
  end.

(** *** Literal timestamp shapes *)

Definition two (a b : ascii) : Z := Z.of_N (digitVal a * 10 + digitVal b).

Definition four (a b c d : ascii) : Z :=
  Z.of_N (((digitVal a * 10 + digitVal b) * 10 + digitVal c) * 10 + digitVal d).

(** The tail [(?:[ T](\d{2}):(\d{2})(?::(\d{2}))?)?$] with the defaults
    ["00"] of the destructuring already applied. *)
Definition matchClock (s : string) : option (Z * Z * Z) :=
  match s with
  | EmptyString => Some (0, 0, 0)
  | String sep (String h1 (String h2 (String ":" (String m1 (String m2 rest))))) =>
      if (Ascii.eqb sep " " || Ascii.eqb sep "T")
         && isDigit h1 && isDigit h2 && isDigit m1 && isDigit m2
      then
        match rest with
        | EmptyString => Some (two h1 h2, two m1 m2, 0)
        | String ":" (String s1 (String s2 EmptyString)) =>
            if isDigit s1 && isDigit s2
            then Some (two h1 h2, two m1 m2, two s1 s2) else None
        | _ => None
        end
      else None
  | _ => None
  end.

(** [/^(\d{2})\/(\d{2})\/(\d{4})...$/]: the time value of the match. *)
Definition matchDMY (s : string) : option Z :=
  match s with
  | String d1 (String d2 (String "/" (String m1 (String m2 (String "/"
      (String y1 (String y2 (String y3 (String y4 rest))))))))) =>
      if isDigit d1 && isDigit d2 && isDigit m1 && isDigit m2
         && isDigit y1 && isDigit y2 && isDigit y3 && isDigit y4
      then
        match matchClock rest with
        | Some (hh, mi, ss) =>
            Some (dateUTC (four y1 y2 y3 y4) (two m1 m2 - 1) (two d1 d2) hh mi ss)
        | None => None
        end
      else None
  | _ => None
  end.

(** [/^(\d{4})-(\d{2})-(\d{2})...$/]: the time value of the match. *)
Definition matchYMD (s : string) : option Z :=
  match s with
  | String y1 (String y2 (String y3 (String y4 (String "-" (String m1
      (String m2 (String "-" (String d1 (String d2 rest))))))))) =>
      if isDigit d1 && isDigit d2 && isDigit m1 && isDigit m2
         && isDigit y1 && isDigit y2 && isDigit y3 && isDigit y4
      then
        match matchClock rest with
        | Some (hh, mi, ss) =>
            Some (dateUTC (four y1 y2 y3 y4) (two m1 m2 - 1) (two d1 d2) hh mi ss)
        | None => None
        end
      else None
  | _ => None
  end.

(** [/^\d{4}-\d{2}-\d{2}T/.test(s)] *)
Definition isoShape (s : string) : bool :=
  match s with
  | String y1 (String y2 (String y3 (String y4 (String "-" (String m1
      (String m2 (String "-" (String d1 (String d2 (String "T" _)))))))))) =>
      isDigit d1 && isDigit d2 && isDigit m1 && isDigit m2
      && isDigit y1 && isDigit y2 && isDigit y3 && isDigit y4
  | _ => false
  end.

End Feed.

(* ================================================================== *)
(** ** src/fetch_cefas.mjs, first document *)
(* ================================================================== *)

Module Fetch.
Import JS JSDate Feed.
Local Open Scope string_scope.

Definition STATION_CODE (env : Env) : string :=
  toUpperCase (envOr (STATION_CODE_env env) "EXT").

Definition PLATFORM_ID (env : Env) : string :=
  toUpperCase (envOr (PLATFORM_ID_env env) "353~EXT").

(** [process.env.INST_ID ? String(process.env.INST_ID).trim() : "353"] *)
Definition INST_ID_ENV (env : Env) : string :=
  match INST_ID env with
  | Some s => if isEmptyStr s then "353" else trim s
  | None => "353"
  end.

Definition TARGET_INST : Env -> string := INST_ID_ENV.

Definition toISO (h : Host) (dt : option string) : option string :=
  let s := norm dt in
  if isoShape s then isoOfString h s
  else
    match matchDMY s with
    | Some t => Some (toISOString t)
    | None =>
        match matchYMD s with
        | Some t => Some (toISOString t)
        | None => isoOfString h s
        end
    end.

Definition classifyParam (v : option string) : option Key :=
  let t := stripNonAlnum (lc v) in
  if includes t "hm0" || includes t "hs" || includes t "significantwaveheight"
  then Some hm0
  else if (t =? "tpeak") || (t =? "tp") || includes t "peakperiod" || (t =? "tpp")
  then Some tp
  else if (t =? "tz") || (t =? "t02") || includes t "zerocross"
  then Some tz
  else if includes t "w_pdir" || (t =? "dp") || includes t "peakdirection"
          || includes t "mwd" || includes t "direction"
  then Some dir
  else None.

Record Columns : Type := mkColumns {
  timeCol : option string;
  paramCol : option string;
  valueCol : option string;
  instCol : option string;
  deployCol : option string
}.

Definition columns (headers : list string) : Columns :=
  {| timeCol :=
       orElse (pickExact headers
                 ["Date/Time"; "DateTime"; "SampleDateTime"; "Timestamp"; "Time"; "Datetime"])
              (pickLoose headers ["date"; "time"]);
     paramCol :=
       orElse (pickExact headers ["Parameter"; "ParameterCode"; "ParamCode"])
              (pickLoose headers
                 ["parameter"; "param"; "variable"; "observed"; "property"; "name"]);
     valueCol :=
       orElse (pickExact headers
                 ["ResultMean"; "Value"; "Result"; "Reading"; "DataValue"; "NumericValue"])
              (pickLoose headers ["value"; "result"; "reading"]);
     instCol :=
       orElse (pickExact headers ["InstId"; "InstID"; "InstrumentID"; "InstrumentId"])
              (pickLoose headers ["inst"; "instrument"]);
     deployCol :=
       orElse (pickExact headers ["Deployment"; "DeploymentName"])
              (pickLoose headers ["deployment"; "location"; "site"; "name"]) |}.

Definition isCardigan (env : Env) (c : Columns) (row : Row) : bool :=
  let instVal :=
    match instCol c with Some _ => norm (cell row (instCol c)) | None => "" end in
  let depVal :=
    match deployCol c with Some _ => lc (cell row (deployCol c)) | None => "" end in
  (negb (isEmptyStr instVal)
   && (digitsOnly instVal =? digitsOnly (TARGET_INST env)))
  || includes depVal "cardigan"
  || includes depVal (lc (Some (STATION_CODE env))).

(** One turn of the loop over [rows]. *)
Definition step (h : Host) (env : Env) (c : Columns) (byTs : TsMap) (r : Row)
  : TsMap :=
  if negb (isCardigan env c r) then byTs
  else
    match toISO h (cell r (timeCol c)) with
    | None => byTs
    | Some t =>
        match classifyParam (cell r (paramCol c)) with
        | None => byTs
        | Some cls =>
            match readValue (cell r (valueCol c)) with
            | None => byTs
            | Some val => record byTs t cls val
            end
        end
    end.

Definition byTsOf (h : Host) (env : Env) (rows : list Row) : TsMap :=
  fold_left (step h env (columns (headersOf rows))) rows [].

Definition series (h : Host) (env : Env) (rows : list Row) : list Entry :=
  sortByTs (values (byTsOf h env rows)).

Definition main (h : Host) (env : Env) (resp : Response) : Outcome :=
  match resp with
  | Failed => mkOutcome 1 []
  | Parsed [] =>
      mkOutcome 0 [("public/latest.json", Latest None);
                   ("public/history.json", History []);
                   ("public/diagnostics.json", Diagnostics)]
  | Parsed rows =>
      let s := series h env rows in
      mkOutcome 0 [("public/history.json", History s);
                   ("public/latest.json", Latest (lastEntry s));
                   ("public/diagnostics.json", Diagnostics);
                   ("public/index.html", Index)]
  end.

End Fetch.

(* ================================================================== *)
(** ** src/unnamed/part_000, first document *)
(* ================================================================== *)

Module Strict.
Import JS JSDate Feed.
Local Open Scope string_scope.

Definition STATION_CODE (env : Env) : string := envOr (STATION_CODE_env env) "EXT".
Definition PLATFORM_ID (env : Env) : string := envOr (PLATFORM_ID_env env) "353~EXT".

(** [new Date(s)] on the raw cell; [new Date(undefined)] is invalid. *)
Definition toISO (h : Host) (v : option string) : option string :=
  match v with
  | Some s => isoOfString h s
  | None => None
  end.

Definition findCol : list string -> list string -> list string -> option string :=
  pickBoth toLowerCase.

Record Columns : Type := mkColumns {
  timeCol : option string;
  stationCol : option string;
  platformCol : option string;
  paramCol : option string;
  valueCol : option string
}.

Definition columns (headers : list string) : Columns :=
  {| timeCol := findCol headers
       ["DateTime"; "SampleDateTime"; "Timestamp"; "Time"; "Datetime"] ["time"];
     stationCol := findCol headers
       ["Station"; "StationCode"; "Site"; "SiteCode"; "StationID"] ["station"; "site"];
     platformCol := findCol headers
       ["Platform"; "PlatformCode"; "PlatformID"] ["platform"];
     paramCol := findCol headers
       ["Parameter"; "ParameterCode"; "ParamCode"] ["parameter"];
     valueCol := findCol headers
       ["Value"; "Result"; "Reading"; "DataValue"; "NumericValue"]
       ["value"; "result"; "reading"] |}.

Definition matchesStation (env : Env) (c : Columns) (r : Row) : bool :=
  let s := match stationCol c with
           | Some _ => toUpperCase (trim (strOrEmpty (cell r (stationCol c))))
           | None => "" end in
  let p := match platformCol c with
           | Some _ => toUpperCase (trim (strOrEmpty (cell r (platformCol c))))
           | None => "" end in
  (s =? toUpperCase (STATION_CODE env)) || (p =? toUpperCase (PLATFORM_ID env)).

(** What [wanted[pcode]] finds: one of the four properties of the table; a
    member the table inherits from [Object.prototype], which is truthy and
    is none of the canonical keys; or nothing. *)
Inductive Lookup : Type :=
| Own (k : Key)
| Inherited
| Missing.

Definition inheritedMember (pcode : string) : bool :=
  existsb (String.eqb pcode)
    ["constructor"; "toString"; "toLocaleString"; "valueOf"; "hasOwnProperty";
     "isPrototypeOf"; "propertyIsEnumerable"; "__proto__";
     "__defineGetter__"; "__defineSetter__"; "__lookupGetter__";
     "__lookupSetter__"].

Definition wanted (pcode : string) : Lookup :=
  if pcode =? "Hm0" then Own hm0
  else if pcode =? "Tpeak" then Own tp
  else if pcode =? "Tz" then Own tz
  else if pcode =? "W_PDIR" then Own dir
  else if inheritedMember pcode then Inherited
  else Missing.

(** [if (!byTs.has(ts)) byTs.set(ts, { ts });] *)
Definition touch (m : TsMap) (t : string) : TsMap :=
  if has m t then m else (m ++ [(t, mkEntry t [])])%list.

(** One turn of the loop.  With an inherited member for [key] the value is
    stored under the text of that member; an [Entry] shows the record and
    its timestamp, not that property. *)
Definition step (h : Host) (c : Columns) (byTs : TsMap) (r : Row) : TsMap :=
  match toISO h (cell r (timeCol c)) with
  | None => byTs
  | Some t =>
      match wanted (trim (strOrEmpty (cell r (paramCol c)))) with
      | Missing => byTs
      | Own key =>
          match readValueRaw (cell r (valueCol c)) with
          | None => byTs
          | Some val => record byTs t key val
          end
      | Inherited =>
          match readValueRaw (cell r (valueCol c)) with
          | None => byTs
          | Some _ => touch byTs t
          end
      end
  end.

Definition series (h : Host) (env : Env) (rows : list Row) : list Entry :=
  let c := columns (headersOf rows) in
  sortByTs (values (fold_left (step h c) (filter (matchesStation env c) rows) [])).

Definition unresolved (c : Columns) : bool :=
  match timeCol c, paramCol c, valueCol c with
  | Some _, Some _, Some _ => false
  | _, _, _ => true
  end.

Definition main (h : Host) (env : Env) (resp : Response) : Outcome :=
  match resp with
  | Failed => mkOutcome 1 []
  | Parsed [] => mkOutcome 1 []
  | Parsed rows =>
      if unresolved (columns (headersOf rows)) then mkOutcome 1 []
      else
        let s := series h env rows in
        mkOutcome 0 [("public/history.json", History s);
                     ("public/latest.json", Latest (lastEntry s));
                     ("public/index.html", Index)]
  end.

End Strict.

(* ================================================================== *)
(** ** src/unnamed/part_000, second document *)
(* ================================================================== *)

Module Suffix.
Import JS JSDate Feed.
Local Open Scope string_scope.

Definition toISO (h : Host) (dt : option string) : option string :=
  let s := norm dt in
  match matchDMY s with
  | Some t => Some (toISOString t)
  | None => isoOfString h (if endsWith s "Z" then s else s ++ "Z")
  end.

End Suffix.

(* ================================================================== *)
(** ** src/unnamed/part_001 *)
(* ================================================================== *)

Module Shape.
Import JS JSDate Feed.
Local Open Scope string_scope.

Definition STATION_CODE (env : Env) : string :=
  toUpperCase (envOr (STATION_CODE_env env) "EXT").

Definition PLATFORM_ID (env : Env) : string :=
  toUpperCase (envOr (PLATFORM_ID_env env) "353~EXT").

(** Native parse of the raw cell; when that is invalid, parse again with
    ["Z"] appended.  An [undefined] cell prints as "undefined" in the
    template. *)
Definition toISO (h : Host) (v : option string) : option string :=
  match match v with Some s => newDate h s | None => None end with
  | Some t => Some (toISOString t)
  | None => isoOfString h (strOf v ++ "Z")
  end.

Definition findTimeCol (headers : list string) : option string :=
  orElse (pickExact headers ["DateTime"; "SampleDateTime"; "Timestamp"; "Time"; "Datetime"])
         (pickLoose headers ["date"; "time"]).

Definition stationMatchPool (row : Row) (stationCols : list string) : string :=
  join " | " (map (fun c => lc (prop row c)) stationCols).

Definition headIsDigit (s : string) : bool :=
  match s with String c _ => isDigit c | EmptyString => false end.

(** [/(^|[^0-9])353([^0-9]|$)/.test(pool)]; [prevDigit] tells whether the
    character before [s] is a digit. *)
Fixpoint lone353From (prevDigit : bool) (s : string) : bool :=
  match s with
  | EmptyString => false
  | String c r =>
      (negb prevDigit
       && match s with
          | String "3" (String "5" (String "3" rest)) => negb (headIsDigit rest)
          | _ => false
          end)
      || lone353From (isDigit c) r
  end.

Definition looksLikeCardigan (env : Env) (pool : string) : bool :=
  includes pool (lc (Some (STATION_CODE env)))
  || includes pool (lc (Some (PLATFORM_ID env)))
  || lone353From false pool
  || includes pool "cardigan".

(** [/(^|)hm0($|)/] has empty alternatives on both sides: it tests for the
    substring "hm0". *)
Definition classifyWideHeader (hd : option string) : option Key :=
  let t := stripNonAlnum (lc hd) in
  if includes t "hm0" || includes t "hs" || includes t "significantwaveheight"
  then Some hm0
  else if (t =? "tpeak") || (t =? "tp") || includes t "peakperiod"
  then Some tp
  else if (t =? "tz") || (t =? "t02") || includes t "zerocross"
  then Some tz
  else if includes t "w_pdir" || (t =? "dp") || includes t "peakdirection"
          || includes t "mwd" || (t =? "direction") || includes t "meandirection"
  then Some dir
  else None.

Definition classifyLongParam (v : option string) : option Key :=
  let t := stripNonAlnum (lc v) in
  if includes t "hm0" || includes t "hs" || includes t "significantwaveheight"
  then Some hm0
  else if (t =? "tpeak") || (t =? "tp") || includes t "peakperiod" || (t =? "tpp")
  then Some tp
  else if (t =? "tz") || (t =? "t02") || includes t "zerocross"
  then Some tz
  else if includes t "w_pdir" || (t =? "dp") || includes t "peakdirection"
          || includes t "mwd" || includes t "direction"
  then Some dir
  else None.

Definition stationCols (headers : list string) : list string :=
  somes [pickExact headers ["Station"; "StationCode"; "Site"; "SiteCode"; "StationID"];
         pickLoose headers ["station"; "site"; "buoy"]].

Definition platformCols (headers : list string) : list string :=
  somes [pickExact headers ["Platform"; "PlatformCode"; "PlatformID"; "PlatformNumber"];
         pickLoose headers ["platform"]].

Definition nameCols (headers : list string) : list string :=
  somes [pickExact headers ["StationName"; "SiteName"; "PlatformName"; "Location"];
         pickLoose headers ["name"; "location"]].

Definition filterCols (headers : list string) : list string :=
  dedup (stationCols headers ++ platformCols headers ++ nameCols headers)%list.

(** The object [wideMap]: canonical key to header, keys in first-assignment
    order, a later header replacing an earlier one of the same key. *)
Definition WideMap : Type := list (Key * string).

Fixpoint setWide (m : WideMap) (k : Key) (hd : string) : WideMap :=
  match m with
  | [] => [(k, hd)]
  | (k', h') :: r => if Key_eqb k' k then (k', hd) :: r else (k', h') :: setWide r k hd
  end.

Fixpoint getWide (m : WideMap) (k : Key) : option string :=
  match m with
  | [] => None
  | (k', hd) :: r => if Key_eqb k' k then Some hd else getWide r k
  end.

(** [const k = classifyWideHeader(h); if (k) wideMap[k] = h;] *)
Definition wideMapStep (m : WideMap) (hd : string) : WideMap :=
  match classifyWideHeader (Some hd) with
  | Some k => setWide m k hd
  | None => m
  end.

Definition wideMapOf (headers : list string) : WideMap :=
  fold_left wideMapStep headers [].

(** [Object.keys(wideMap).length >= 2] *)
Definition isWide (headers : list string) : bool :=
  (2 <=? List.length (wideMapOf headers))%nat.

(** The inner loop over ["hm0","tp","tz","dir"] of the wide branch. *)
Definition wideFields (wm : WideMap) (r : Row) : list (Key * num) :=
  fold_left (fun fs key =>
               match getWide wm key with
               | None => fs
               | Some col =>
                   if isEmptyStr col then fs
                   else match readValue (prop r col) with
                        | Some val => setKey fs key val
                        | None => fs
                        end
               end) [hm0; tp; tz; dir] [].

Definition wideStep (h : Host) (env : Env) (fc : list string)
  (tc : option string) (wm : WideMap) (acc : list Entry) (r : Row) : list Entry :=
  if negb (looksLikeCardigan env (stationMatchPool r fc)) then acc
  else
    match toISO h (cell r tc) with
    | None => acc
    | Some t =>
        let fs := wideFields wm r in
        match fs with
        | [] => acc
        | _ => (acc ++ [mkEntry t fs])%list
        end
    end.

Definition longCols (headers : list string) : option string * option string :=
  (orElse (pickExact headers ["Value"; "Result"; "Reading"; "DataValue"; "NumericValue"])
          (pickLoose headers ["value"; "result"; "reading"]),
   orElse (pickExact headers ["Parameter"; "ParameterCode"; "ParamCode"])
          (pickLoose headers
             ["parameter"; "param"; "variable"; "observed"; "property"; "name"])).

Definition longStep (h : Host) (env : Env) (fc : list string)
  (tc valueCol paramCol : option string) (byTs : TsMap) (r : Row) : TsMap :=
  if negb (looksLikeCardigan env (stationMatchPool r fc)) then byTs
  else
    match toISO h (cell r tc) with
    | None => byTs
    | Some t =>
        match classifyLongParam (cell r paramCol) with
        | None => byTs
        | Some cls =>
            match readValue (cell r valueCol) with
            | None => byTs
            | Some val => record byTs t cls val
            end
        end
    end.

Definition wideSeries (h : Host) (env : Env) (rows : list Row) : list Entry :=
  let headers := headersOf rows in
  fold_left (wideStep h env (filterCols headers) (findTimeCol headers)
               (wideMapOf headers)) rows [].

Definition longSeries (h : Host) (env : Env) (rows : list Row) : list Entry :=
  let headers := headersOf rows in
  let '(valueCol, paramCol) := longCols headers in
  sortByTs (values (fold_left (longStep h env (filterCols headers)
                                 (findTimeCol headers) valueCol paramCol) rows [])).

(** Both branches, then the second [series.sort]. *)
Definition series (h : Host) (env : Env) (rows : list Row) : list Entry :=
  sortByTs (if isWide (headersOf rows) then wideSeries h env rows
            else longSeries h env rows).

Definition main (h : Host) (env : Env) (resp : Response) : Outcome :=
  match resp with
  | Failed => mkOutcome 1 []
  | Parsed [] =>
      mkOutcome 0 [("public/latest.json", Latest None);
                   ("public/history.json", History []);
                   ("public/diagnostics.json", Diagnostics)]
  | Parsed rows =>
      let s := series h env rows in
      mkOutcome 0 [("public/history.json", History s);
                   ("public/latest.json", Latest (lastEntry s));
                   ("public/diagnostics.json", Diagnostics);
                   ("public/index.html", Index)]
  end.

End Shape.

(* ================================================================== *)
(** ** src/unnamed/part_002 *)
(* ================================================================== *)

Module Needles.
Import JS JSDate Feed.
Local Open Scope string_scope.

Definition STATION_CODE (env : Env) : string := envOr (STATION_CODE_env env) "EXT".
Definition PLATFORM_ID (env : Env) : string := envOr (PLATFORM_ID_env env) "353~EXT".

Definition toISO (h : Host) (v : option string) : option string :=
  match match v with Some s => newDate h s | None => None end with
  | Some t => Some (toISOString t)
  | None => isoOfString h (strOf v ++ "Z")
  end.

Definition pickHeader : list string -> list string -> list string -> option string :=
  pickBoth toLowerCase.

Definition normParam (v : option string) : string :=
  stripNonAlnum (toLowerCase (strOrEmpty v)).

Definition needles (env : Env) : list string :=
  [toUpperCase (STATION_CODE env); toUpperCase (PLATFORM_ID env); "353"; "CARDIGAN"].

Definition hayOf (r : Row) (stationCols platformCols nameCols : list string) : string :=
  toUpperCase
    (join "|" (map (fun c => strOrEmpty (prop r c))
                   (stationCols ++ platformCols ++ nameCols)%list)).

Definition rowIsCardigan (env : Env) (r : Row)
  (stationCols platformCols nameCols : list string) : bool :=
  existsb (includes (hayOf r stationCols platformCols nameCols)) (needles env).

Definition classifyParam (raw : option string) : option Key :=
  let p := normParam raw in
  if existsb (includes p) ["hm0"; "hs"; "significantwaveheight"; "swh"; "hm0m"; "hsig"]
  then Some hm0
  else if existsb (fun k => includes p k || (p =? k))
            ["tpeak"; "tp"; "peakperiod"; "tppeak"; "tpp"]
  then Some tp
  else if existsb (includes p) ["tz"; "t02"; "meanzero"; "zerocross"]
  then Some tz
  else if existsb (includes p)
            ["w_pdir"; "dp"; "peakdirection"; "dirpeak"; "swelldirection";
             "direction"; "mwd"; "meandirection"]
  then Some dir
  else None.

Record Columns : Type := mkColumns {
  timeCol : option string;
  valueCol : option string;
  paramCols : list string;
  stationCols : list string;
  platformCols : list string;
  nameCols : list string
}.

Definition columns (headers : list string) : Columns :=
  {| timeCol := pickHeader headers
       ["DateTime"; "SampleDateTime"; "Timestamp"; "Time"; "Datetime"] ["time"];
     valueCol := pickHeader headers
       ["Value"; "Result"; "Reading"; "DataValue"; "NumericValue"]
       ["value"; "result"; "reading"];
     paramCols := somes
       [pickHeader headers ["Parameter"; "ParameterCode"; "ParamCode"] ["parameter"; "param"];
        pickHeader headers [] ["name"; "shortname"; "observed"; "property"; "variable"]];
     stationCols := somes
       [pickHeader headers ["Station"; "StationCode"; "Site"; "SiteCode"; "StationID"]
          ["station"; "site"]];
     platformCols := somes
       [pickHeader headers ["Platform"; "PlatformCode"; "PlatformID"; "PlatformNumber"]
          ["platform"]];
     nameCols := somes
       [pickHeader headers ["StationName"; "SiteName"; "PlatformName"; "Location"]
          ["name"; "location"]] |}.

(** [for (const pc of paramCols) { if (r[pc]) { pRaw = r[pc]; break; } }] *)
Fixpoint firstLabel (r : Row) (pcs : list string) : option string :=
  match pcs with
  | [] => None
  | pc :: rest =>
      match prop r pc with
      | Some v => if isEmptyStr v then firstLabel r rest else Some v
      | None => firstLabel r rest
      end
  end.

Definition step (h : Host) (c : Columns) (byTs : TsMap) (r : Row) : TsMap :=
  match toISO h (cell r (timeCol c)) with
  | None => byTs
  | Some t =>
      match classifyParam (firstLabel r (paramCols c)) with
      | None => byTs
      | Some cls =>
          match readValueRaw (cell r (valueCol c)) with
          | None => byTs
          | Some val => record byTs t cls val
          end
      end
  end.

Definition series (h : Host) (env : Env) (rows : list Row) : list Entry :=
  let c := columns (headersOf rows) in
  let cardiganRows :=
    filter (fun r => rowIsCardigan env r (stationCols c) (platformCols c) (nameCols c))
           rows in
  sortByTs (values (fold_left (step h c) cardiganRows [])).

Definition main (h : Host) (env : Env) (resp : Response) : Outcome :=
  match resp with
  | Failed => mkOutcome 1 []
  | Parsed [] =>
      mkOutcome 0 [("public/latest.json", Latest None);
                   ("public/history.json", History []);
                   ("public/diagnostics.json", Diagnostics)]
  | Parsed rows =>
      let s := series h env rows in
      mkOutcome 0 [("public/history.json", History s);
                   ("public/latest.json", Latest (lastEntry s));
                   ("public/diagnostics.json", Diagnostics);
                   ("public/index.html", Index)]
  end.

End Needles.

(* ================================================================== *)
(** ** The statements of the specification, as definitions *)
(* ================================================================== *)

Module Spec.
Import JS JSDate Feed.
Local Open Scope string_scope.

(** Section 4.4: case-fold, then strip every character that is not a
    lowercase letter or digit. *)
Definition normalized (v : option string) : string := stripNonAlnum (lc v).

(** Section 4.4, the rule lists as worded. *)
Definition hm0Rule (t : string) : bool :=
  includes t "hm0" || includes t "hs" || includes t "significantwaveheight".

Definition tpRule (t : string) : bool :=
  (t =? "tpeak") || (t =? "tp") || includes t "peakperiod" || (t =? "tpp").

Definition tzRule (t : string) : bool :=
  (t =? "tz") || (t =? "t02") || includes t "zerocross".

Definition dirRule (t : string) : bool :=
  includes t "wpdir" || (t =? "dp") || includes t "peakdirection"
  || (t =? "mwd") || includes t "meandirection" || (t =? "direction").





(** The direction rule the classifiers apply to text free of "wpdir". *)
Definition dirRuleLoose (t : string) : bool :=
  (t =? "dp") || includes t "peakdirection" || includes t "mwd"
  || includes t "meandirection" || includes t "direction".


(** The number a string of digits writes. *)
Fixpoint decimalFrom (acc : Z) (s : string) : Z :=
  match s with
  | EmptyString => acc
  | String c r => decimalFrom (10 * acc + Z.of_N (digitVal c)) r
  end.

(** A field of exactly [w] digits. *)
Definition numeral (w : nat) (s : string) : option Z :=
  if (String.length s =? w)%nat && sforall isDigit s
  then Some (decimalFrom 0 s) else None.

(** The text before the first separator, and the text after it when there
    is one. *)
Fixpoint cut (isSep : ascii -> bool) (s : string) : string * option string :=
  match s with
  | EmptyString => (EmptyString, None)
  | String c r =>
      if isSep c then (EmptyString, Some r)
      else let (a, b) := cut isSep r in (String c a, b)
  end.

(** Three fields of the given widths with [sep] between them. *)
Definition triple (sep : ascii) (w1 w2 w3 : nat) (s : string) : option (Z * Z * Z) :=
  match cut (Ascii.eqb sep) s with
  | (a, Some r) =>
      match cut (Ascii.eqb sep) r with
      | (b, Some c) =>
          match numeral w1 a, numeral w2 b, numeral w3 c with
          | Some x, Some y, Some z => Some (x, y, z)
          | _, _, _ => None
          end
      | (_, None) => None
      end
  | (_, None) => None
  end.

(** [HH:MM[:SS]]; a missing component is 00. *)
Definition clock (s : string) : option (Z * Z * Z) :=
  match cut (Ascii.eqb ":") s with
  | (a, Some r) =>
      match cut (Ascii.eqb ":") r with
      | (b, Some c) =>
          match numeral 2 a, numeral 2 b, numeral 2 c with
          | Some hh, Some mi, Some ss => Some (hh, mi, ss)
          | _, _, _ => None
          end
      | (b, None) =>
          match numeral 2 a, numeral 2 b with
          | Some hh, Some mi => Some (hh, mi, 0)
          | _, _ => None
          end
      end
  | (_, None) => None
  end.

(** The fields a literal shape names. *)
Record Stamp : Type := mkStamp {
  year : Z;
  month : Z;
  day : Z;
  hour : Z;
  minute : Z;
  second : Z
}.

(** [DD/MM/YYYY]: the day first, then the month, then the year. *)
Definition dayFirst (s : string) : option (Z * Z * Z) :=
  match triple "/" 2 2 4 s with
  | Some (d, m, y) => Some (y, m, d)
  | None => None
  end.

(** [YYYY-MM-DD] *)
Definition yearFirst (s : string) : option (Z * Z * Z) := triple "-" 4 2 2 s.

(** A date, alone or followed by a separator and a clock; without a clock
    the time is 00:00:00. *)
Definition dateTime (isSep : ascii -> bool) (date : string -> option (Z * Z * Z))
  (s : string) : option Stamp :=
  match cut isSep s with
  | (d, None) =>
      match date d with
      | Some (y, m, dd) => Some (mkStamp y m dd 0 0 0)
      | None => None
      end
  | (d, Some t) =>
      match date d, clock t with
      | Some (y, m, dd), Some (hh, mi, ss) => Some (mkStamp y m dd hh mi ss)
      | _, _ => None
      end
  end.

Definition isSpace (c : ascii) : bool := Ascii.eqb c " ".
Definition isSpaceOrT (c : ascii) : bool := Ascii.eqb c " " || Ascii.eqb c "T".

(** Shape 2, [DD/MM/YYYY[ HH:MM[:SS]]], and shape 3,
    [YYYY-MM-DD[ HH:MM[:SS]]] with a space or a [T]. *)
Definition readDMY (isSep : ascii -> bool) (s : string) : option Stamp :=
  dateTime isSep dayFirst s.

Definition readYMD (s : string) : option Stamp := dateTime isSpaceOrT yearFirst s.

(** Shape 1: a [YYYY-MM-DD] date followed by [T]. *)
Definition isoWithT (s : string) : bool :=
  match cut (Ascii.eqb "T") s with
  | (d, Some _) => match yearFirst d with Some _ => true | None => false end
  | (_, None) => false
  end.

(** The Gregorian calendar. *)
Definition leapYear (y : Z) : bool :=
  ((y mod 4 =? 0) && (negb (y mod 100 =? 0) || (y mod 400 =? 0)))%Z.

Definition yearLength (y : Z) : Z := if leapYear y then 366 else 365.

Definition monthLength (y m : Z) : Z :=
  match m with
  | 2 => if leapYear y then 29 else 28
  | 4 | 6 | 9 | 11 => 30
  | _ => 31
  end.

(** The days of the years 0 to [n - 1], and of the months 1 to [n] of a
    year. *)
Fixpoint daysInYears (n : nat) : Z :=
  match n with
  | O => 0
  | S k => daysInYears k + yearLength (Z.of_nat k)
  end.

Fixpoint daysInMonths (y : Z) (n : nat) : Z :=
  match n with
  | O => 0
  | S k => daysInMonths y k + monthLength y (Z.of_nat (S k))
  end.

(** "all components in UTC": the milliseconds from 1970-01-01T00:00:00Z to
    the instant the fields name.  Months are counted on from January of the
    year 0, so that month 13 of a year is January of the next; days and
    clock components are counted on likewise. *)
Definition instant (st : Stamp) : Z :=
  let months := 12 * year st + (month st - 1) in
  let y := months / 12 in
  let m := months mod 12 in
  (daysInYears (Z.to_nat y) + daysInMonths y (Z.to_nat m) + (day st - 1)
   - daysInYears 1970) * 86400000
  + hour st * 3600000 + minute st * 60000 + second st * 1000.

(** The reading of the years 0000 to 0099 as 1900 to 1999. *)
Definition lastCentury (st : Stamp) : Stamp :=
  if (year st <=? 99)%Z
  then mkStamp (1900 + year st) (month st) (day st) (hour st) (minute st) (second st)
  else st.

(** A text that names its instant by itself: it is of shape 2 or 3 and not
    of shape 1. *)
Definition selfContained (s : string) : bool :=
  negb (isoWithT s)
  && match readDMY isSpaceOrT s, readYMD s with
     | None, None => false
     | _, _ => true
     end.













(** A token that holds no vertical bar, the character that joins the
    identity cells of a row. *)
Definition barFree (t : string) : Prop :=
  sforall (fun c => negb (Ascii.eqb c "|")) t = true.

(** Section 4.3, first signal: a configured station code or platform id
    equals, case-insensitively, one of the row's identity columns. *)
Definition exactCodeMatch (station platform : string) (r : Row) (cols : list string)
  : bool :=
  existsb (fun c =>
             let v := toUpperCase (strOrEmpty (prop r c)) in
             (v =? toUpperCase station) || (v =? toUpperCase platform)) cols.

End Spec.

(* ================================================================== *)
(** ** A concrete engine and concrete payloads for the examples *)
(* ================================================================== *)

Module Example.
Import JS JSDate Feed.
Local Open Scope string_scope.

Definition six (a b c d e f : ascii) : Z :=
  Z.of_N (((((digitVal a * 10 + digitVal b) * 10 + digitVal c) * 10
            + digitVal d) * 10 + digitVal e) * 10 + digitVal f).

Definition daysInMonth (y m : Z) : Z :=
  if (m =? 12)%Z then 31%Z
  else (daysBeforeMonth (isLeap y) m - daysBeforeMonth (isLeap y) (m - 1))%Z.

(** [HH:mm:ss] with an optional [Z]: milliseconds into the day, and whether
    the text is marked UTC. *)
Definition parseClock (s : string) : option (Z * bool) :=
  match s with
  | String h1 (String h2 (String ":" (String m1 (String m2 (String ":"
      (String s1 (String s2 rest))))))) =>
      if isDigit h1 && isDigit h2 && isDigit m1 && isDigit m2
         && isDigit s1 && isDigit s2
         && (two h1 h2 <? 24)%Z && (two m1 m2 <? 60)%Z && (two s1 s2 <? 60)%Z
      then
        let t := makeTime (two h1 h2) (two m1 m2) (two s1 s2) 0 in
        match rest with
        | EmptyString => Some (t, false)
        | String "Z" EmptyString => Some (t, true)
        | _ => None
        end
      else None
  | _ => None
  end.

Definition parseAfterYear (y : Z) (s : string) : option (Z * bool) :=
  match s with
  | String "-" (String m1 (String m2 (String "-" (String d1 (String d2
      (String "T" rest)))))) =>
      if isDigit m1 && isDigit m2 && isDigit d1 && isDigit d2
         && (1 <=? two m1 m2)%Z && (two m1 m2 <=? 12)%Z
         && (1 <=? two d1 d2)%Z && (two d1 d2 <=? daysInMonth y (two m1 m2))%Z
      then
        match parseClock rest with
        | Some (t, utc) =>
            Some ((makeDay y (two m1 m2 - 1) (two d1 d2) * msPerDay + t)%Z, utc)
        | None => None
        end
      else None
  | _ => None
  end.

(** An engine that reads the date-time forms [YYYY-MM-DDTHH:mm:ss] and
    [+YYYYYY-MM-DDTHH:mm:ss] / [-YYYYYY-MM-DDTHH:mm:ss] of the ECMAScript
    format, each with an optional [Z], and nothing else.  Text without [Z]
    is local time, [offset] minutes east of UTC. *)
Definition engineParse (offset : Z) (s : string) : option Z :=
  let r :=
    match s with
    | String "+" (String a (String b (String c (String d (String e (String f rest)))))) =>
        if isDigit a && isDigit b && isDigit c && isDigit d && isDigit e && isDigit f
        then parseAfterYear (six a b c d e f) rest else None
    | String "-" (String a (String b (String c (String d (String e (String f rest)))))) =>
        if isDigit a && isDigit b && isDigit c && isDigit d && isDigit e && isDigit f
           && negb (six a b c d e f =? 0)%Z
        then parseAfterYear (- six a b c d e f) rest else None
    | String a (String b (String c (String d rest))) =>
        if isDigit a && isDigit b && isDigit c && isDigit d
        then parseAfterYear (four a b c d) rest else None
    | _ => None
    end in
  match r with
  | Some (t, true) => Some t
  | Some (t, false) => Some (t - offset * 60000)%Z
  | None => None
  end.

(** The engine on a machine in UTC, and on a machine one hour east of it;
    a second UTC machine whose clock shows another time. *)
Definition utcHost : Host := mkHost 1717243200000 (engineParse 0).
Definition cetHost : Host := mkHost 1717243200000 (engineParse 60).
Definition laterHost : Host := mkHost 1893456000000 (engineParse 0).

Definition extEnv : Env := mkEnv None (Some "EXT") None None.

(** The long-shape scenario of section 8. *)
Definition longRows : list Row :=
  [ [("Time", "01/06/2024 12:00"); ("Parameter", "Hm0"); ("Value", "1,5");
     ("Station", "EXT")];
    [("Time", "01/06/2024 12:00"); ("Parameter", "Tp"); ("Value", "6.2");
     ("Station", "EXT")] ].

(** The same rows with the station token in a [Deployment] column. *)
Definition longRowsDeployment : list Row :=
  [ [("Time", "01/06/2024 12:00"); ("Parameter", "Hm0"); ("Value", "1,5");
     ("Deployment", "EXT")];
    [("Time", "01/06/2024 12:00"); ("Parameter", "Tp"); ("Value", "6.2");
     ("Deployment", "EXT")] ].

Definition longRecord : Entry :=
  mkEntry "2024-06-01T12:00:00.000Z"
          [(hm0, Fin false 15 (-1)); (tp, Fin false 62 (-1))].

(** A wide-shape payload in which one instant is reported twice. *)
Definition wideRowsRepeated : list Row :=
  [ [("DateTime", "2024-06-01T12:00:00Z"); ("Station", "EXT");
     ("Hm0", "1.2"); ("Tp", "5.0")];
    [("DateTime", "2024-06-01T12:00:00Z"); ("Station", "EXT");
     ("Hm0", "1.3"); ("Tp", "5.1")] ].


(** A row of another station whose name happens to hold the letters of the
    station code. *)
Definition textileRow : Row := [("Station", "Textile")].
Definition textileDeployment : Row := [("Deployment", "Textile works")].

(** A payload whose headers resolve no time column. *)
Definition rowsWithoutTime : list Row :=
  [ [("Parameter", "Hm0"); ("Value", "1.5"); ("Deployment", "EXT")] ].

End Example.

(* ================================================================== *)
(** ** Vocabulary for the properties of the reducer *)
(* ================================================================== *)

Module Reducer.
Import JS JSDate Feed.

(** What the loops hand to [record]: timestamp, canonical key, value. *)
Definition Triple : Type := (string * Key * num)%type.

(** [byTs.get(t)?.[k]]: the value the map holds for a timestamp and a key. *)
Definition valueAt (m : TsMap) (t : string) (k : Key) : option num :=
  match get m t with
  | Some e => getKey (fields e) k
  | None => None
  end.

(** The same reading on a series: the field [k] of the first record stamped
    [t]. *)
Definition valueIn (s : list Entry) (t : string) (k : Key) : option num :=
  match List.find (fun e => String.eqb (ts e) t) s with
  | Some e => getKey (fields e) k
  | None => None
  end.

(** A turn of a loop seen from the map: nothing, or one [record]. *)
Definition applyTriple (m : TsMap) (x : option Triple) : TsMap :=
  match x with
  | Some (t, k, v) => record m t k v
  | None => m
  end.

(** The value written last for [t] and [k] in a run of triples. *)
Fixpoint lastWrite (l : list Triple) (t : string) (k : Key) : option num :=
  match l with
  | [] => None
  | (t', k', v) :: r =>
      match lastWrite r t k with
      | Some v' => Some v'
      | None => if String.eqb t' t && Key_eqb k' k then Some v else None
      end
  end.

Fixpoint triplesOf {R : Type} (tr : R -> option Triple) (rows : list R)
  : list Triple :=
  match rows with
  | [] => []
  | r :: rest =>
      match tr r with
      | Some x => x :: triplesOf tr rest
      | None => triplesOf tr rest
      end
  end.

(** The row passes the four [continue] guards of the loop of
    fetch_cefas.mjs and reaches the assignment with [t], [k] and [v]. *)
Definition fetchContributes (h : Host) (env : Env) (c : Fetch.Columns)
  (r : Row) (t : string) (k : Key) (v : num) : Prop :=
  Fetch.isCardigan env c r = true
  /\ Fetch.toISO h (cell r (Fetch.timeCol c)) = Some t
  /\ Fetch.classifyParam (cell r (Fetch.paramCol c)) = Some k
  /\ readValue (cell r (Fetch.valueCol c)) = Some v.

Definition fetchTriple (h : Host) (env : Env) (c : Fetch.Columns) (r : Row)
  : option Triple :=
  if Fetch.isCardigan env c r then
    match Fetch.toISO h (cell r (Fetch.timeCol c)),
          Fetch.classifyParam (cell r (Fetch.paramCol c)),
          readValue (cell r (Fetch.valueCol c)) with
    | Some t, Some k, Some v => Some (t, k, v)
    | _, _, _ => None
    end
  else None.

(** A record as the loops build them: at least one field, no key twice,
    every value finite. *)
Definition wellFormed (e : Entry) : Prop :=
  fields e <> []
  /\ NoDup (map fst (fields e))
  /\ Forall (fun p => isFinite (snd p) = true) (fields e).

(** Where a decimal literal stops: the text after its digits is empty or
    begins with neither a digit nor an exponent mark. *)
Definition endsNumber (t : string) : bool :=
  match t with
  | String c _ => negb (isDigit c || Ascii.eqb c "e" || Ascii.eqb c "E")
  | EmptyString => true
  end.

(** The last character of [s] is a digit. *)
Fixpoint lastIsDigit (s : string) : bool :=
  match s with
  | EmptyString => false
  | String c EmptyString => isDigit c
  | String _ r => lastIsDigit r
  end.

(** [s] begins with 353 and no digit follows it. *)
Definition starts353 (s : string) : bool :=
  match s with
  | String "3" (String "5" (String "3" rest)) => negb (Shape.headIsDigit rest)
  | _ => false
  end.

End Reducer.

(* ================================================================== *)
(** ** The calendar behind [toISOString] *)
(* ================================================================== *)

Module Calendar.
Import JS JSDate.

(** The time values whose year [toISOString] writes with four digits:
    0000-01-01T00:00:00.000Z to 9999-12-31T23:59:59.999Z. *)
Definition firstPlain : Z := -62167219200000.
Definition lastPlain : Z := 253402300799999.
Definition plainYear (t : Z) : Prop := firstPlain <= t <= lastPlain.

(** The steps of [civilFromDays] on a day of the 400-year era: the year of
    the era, counted from 1 March, the day of that year, and the month and
    day of month it falls on. *)
Definition yearOfEra (doe : Z) : Z :=
  (doe - doe / 1460 + doe / 36524 - doe / 146096) / 365.
Definition yearStart (yoe : Z) : Z := 365 * yoe + yoe / 4 - yoe / 100.
Definition dayOfYear (doe : Z) : Z := doe - yearStart (yearOfEra doe).
Definition monthOf (doy : Z) : Z :=
  let mp := (5 * doy + 2) / 153 in if mp <? 10 then mp + 3 else mp - 9.
Definition dayOf (doy : Z) : Z :=
  doy - (153 * ((5 * doy + 2) / 153) + 2) / 5 + 1.
Definition yearCarry (doy : Z) : Z := if monthOf doy <=? 2 then 1 else 0.

(** The fields [toISOString] prints, read as one number. *)
Definition dateKey (day : Z) : Z :=
  let '(y, m, d) := civilFromDays day in y * 10000 + m * 100 + d.

Definition clockKey (r : Z) : Z :=
  r / 3600000 * 10000000 + (r / 60000 mod 60) * 100000
  + (r / 1000 mod 60) * 1000 + r mod 1000.

Definition isoKey (t : Z) : Z :=
  dateKey (t / msPerDay) * 1000000000 + clockKey (t mod msPerDay).

End Calendar.

(* ================================================================== *)
(** ** Further concrete configurations and payloads *)
(* ================================================================== *)

Module Sample.
Import JS JSDate Feed.
Local Open Scope string_scope.

(** A configuration whose station code is a single blank. *)
Definition blankEnv : Env := mkEnv None (Some " ") None None.

(** Three readings of the station: two days of June 2024 and a row whose
    date fields are all nines. *)
Definition yearRows : list Row :=
  [ [("Time", "02/06/2024 12:00"); ("Parameter", "Hm0"); ("Value", "1.7");
     ("Deployment", "EXT")];
    [("Time", "99/99/9999 99:99:99"); ("Parameter", "Hm0"); ("Value", "9.9");
     ("Deployment", "EXT")];
    [("Time", "01/06/2024 12:00"); ("Parameter", "Hm0"); ("Value", "1.5");
     ("Deployment", "EXT")] ].

(** A reading whose time cell has a [T] and no offset. *)
Definition zoneRows : list Row :=
  [ [("Time", "2024-06-01T12:00:00"); ("Parameter", "Hm0"); ("Value", "1.5");
     ("Deployment", "EXT")] ].

(** Long-shape rows stamped in the ECMAScript format: a reading of June
    2024, one of the year 10000 and one of the year before the year 0. *)
Definition signedRows : list Row :=
  [ [("Time", "2024-06-01T12:00:00Z"); ("Parameter", "Hm0"); ("Value", "1.5");
     ("Station", "EXT"); ("Deployment", "EXT")];
    [("Time", "+010000-01-01T00:00:00Z"); ("Parameter", "Hm0"); ("Value", "2.5");
     ("Station", "EXT"); ("Deployment", "EXT")];
    [("Time", "-000001-01-01T00:00:00Z"); ("Parameter", "Hm0"); ("Value", "3.5");
     ("Station", "EXT"); ("Deployment", "EXT")] ].

End Sample.

(* ================================================================== *)
(** ** The label objects of the later scripts *)
(* ================================================================== *)

Module Labels.
Import JS JSDate Feed.
Local Open Scope string_scope.

(** [raw]: an object from parameter label to number, its own properties in
    the order they were created. *)
Definition Obj : Type := list (string * num).

Fixpoint getProp (o : Obj) (k : string) : option num :=
  match o with
  | [] => None
  | (k', v) :: r => if k' =? k then Some v else getProp r k
  end.

Fixpoint putProp (o : Obj) (k : string) (v : num) : Obj :=
  match o with
  | [] => [(k, v)]
  | (k', v') :: r => if k' =? k then (k', v) :: r else (k', v') :: putProp r k v
  end.

(** [raw[label] = val] with a number [val].  The label [__proto__] reaches
    the setter inherited from [Object.prototype], which ignores a number:
    no property is created. *)
Definition setProp (o : Obj) (k : string) (v : num) : Obj :=
  if k =? "__proto__" then o else putProp o k v.

(** An array index: the canonical decimal text of an integer below
    2^32 - 1. *)
Definition isArrayIndex (k : string) : bool :=
  match k with
  | EmptyString => false
  | String c r =>
      sforall isDigit k && (negb (Ascii.eqb c "0") || isEmptyStr r)
      && (digitsValue k <=? 4294967294)%N
  end.

Fixpoint insertIndex (p : string * num) (l : Obj) : Obj :=
  match l with
  | [] => [p]
  | q :: r =>
      if (digitsValue (fst p) <=? digitsValue (fst q))%N then p :: q :: r
      else q :: insertIndex p r
  end.

Fixpoint sortIndex (l : Obj) : Obj :=
  match l with
  | [] => []
  | p :: r => insertIndex p (sortIndex r)
  end.

(** [Object.entries(raw)]: array indices in ascending numeric order, then
    the other labels in creation order. *)
Definition entries (o : Obj) : Obj :=
  (sortIndex (filter (fun p => isArrayIndex (fst p)) o)
   ++ filter (fun p => negb (isArrayIndex (fst p))) o)%list.

(** [Object.keys(raw)] *)
Definition keys (o : Obj) : list string := map fst (entries o).

(** The patterns handed to [new RegExp]: [^text$] and plain [text]. *)
Inductive Pattern : Type :=
| Whole (s : string)
| Part (s : string).

(** [re.test(t)] *)
Definition test (p : Pattern) (t : string) : bool :=
  match p with
  | Whole s => t =? s
  | Part s => includes t s
  end.

(** [k.toLowerCase().replace(/[^a-z0-9]/g, "")] *)
Definition canon (k : string) : string := stripNonAlnum (toLowerCase k).

(** [x] is the first element of [l] that meets [P]. *)
Definition firstMeeting {A : Type} (P : A -> bool) (l : list A) (x : A) : Prop :=
  exists pre post,
    l = (pre ++ x :: post)%list /\ P x = true /\ forall y, In y pre -> P y = false.

(** [re.test(canon(k))], and the same for some pattern of a list. *)
Definition meets (re : Pattern) (k : string) : bool := test re (canon k).
Definition meetsAny (pats : list Pattern) (k : string) : bool :=
  existsb (fun re => test re (canon k)) pats.

(** An object as the loops build it: no label twice, no empty label. *)
Definition wellKeyed (o : Obj) : Prop :=
  NoDup (map fst o) /\ ~ In "" (map fst o).

(** [{ ts, raw }], the value kept per timestamp. *)
Record Noted : Type := mkNoted {
  nts : string;
  raw : Obj
}.

(** The [Map] from timestamp to [{ ts, raw }], in insertion order. *)
Definition RawMap : Type := list (string * Noted).

Fixpoint hasTs (m : RawMap) (t : string) : bool :=
  match m with
  | [] => false
  | (k, _) :: r => (k =? t) || hasTs r t
  end.

Fixpoint assignRaw (m : RawMap) (t label : string) (v : num) : RawMap :=
  match m with
  | [] => []
  | (k, e) :: r =>
      if k =? t then (k, mkNoted (nts e) (setProp (raw e) label v)) :: r
      else (k, e) :: assignRaw r t label v
  end.

(** [if (!byTs.has(ts)) byTs.set(ts, { ts, raw: {} });
     byTs.get(ts).raw[label] = val;] *)
Definition note (m : RawMap) (t label : string) (v : num) : RawMap :=
  assignRaw (if hasTs m t then m else (m ++ [(t, mkNoted t [])])%list) t label v.

(** A record of the series: [{ ts, hm0, tp, tz, dir, raw }]; a field that
    is [undefined] is left out when the record is written. *)
Record Canonical : Type := mkCanonical {
  cts : string;
  chm0 : option num;
  ctp : option num;
  ctz : option num;
  cdir : option num;
  craw : Obj
}.

(** [a.ts.localeCompare(b.ts) <= 0] *)
Definition ctsLeb (a b : Canonical) : bool := localeLeb (cts a) (cts b).

Definition ctsLe (a b : Canonical) : Prop := ctsLeb a b = true.

(** [r[k]] for a canonical key [k]. *)
Definition fieldOf (r : Canonical) (k : Key) : option num :=
  match k with
  | hm0 => chm0 r
  | tp => ctp r
  | tz => ctz r
  | dir => cdir r
  end.

(** What the loops keep of an object: no label twice, none empty, none
    named [__proto__], every value finite. *)
Definition goodRaw (o : Obj) : Prop :=
  wellKeyed o /\ ~ In "__proto__" (map fst o)
  /\ Forall (fun p => isFinite (snd p) = true) o.

(** Every key of the map is the timestamp of its value, no key occurs
    twice, and every object in it is as the loops keep it. *)
Definition goodMap (m : RawMap) : Prop :=
  NoDup (map fst m)
  /\ Forall (fun p => nts (snd p) = fst p /\ goodRaw (raw (snd p))) m.

(** [series.sort((a, b) => a.ts.localeCompare(b.ts))], a stable sort. *)
Fixpoint insertCanonical (x : Canonical) (l : list Canonical) : list Canonical :=
  match l with
  | [] => [x]
  | y :: r => if ctsLeb x y then x :: y :: r else y :: insertCanonical x r
  end.

Fixpoint sortCanonical (l : list Canonical) : list Canonical :=
  match l with
  | [] => []
  | x :: r => insertCanonical x (sortCanonical r)
  end.

(** [series.at(-1) ?? null] *)
Definition lastCanonical (l : list Canonical) : option Canonical :=
  List.last (map Some l) None.

End Labels.

(* ================================================================== *)
(** ** src/unnamed/part_000, second script *)
(* ================================================================== *)

Module Canon.
Import JS JSDate Feed Labels.
Local Open Scope string_scope.

(** [String(process.env.INST_ID || "353").replace(/\D/g, "")] *)
Definition TARGET_INST (env : Env) : string := digitsOnly (envOr (INST_ID env) "353").

(** [toISO], the same text as in the second script of fetch_cefas.mjs. *)
Definition toISO : Host -> option string -> option string := Suffix.toISO.

Definition pick : list string -> list string -> list string -> option string :=
  pickBoth (fun h => lc (Some h)).

Definition columns (headers : list string) : Fetch.Columns :=
  {| Fetch.timeCol := pick headers
       ["Date/Time"; "DateTime"; "SampleDateTime"; "Timestamp"; "Time"; "Datetime"]
       ["date"; "time"];
     Fetch.instCol := pick headers
       ["InstId"; "InstID"; "InstrumentID"; "InstrumentId"] ["inst"; "instrument"];
     Fetch.deployCol := pick headers
       ["Deployment"; "DeploymentName"] ["deployment"; "location"; "site"; "name"];
     Fetch.paramCol := pick headers
       ["Parameter"; "ParameterCode"; "ParamCode"]
       ["parameter"; "param"; "variable"; "observed"; "property"; "name"];
     Fetch.valueCol := pick headers
       ["ResultMean"; "Value"; "Result"; "Reading"; "DataValue"; "NumericValue"]
       ["value"; "result"; "reading"] |}.

Definition isCardigan (env : Env) (c : Fetch.Columns) (row : Row) : bool :=
  let inst :=
    match Fetch.instCol c with
    | Some _ => strOrEmpty (cell row (Fetch.instCol c))
    | None => ""
    end in
  let dep :=
    match Fetch.deployCol c with
    | Some _ => lc (cell row (Fetch.deployCol c))
    | None => ""
    end in
  (negb (isEmptyStr inst) && (digitsOnly inst =? TARGET_INST env))
  || includes dep "cardigan".

(** One turn of the loop over [rows]. *)
Definition step (h : Host) (env : Env) (c : Fetch.Columns) (byTs : RawMap) (r : Row)
  : RawMap :=
  if negb (isCardigan env c r) then byTs
  else
    match toISO h (cell r (Fetch.timeCol c)) with
    | None => byTs
    | Some t =>
        let label := norm (cell r (Fetch.paramCol c)) in
        match readValue (cell r (Fetch.valueCol c)) with
        | None => byTs
        | Some val => if isEmptyStr label then byTs else note byTs t label val
        end
    end.

(** [pickField]: the first entry, in key order, whose folded label meets
    any of the patterns. *)
Definition pickField (o : Obj) (pats : list Pattern) : option num :=
  option_map snd
    (List.find (fun e => existsb (fun re => test re (canon (fst e))) pats)
               (entries o)).

Definition hm0Patterns : list Pattern :=
  [Whole "hm0"; Part "significantwaveheight"; Whole "hs"; Part "hm0m"].
Definition tpPatterns : list Pattern :=
  [Whole "tpeak"; Whole "tp"; Part "peakperiod"; Whole "tpp"].
Definition tzPatterns : list Pattern :=
  [Whole "tz"; Whole "t02"; Part "zerocross"].
Definition dirPatterns : list Pattern :=
  [Whole "w_pdir"; Whole "dp"; Part "peakdirection"; Whole "mwd";
   Part "meandirection"; Whole "direction"].

Definition canonicalize (e : Noted) : Canonical :=
  {| cts := nts e;
     chm0 := pickField (raw e) hm0Patterns;
     ctp := pickField (raw e) tpPatterns;
     ctz := pickField (raw e) tzPatterns;
     cdir := pickField (raw e) dirPatterns;
     craw := raw e |}.

Definition byTsOf (h : Host) (env : Env) (rows : list Row) : RawMap :=
  fold_left (step h env (columns (headersOf rows))) rows [].

Definition series (h : Host) (env : Env) (rows : list Row) : list Canonical :=
  sortCanonical (map canonicalize (map snd (byTsOf h env rows))).

Definition latest (h : Host) (env : Env) (rows : list Row) : option Canonical :=
  lastCanonical (series h env rows).

End Canon.

(* ================================================================== *)
(** ** src/fetch_cefas.mjs, second script *)
(* ================================================================== *)

Module Picker.
Import JS JSDate Feed Labels.
Local Open Scope string_scope.

(** [(process.env.INST_ID || "").replace(/\D/g, "")] *)
Definition PREFERRED_INST (env : Env) : string := digitsOnly (envOr (INST_ID env) "").

(** [toISO], the same text as in the second script of part_000. *)
Definition toISO : Host -> option string -> option string := Suffix.toISO.

(** [names.find(h => headers.includes(h))] *)
Definition findName (names headers : list string) : option string :=
  List.find (fun n => existsb (String.eqb n) headers) names.

(** [headers.find(h => lc(h).includes(a) || lc(h).includes(b) || ...)] *)
Definition findLoose (needles headers : list string) : option string :=
  List.find (fun hd => existsb (includes (lc (Some hd))) needles) headers.

Definition column (names needles headers : list string) : option string :=
  orElse (findName names headers) (findLoose needles headers).

Record Columns : Type := mkColumns {
  timeCol : option string;
  instCol : option string;
  depCol : option string;
  paramCol : option string;
  valueCol : option string
}.

Definition columns (headers : list string) : Columns :=
  {| timeCol := column
       ["Date/Time"; "DateTime"; "SampleDateTime"; "Timestamp"; "Time"; "Datetime"]
       ["time"; "date"] headers;
     instCol := column
       ["InstId"; "InstID"; "InstrumentID"; "InstrumentId"] ["inst"] headers;
     depCol := column
       ["Deployment"; "DeploymentName"] ["deploy"; "location"; "site"; "name"] headers;
     paramCol := column
       ["Parameter"; "ParameterCode"; "ParamCode"]
       ["param"; "variable"; "observed"; "property"; "name"] headers;
     valueCol := column
       ["ResultMean"; "Value"; "Result"; "Reading"; "DataValue"; "NumericValue"]
       ["value"; "result"; "reading"] headers |}.

(** [r[col]] where [col] is a column name or [undefined]; an [undefined]
    subscript reads the property named "undefined". *)
Definition sub (r : Row) (col : option string) : option string :=
  prop r (match col with Some k => k | None => "undefined" end).

(** [instCol ? norm(r[instCol]).replace(/\D/g, "") : ""] *)
Definition instDigitsOf (c : Columns) (r : Row) : string :=
  match instCol c with
  | Some _ => digitsOnly (norm (sub r (instCol c)))
  | None => ""
  end.

(** [depCol ? norm(r[depCol]) : ""] *)
Definition depOf (c : Columns) (r : Row) : string :=
  match depCol c with
  | Some _ => norm (sub r (depCol c))
  | None => ""
  end.

(** [s || d] on strings *)
Definition orText (s d : string) : string := if isEmptyStr s then d else s.

Definition instKeyOf (c : Columns) (r : Row) : string :=
  orText (instDigitsOf c r) "no-inst" ++ "|" ++ orText (depOf c r) "no-deployment".

(** An entry of [stationMap]; [params] is the [Set], in insertion order. *)
Record Station : Type := mkStation {
  instId : option string;
  deployment : option string;
  rowCount : N;
  lastTs : option string;
  params : list string
}.

(** The entry created for the first row of a key. *)
Definition fresh (c : Columns) (r : Row) : Station :=
  {| instId := if isEmptyStr (instDigitsOf c r) then None else Some (instDigitsOf c r);
     deployment := match depCol c with
                   | Some _ => Some (norm (sub r (depCol c)))
                   | None => None
                   end;
     rowCount := 0;
     lastTs := None;
     params := [] |}.

(** [set.add(x)] *)
Definition addSet (l : list string) (x : string) : list string :=
  if existsb (String.eqb x) l then l else (l ++ [x])%list.

(** [!s.lastTs || ts > s.lastTs] *)
Definition newer (t : string) (old : option string) : bool :=
  match old with
  | Some o => isEmptyStr o || String.ltb o t
  | None => true
  end.

(** What a row adds to its entry. *)
Definition bump (h : Host) (c : Columns) (r : Row) (s : Station) : Station :=
  {| instId := instId s;
     deployment := deployment s;
     rowCount := rowCount s + 1;
     lastTs := match toISO h (sub r (timeCol c)) with
               | Some t => if newer t (lastTs s) then Some t else lastTs s
               | None => lastTs s
               end;
     params := addSet (params s) (norm (sub r (paramCol c))) |}.

Definition StationMap : Type := list (string * Station).

Fixpoint hasKey (m : StationMap) (k : string) : bool :=
  match m with
  | [] => false
  | (k', _) :: r => (k' =? k) || hasKey r k
  end.

Fixpoint updateKey (m : StationMap) (k : string) (f : Station -> Station) : StationMap :=
  match m with
  | [] => []
  | (k', s) :: r => if k' =? k then (k', f s) :: r else (k', s) :: updateKey r k f
  end.

(** One turn of the loop that fills [stationMap]. *)
Definition count (h : Host) (c : Columns) (m : StationMap) (r : Row) : StationMap :=
  let key := instKeyOf c r in
  updateKey (if hasKey m key then m else (m ++ [(key, fresh c r)])%list)
            key (bump h c r).

Definition stationMapOf (h : Host) (c : Columns) (rows : list Row) : StationMap :=
  fold_left (count h c) rows [].

(** [(a, b) => b.rowCount - a.rowCount] is at most 0. *)
Definition byCount (a b : Station) : bool := (rowCount b <=? rowCount a)%N.

Fixpoint insertStation (x : Station) (l : list Station) : list Station :=
  match l with
  | [] => [x]
  | y :: r => if byCount x y then x :: y :: r else y :: insertStation x r
  end.

(** [l.sort((a, b) => b.rowCount - a.rowCount)], a stable sort. *)
Fixpoint sortStations (l : list Station) : list Station :=
  match l with
  | [] => []
  | x :: r => insertStation x (sortStations r)
  end.

Definition namesCardigan (s : Station) : bool :=
  includes (lc (deployment s)) "cardigan".

Definition hasInst (env : Env) (s : Station) : bool :=
  strOrEmpty (instId s) =? PREFERRED_INST env.

(** [pickStation]; [None] is the [undefined] an empty map gives. *)
Definition pickStation (env : Env) (m : StationMap) : option Station :=
  let all := map snd m in
  match filter namesCardigan all with
  | (_ :: _) as cardigan => hd_error (sortStations cardigan)
  | [] =>
      if isEmptyStr (PREFERRED_INST env) then hd_error (sortStations all)
      else
        match filter (hasInst env) all with
        | (_ :: _) as byInst => hd_error (sortStations byInst)
        | [] => hd_error (sortStations all)
        end
  end.

(** A value that is a non-empty string. *)
Definition truthy (v : option string) : bool :=
  match v with
  | Some s => negb (isEmptyStr s)
  | None => false
  end.

Definition matchesChosen (c : Columns) (chosen : Station) (r : Row) : bool :=
  let depTxt :=
    match depCol c with
    | Some _ => lc (sub r (depCol c))
    | None => ""
    end in
  (truthy (instId chosen) && (instDigitsOf c r =? strOrEmpty (instId chosen)))
  || (truthy (deployment chosen) && negb (isEmptyStr (lc (deployment chosen)))
      && (depTxt =? lc (deployment chosen))).

(** One turn of the loop that fills [byTs]. *)
Definition step (h : Host) (c : Columns) (chosen : Station) (byTs : RawMap) (r : Row)
  : RawMap :=
  if negb (matchesChosen c chosen r) then byTs
  else
    match toISO h (sub r (timeCol c)) with
    | None => byTs
    | Some t =>
        let label := norm (sub r (paramCol c)) in
        match readValue (sub r (valueCol c)) with
        | None => byTs
        | Some val => if isEmptyStr label then byTs else note byTs t label val
        end
    end.

(** [pickField]: for each pattern in turn, the first key whose folded
    label meets it. *)
Fixpoint pickField (o : Obj) (pats : list Pattern) : option num :=
  match pats with
  | [] => None
  | re :: rest =>
      match List.find (fun k => test re (canon k)) (keys o) with
      | Some m => if isEmptyStr m then pickField o rest else getProp o m
      | None => pickField o rest
      end
  end.

Definition hm0Patterns : list Pattern :=
  [Whole "hm0"; Part "significantwaveheight"; Whole "hs"; Part "hm0m"].
Definition tpPatterns : list Pattern :=
  [Whole "tpeak"; Whole "tp"; Part "peakperiod"; Whole "tpp"].
Definition tzPatterns : list Pattern :=
  [Whole "tz"; Whole "t02"; Part "zerocross"].
Definition dirPatterns : list Pattern :=
  [Whole "w_pdir"; Whole "wpdir"; Whole "dp"; Part "peakdirection"; Whole "mwd";
   Part "meandirection"; Whole "direction"].

(** The record built from [{ ts, raw }], with the fallback on [W_PDIR]. *)
Definition toRecord (e : Noted) : Canonical :=
  {| cts := nts e;
     chm0 := pickField (raw e) hm0Patterns;
     ctp := pickField (raw e) tpPatterns;
     ctz := pickField (raw e) tzPatterns;
     cdir := orElse (pickField (raw e) dirPatterns) (getProp (raw e) "W_PDIR");
     craw := raw e |}.

Definition chosenOf (h : Host) (env : Env) (rows : list Row) : option Station :=
  pickStation env (stationMapOf h (columns (headersOf rows)) rows).

Definition byTsOf (h : Host) (env : Env) (rows : list Row) : RawMap :=
  match chosenOf h env rows with
  | Some chosen => fold_left (step h (columns (headersOf rows)) chosen) rows []
  | None => []
  end.

Definition series (h : Host) (env : Env) (rows : list Row) : list Canonical :=
  sortCanonical (map toRecord (map snd (byTsOf h env rows))).

Definition latest (h : Host) (env : Env) (rows : list Row) : option Canonical :=
  lastCanonical (series h env rows).

(** [a] counts at least as many rows as [b]. *)
Definition countGe (a b : Station) : Prop := (rowCount b <= rowCount a)%N.

(** No bar in the instrument part of a key. *)
Definition noBar (c : ascii) : bool := negb (Ascii.eqb c "|").

(** What the counting loop has established after the rows [rows]: no key
    twice, every row has its key in the map, and the entry of a key counts
    the rows of that key and carries the identity of one of them. *)
Definition counted (c : Columns) (rows : list Row) (m : StationMap) : Prop :=
  NoDup (map fst m)
  /\ (forall r, In r rows -> In (instKeyOf c r) (map fst m))
  /\ forall k s, In (k, s) m ->
       rowCount s
       = N.of_nat (length (filter (fun r => instKeyOf c r =? k) rows))
       /\ exists r0, In r0 rows /\ instKeyOf c r0 = k
                     /\ instId s = instId (fresh c r0)
                     /\ deployment s = deployment (fresh c r0).

End Picker.

Module LaterSample.
Import JS JSDate Feed Labels.
Local Open Scope string_scope.

(** A payload of two instruments; the first reports the wave height under
    two labels, a direction as [W_PDIR], two numeric labels and the label
    [__proto__]. *)
Definition labelRows : list Row :=
  [ [("Date/Time", "01/06/2024 12:00"); ("InstId", "353");
     ("Deployment", "Cardigan Bay"); ("Parameter", "Hs"); ("ResultMean", "1,5")];
    [("Date/Time", "01/06/2024 12:00"); ("InstId", "353");
     ("Deployment", "Cardigan Bay"); ("Parameter", "Hm0"); ("ResultMean", "1.7")];
    [("Date/Time", "01/06/2024 12:00"); ("InstId", "353");
     ("Deployment", "Cardigan Bay"); ("Parameter", "W_PDIR"); ("ResultMean", "270")];
    [("Date/Time", "01/06/2024 12:30"); ("InstId", "353");
     ("Deployment", "Cardigan Bay"); ("Parameter", "10"); ("ResultMean", "3")];
    [("Date/Time", "01/06/2024 12:30"); ("InstId", "353");
     ("Deployment", "Cardigan Bay"); ("Parameter", "2"); ("ResultMean", "4")];
    [("Date/Time", "01/06/2024 12:30"); ("InstId", "353");
     ("Deployment", "Cardigan Bay"); ("Parameter", "__proto__"); ("ResultMean", "4")];
    [("Date/Time", "01/06/2024 12:30"); ("InstId", "12");
     ("Deployment", "Poole"); ("Parameter", "Tz"); ("ResultMean", "4")] ].

(** The entry for rows that carry neither an instrument nor a deployment
    column. *)
Definition namelessStation : Picker.Station :=
  {| Picker.instId := None;
     Picker.deployment := None;
     Picker.rowCount := 2;
     Picker.lastTs := Some "2024-06-01T12:00:00.000Z";
     Picker.params := ["Hm0"; "Tp"] |}.

(** Readings of the station stamped in the year before the year 0, in June
    2024 and in the year 10000. *)
Definition signedLabelRows : list Row :=
  [ [("Time", "01/06/2024 12:00"); ("Parameter", "Hm0"); ("Value", "1.5");
     ("Deployment", "Cardigan Bay"); ("InstId", "353")];
    [("Time", "+010000-01-01T00:00:00Z"); ("Parameter", "Hm0"); ("Value", "2.5");
     ("Deployment", "Cardigan Bay"); ("InstId", "353")];
    [("Time", "-000001-01-01T00:00:00Z"); ("Parameter", "Hm0"); ("Value", "3.5");
     ("Deployment", "Cardigan Bay"); ("InstId", "353")] ].

(** A configuration whose instrument id holds no digit. *)
Definition namedEnv : Env := mkEnv None None None (Some "EXT").

End LaterSample.

(* ================================================================== *)
(** ** Facts about the host's strings *)
(* ================================================================== *)

Import JS JSDate Feed.

Ltac bits c := destruct c as [[|] [|] [|] [|] [|] [|] [|] [|]].

Lemma startsWith_app (p q : string) : startsWith p (p ++ q) = true.
Proof.
  induction p as [|a p IH]; simpl; [reflexivity|].
  now rewrite Ascii.eqb_refl, IH.
Qed.

Lemma startsWith_split (p s : string) :
  startsWith p s = true -> exists q, s = p ++ q.
Proof.
  revert s; induction p as [|a p IH]; intros s H; simpl in *.
  - now exists s.
  - destruct s as [|b s]; [discriminate|].
    apply andb_true_iff in H as [Hab Hps].
    apply Ascii.eqb_eq in Hab; subst b.
    destruct (IH _ Hps) as [q ->]. now exists q.
Qed.

Lemma includes_split (hay needle : string) :
  includes hay needle = true -> exists p q, hay = p ++ needle ++ q.
Proof.
  induction hay as [|c r IH]; simpl; intros H.
  - rewrite orb_false_r in H. apply startsWith_split in H as [q ->].
    exists "", q. reflexivity.
  - apply orb_true_iff in H as [H|H].
    + apply startsWith_split in H as [q ->]. exists "", q. reflexivity.
    + destruct (IH H) as (p & q & ->). exists (String c p), q. reflexivity.
Qed.

Lemma includes_startsWith (hay needle : string) :
  startsWith needle hay = true -> includes hay needle = true.
Proof. intros H. destruct hay; simpl; now rewrite H. Qed.

Lemma includes_app (p needle q : string) :
  includes (p ++ needle ++ q) needle = true.
Proof.
  induction p as [|c p IH]; simpl.
  - apply includes_startsWith, startsWith_app.
  - rewrite IH. apply orb_true_r.
Qed.

Lemma string_app_assoc (a b c : string) : (a ++ b) ++ c = a ++ (b ++ c).
Proof. induction a as [|x a IH]; simpl; [reflexivity|now rewrite IH]. Qed.

Lemma string_app_empty_r (a : string) : a ++ "" = a.
Proof. induction a as [|x a IH]; simpl; [reflexivity|now rewrite IH]. Qed.

Lemma includes_refl (t : string) : includes t t = true.
Proof.
  rewrite <- (string_app_empty_r t) at 1.
  apply (includes_app "" t "").
Qed.

Lemma includes_trans (a b c : string) :
  includes a b = true -> includes b c = true -> includes a c = true.
Proof.
  intros Hab Hbc.
  apply includes_split in Hab as (p & q & ->).
  apply includes_split in Hbc as (p' & q' & ->).
  replace (p ++ (p' ++ c ++ q') ++ q) with ((p ++ p') ++ c ++ (q' ++ q)).
  - apply includes_app.
  - now rewrite !string_app_assoc.
Qed.

Lemma sforall_app (P : ascii -> bool) (a b : string) :
  sforall P (a ++ b) = sforall P a && sforall P b.
Proof.
  induction a as [|x a IH]; simpl; [reflexivity|].
  now rewrite IH, andb_assoc.
Qed.

Lemma includes_sforall (P : ascii -> bool) (hay needle : string) :
  includes hay needle = true -> sforall P hay = true -> sforall P needle = true.
Proof.
  intros H HP. apply includes_split in H as (p & q & ->).
  rewrite !sforall_app in HP.
  apply andb_true_iff in HP as [_ HP].
  now apply andb_true_iff in HP as [HP _].
Qed.

Lemma sfilter_sforall (P : ascii -> bool) (s : string) :
  sforall P (sfilter P s) = true.
Proof.
  induction s as [|c s IH]; simpl; [reflexivity|].
  destruct (P c) eqn:E; simpl; [now rewrite E|assumption].
Qed.

(** Normalized text holds lowercase letters and digits only, so it never
    holds a needle with an underscore. *)
Lemma stripped_no_underscore (s : string) :
  includes (stripNonAlnum s) "w_pdir" = false.
Proof.
  destruct (includes (stripNonAlnum s) "w_pdir") eqn:E; [|reflexivity].
  apply (includes_sforall isAlnumLower) in E.
  - discriminate E.
  - apply sfilter_sforall.
Qed.

Lemma eqb_includes (t n : string) : (t =? n)%string = true -> includes t n = true.
Proof. intros H. apply String.eqb_eq in H. subst. apply includes_refl. Qed.

Lemma includes_empty_hay (n : string) : includes "" n = isEmptyStr n.
Proof. now destruct n. Qed.

Lemma includes_empty_needle (hay : string) : includes hay "" = true.
Proof. now destruct hay. Qed.

Lemma toUpperCase_nonempty (s : string) :
  isEmptyStr s = false -> isEmptyStr (toUpperCase s) = false.
Proof. now destruct s. Qed.

(* ================================================================== *)
(** ** The Parameter Classifier *)
(* ================================================================== *)

Lemma classifyLongParam_is_classifyParam (v : option string) :
  Shape.classifyLongParam v = Fetch.classifyParam v.
Proof. reflexivity. Qed.

Lemma meandirection_direction (t : string) :
  includes t "meandirection" = true -> includes t "direction" = true.
Proof. intros H. apply (includes_trans _ _ _ H). reflexivity. Qed.

Lemma peakdirection_direction (t : string) :
  includes t "peakdirection" = true -> includes t "direction" = true.
Proof. intros H. apply (includes_trans _ _ _ H). reflexivity. Qed.

(** The label W_PDIR itself: the table of part_000 maps it to [dir], the
    classifiers, which look for "w_pdir" in text already stripped of its
    underscore, do not. *)
Lemma w_pdir_label_unclassified :
  Strict.wanted "W_PDIR" = Strict.Own dir
  /\ Fetch.classifyParam (Some "W_PDIR") = None
  /\ Shape.classifyLongParam (Some "W_PDIR") = None
  /\ Shape.classifyWideHeader (Some "W_PDIR") = None.
Proof. repeat split. Qed.

(** C2, as stated, fails: "Wave direction" normalizes to "wavedirection",
    which meets none of the six conditions of the rule, and is classified
    [dir] all the same. *)
Lemma dir_rule_as_specified_fails :
  ~ (forall v : option string,
       Fetch.classifyParam v = Some dir <-> Spec.dirRule (Spec.normalized v) = true).
Proof.
  intros H.
  destruct (H (Some "Wave direction")) as [H1 _].
  specialize (H1 eq_refl). vm_compute in H1. discriminate H1.
Qed.

(** C2, amended: on a label whose normalized text does not hold "wpdir",
    [classifyParam] (and [classifyLongParam], the same function) answers
    [dir] exactly when the text meets none of the hm0, tp and tz rules and
    equals "dp" or contains "peakdirection", "mwd", "meandirection" or
    "direction". *)
Theorem classify_dir_exactly (v : option string) :
  includes (Spec.normalized v) "wpdir" = false ->
  (Fetch.classifyParam v = Some dir <->
     Spec.hm0Rule (Spec.normalized v) = false
     /\ Spec.tpRule (Spec.normalized v) = false
     /\ Spec.tzRule (Spec.normalized v) = false
     /\ Spec.dirRuleLoose (Spec.normalized v) = true)
  /\ Shape.classifyLongParam v = Fetch.classifyParam v.
Proof.
  intros _. split; [|reflexivity].
  unfold Fetch.classifyParam, Spec.hm0Rule, Spec.tpRule, Spec.tzRule,
    Spec.dirRuleLoose, Spec.normalized.
  set (t := stripNonAlnum (lc v)).
  pose proof (stripped_no_underscore (lc v)) as Hu. fold t in Hu. rewrite Hu.
  pose proof (meandirection_direction t) as Hm.
  destruct (includes t "hm0" || includes t "hs" || includes t "significantwaveheight");
    [split; [discriminate|intros (A & _); discriminate]|].
  destruct ((t =? "tpeak")%string || (t =? "tp")%string || includes t "peakperiod"
            || (t =? "tpp")%string);
    [split; [discriminate|intros (_ & A & _); discriminate]|].
  destruct ((t =? "tz")%string || (t =? "t02")%string || includes t "zerocross");
    [split; [discriminate|intros (_ & _ & A & _); discriminate]|].
  simpl.
  destruct (t =? "dp")%string, (includes t "peakdirection"), (includes t "mwd"),
    (includes t "meandirection"), (includes t "direction"); simpl;
    try (split; [intros _; repeat split|reflexivity]);
    try (split; [discriminate|intros (_ & _ & _ & A); discriminate]);
    try (specialize (Hm eq_refl); discriminate).
Qed.

Lemma classify_dir_exactly_witness :
  includes (Spec.normalized (Some "Mean wave direction (deg)")) "wpdir" = false
  /\ Fetch.classifyParam (Some "Mean wave direction (deg)") = Some dir.
Proof.
  split; [reflexivity|].
  apply (proj1 (classify_dir_exactly (Some "Mean wave direction (deg)") eq_refl)).
  repeat split.
Defined.

(** C6, as stated, fails: the label "Tpp" is a peak period for the long-form
    classifier and nothing for the wide-header classifier. *)
Lemma long_and_wide_classifiers_differ :
  ~ (forall s : option string, Shape.classifyLongParam s = Shape.classifyWideHeader s).
Proof.
  intros H. specialize (H (Some "Tpp")). vm_compute in H. discriminate H.
Qed.

(** C6, amended: a key given by the wide-header classifier is the key the
    long-form classifier gives; and the two agree on every string whose
    normalized text is not "tpp" and does not contain "direction". *)
Theorem wide_header_key_is_long_key (s : option string) :
  (forall k, Shape.classifyWideHeader s = Some k -> Shape.classifyLongParam s = Some k)
  /\ (Spec.normalized s <> "tpp" ->
      includes (Spec.normalized s) "direction" = false ->
      Shape.classifyLongParam s = Shape.classifyWideHeader s).
Proof.
  unfold Shape.classifyWideHeader, Shape.classifyLongParam, Spec.normalized.
  pose proof (stripped_no_underscore (lc s)) as Hu.
  set (t := stripNonAlnum (lc s)) in *. clearbody t. rewrite Hu.
  pose proof (meandirection_direction t) as Hm.
  pose proof (eqb_includes t "direction") as Hd.
  destruct (includes t "hm0" || includes t "hs" || includes t "significantwaveheight");
    [split; [intros k A; exact A|reflexivity]|].
  destruct ((t =? "tpeak")%string || (t =? "tp")%string || includes t "peakperiod");
    [split; [intros k A; exact A|reflexivity]|].
  destruct (t =? "tpp")%string eqn:Etpp.
  - apply String.eqb_eq in Etpp. subst t. split.
    + intros k A. vm_compute in A. discriminate A.
    + intros A. now contradiction A.
  - simpl.
    destruct ((t =? "tz")%string || (t =? "t02")%string || includes t "zerocross");
      [split; [intros k A; exact A|reflexivity]|].
    simpl.
    destruct (t =? "dp")%string, (includes t "peakdirection"), (includes t "mwd"),
      (t =? "direction")%string, (includes t "meandirection"),
      (includes t "direction"); simpl;
      try (split; [intros k A; exact A|reflexivity]);
      try (specialize (Hm eq_refl); discriminate);
      try (specialize (Hd eq_refl); discriminate);
      try (split; [intros k A; discriminate A|intros _ A; discriminate A]).
Qed.

Lemma wide_header_key_is_long_key_witness :
  Shape.classifyWideHeader (Some "Hm0 (m)") = Some hm0
  /\ Shape.classifyLongParam (Some "Hm0 (m)") = Some hm0
  /\ Spec.normalized (Some "Peak period") <> "tpp"
  /\ includes (Spec.normalized (Some "Peak period")) "direction" = false
  /\ Shape.classifyLongParam (Some "Peak period")
     = Shape.classifyWideHeader (Some "Peak period").
Proof.
  split; [reflexivity|].
  split; [apply (proj1 (wide_header_key_is_long_key (Some "Hm0 (m)"))); reflexivity|].
  assert (N : Spec.normalized (Some "Peak period") <> "tpp") by discriminate.
  split; [exact N|]. split; [reflexivity|].
  apply (proj2 (wide_header_key_is_long_key (Some "Peak period")) N eq_refl).
Defined.

(* ================================================================== *)
(** ** The Shape Detector *)
(* ================================================================== *)

Lemma Key_eqb_eq (a b : Key) : Key_eqb a b = true <-> a = b.
Proof. destruct a, b; simpl; split; congruence. Qed.

Lemma Key_eqb_refl (a : Key) : Key_eqb a a = true.
Proof. now destruct a. Qed.











(* ================================================================== *)
(** ** The Time-Series Reducer: the map and the sort *)
(* ================================================================== *)

Lemma has_false_not_in (m : TsMap) (t : string) :
  has m t = false -> ~ In t (map fst m).
Proof.
  induction m as [|[k e] m IH]; simpl; [tauto|].
  intros H. apply orb_false_iff in H as [Hk Hm].
  intros [A|A]; [|now apply IH].
  subst. rewrite String.eqb_refl in Hk. discriminate.
Qed.

Lemma assign_keys (m : TsMap) (t : string) (k : Key) (v : num) :
  map fst (assign m t k v) = map fst m.
Proof.
  induction m as [|[k0 e] m IH]; simpl; [reflexivity|].
  destruct (String.eqb k0 t); simpl; [reflexivity|now rewrite IH].
Qed.

Lemma assign_ts (m : TsMap) (t : string) (k : Key) (v : num) :
  Forall (fun p => ts (snd p) = fst p) m ->
  Forall (fun p => ts (snd p) = fst p) (assign m t k v).
Proof.
  induction 1 as [|[k0 e] m Hx Hm IH]; simpl; [constructor|].
  destruct (String.eqb k0 t); constructor; auto.
Qed.

Lemma record_keyed (m : TsMap) (t : string) (k : Key) (v : num) :
  keyed m -> keyed (record m t k v).
Proof.
  intros [Hn Hf]. unfold record, keyed. rewrite assign_keys.
  destruct (has m t) eqn:E.
  - split; [exact Hn|now apply assign_ts].
  - split.
    + rewrite map_app. simpl. apply NoDup_app; [exact Hn|repeat constructor; intros []|].
      intros x Hx [A|[]]. subst x. now apply (has_false_not_in m t).
    + apply assign_ts, Forall_app. split; [exact Hf|]. now repeat constructor.
Qed.

Section Loop.

(** A loop whose every turn either leaves the map alone or records one
    value. *)
Context {R : Type}.
Variable turn : TsMap -> R -> TsMap.
Hypothesis turn_cases :
  forall m r, turn m r = m \/ exists t k v, turn m r = record m t k v.

Lemma fold_keyed (rows : list R) (m : TsMap) :
  keyed m -> keyed (fold_left turn rows m).
Proof.
  revert m. induction rows as [|r rows IH]; intros m Hm; simpl; [exact Hm|].
  apply IH. destruct (turn_cases m r) as [->|(t & k & v & ->)]; [exact Hm|].
  now apply record_keyed.
Qed.

End Loop.

Lemma keyed_values_unique (m : TsMap) : keyed m -> NoDup (map ts (values m)).
Proof.
  intros [Hn Hf]. unfold values. rewrite map_map.
  replace (map (fun p => ts (snd p)) m) with (map fst m); [exact Hn|].
  induction Hf as [|p m Hp _ IH]; simpl; [reflexivity|].
  inversion Hn; subst. now rewrite Hp, IH.
Qed.

Lemma insertBy_perm (le : Entry -> Entry -> bool) (x : Entry) (l : list Entry) :
  Permutation (insertBy le x l) (x :: l).
Proof.
  induction l as [|y l IH]; simpl; [reflexivity|].
  destruct (le x y); [reflexivity|].
  rewrite IH. apply perm_swap.
Qed.

Lemma sortBy_perm (le : Entry -> Entry -> bool) (l : list Entry) :
  Permutation (sortBy le l) l.
Proof.
  induction l as [|x l IH]; simpl; [reflexivity|].
  rewrite insertBy_perm. now constructor.
Qed.

Lemma localeCompare_refl (s : string) : localeCompare s s = Eq.
Proof.
  induction s as [|a s IH]; simpl; [reflexivity|].
  now rewrite N.compare_refl.
Qed.

Lemma localeCompare_antisym (a b : string) :
  localeCompare b a = CompOpp (localeCompare a b).
Proof.
  revert b. induction a as [|x a IH]; intros [|y b]; simpl; try reflexivity.
  rewrite (N.compare_antisym (collationRank x) (collationRank y)).
  destruct (collationRank x ?= collationRank y)%N; simpl; [apply IH|reflexivity|reflexivity].
Qed.

Lemma localeLeb_refl (s : string) : localeLeb s s = true.
Proof. unfold localeLeb. now rewrite localeCompare_refl. Qed.

Lemma localeLeb_total (a b : string) : localeLeb a b = false -> localeLeb b a = true.
Proof.
  unfold localeLeb. rewrite (localeCompare_antisym a b).
  destruct (localeCompare a b); simpl; congruence.
Qed.

Lemma localeLeb_trans (a b c : string) :
  localeLeb a b = true -> localeLeb b c = true -> localeLeb a c = true.
Proof.
  unfold localeLeb. revert b c.
  induction a as [|x a IH]; intros [|y b] [|z c]; simpl; try (intros; congruence).
  destruct (N.compare_spec (collationRank x) (collationRank y)),
           (N.compare_spec (collationRank y) (collationRank z)),
           (N.compare_spec (collationRank x) (collationRank z));
    try lia; try (intros; congruence).
  apply IH.
Qed.

Lemma tsLeb_total (a b : Entry) : tsLeb a b = false -> tsLeb b a = true.
Proof. unfold tsLeb. apply localeLeb_total. Qed.

Lemma insertBy_sorted (x : Entry) (l : list Entry) :
  Sorted tsLe l -> Sorted tsLe (insertBy tsLeb x l).
Proof.
  induction 1 as [|y l Hs IH Hh]; simpl.
  - repeat constructor.
  - destruct (tsLeb x y) eqn:E.
    + constructor; [now constructor|now constructor].
    + constructor; [exact IH|].
      destruct l as [|z l]; simpl.
      * constructor. now apply tsLeb_total.
      * destruct (tsLeb x z).
        -- constructor. now apply tsLeb_total.
        -- inversion Hh; subst. now constructor.
Qed.

Lemma sortByTs_sorted (l : list Entry) : Sorted tsLe (sortByTs l).
Proof.
  induction l as [|x l IH]; simpl; [constructor|].
  now apply insertBy_sorted.
Qed.

Lemma sortByTs_unique (l : list Entry) :
  NoDup (map ts l) -> NoDup (map ts (sortByTs l)).
Proof.
  intros H. eapply Permutation_NoDup; [|exact H].
  apply Permutation_map, Permutation_sym, sortBy_perm.
Qed.

Lemma fetch_step_cases (h : Host) (env : Env) (c : Fetch.Columns) (m : TsMap) (r : Row) :
  Fetch.step h env c m r = m \/ exists t k v, Fetch.step h env c m r = record m t k v.
Proof.
  unfold Fetch.step.
  destruct (negb (Fetch.isCardigan env c r)); [now left|].
  destruct (Fetch.toISO h _) as [t|]; [|now left].
  destruct (Fetch.classifyParam _) as [k|]; [|now left].
  destruct (readValue _) as [v|]; [|now left].
  right. now exists t, k, v.
Qed.

Lemma shape_longStep_cases (h : Host) (env : Env) (fc : list string)
  (tc vc pc : option string) (m : TsMap) (r : Row) :
  Shape.longStep h env fc tc vc pc m r = m
  \/ exists t k v, Shape.longStep h env fc tc vc pc m r = record m t k v.
Proof.
  unfold Shape.longStep.
  destruct (negb (Shape.looksLikeCardigan env _)); [now left|].
  destruct (Shape.toISO h _) as [t|]; [|now left].
  destruct (Shape.classifyLongParam _) as [k|]; [|now left].
  destruct (readValue _) as [v|]; [|now left].
  right. now exists t, k, v.
Qed.

Lemma keyed_nil : keyed [].
Proof. split; constructor. Qed.

(** The long-shape loops: the series is sorted and holds each timestamp
    once. *)
Lemma fetch_series_sorted_unique (h : Host) (env : Env) (rows : list Row) :
  Sorted tsLe (Fetch.series h env rows) /\ NoDup (map ts (Fetch.series h env rows)).
Proof.
  split; [apply sortByTs_sorted|].
  apply sortByTs_unique, keyed_values_unique, fold_keyed; [|exact keyed_nil].
  apply fetch_step_cases.
Qed.

Lemma shape_long_series_sorted_unique (h : Host) (env : Env) (rows : list Row) :
  Shape.isWide (headersOf rows) = false ->
  Sorted tsLe (Shape.series h env rows) /\ NoDup (map ts (Shape.series h env rows)).
Proof.
  intros Hw. unfold Shape.series. rewrite Hw.
  split; [apply sortByTs_sorted|].
  apply sortByTs_unique. unfold Shape.longSeries.
  destruct (Shape.longCols (headersOf rows)) as [vc pc].
  apply sortByTs_unique, keyed_values_unique, fold_keyed; [|exact keyed_nil].
  apply shape_longStep_cases.
Qed.

Lemma shape_series_sorted (h : Host) (env : Env) (rows : list Row) :
  Sorted tsLe (Shape.series h env rows).
Proof. apply sortByTs_sorted. Qed.

(** C4 fails on the wide branch of part_001: every selected row is pushed
    as a record of its own, so an instant reported by two rows appears twice
    in the series.  The series is sorted all the same. *)
Theorem wide_series_repeats_timestamp :
  Shape.isWide (headersOf Example.wideRowsRepeated) = true
  /\ map ts (Shape.series Example.utcHost Example.extEnv Example.wideRowsRepeated)
     = ["2024-06-01T12:00:00.000Z"; "2024-06-01T12:00:00.000Z"]
  /\ ~ NoDup (map ts (Shape.series Example.utcHost Example.extEnv
                        Example.wideRowsRepeated)).
Proof.
  assert (E : map ts (Shape.series Example.utcHost Example.extEnv
                        Example.wideRowsRepeated)
              = ["2024-06-01T12:00:00.000Z"; "2024-06-01T12:00:00.000Z"])
    by (vm_compute; reflexivity).
  split; [vm_compute; reflexivity|]. split; [exact E|].
  rewrite E. intros H. inversion H as [|? ? Hn _]; subst.
  apply Hn. now left.
Qed.

(* ================================================================== *)
(** ** The long-shape scenario *)
(* ================================================================== *)

(** C1, as stated, fails on fetch_cefas.mjs: its row selector reads the
    instrument-id and deployment columns only, the headers Time, Parameter,
    Value, Station resolve neither, and no row is selected. *)
Lemma long_scenario_station_column_selects_nothing :
  Fetch.instCol (Fetch.columns (headersOf Example.longRows)) = None
  /\ Fetch.deployCol (Fetch.columns (headersOf Example.longRows)) = None
  /\ Fetch.series Example.utcHost Example.extEnv Example.longRows = []
  /\ Fetch.series Example.utcHost Example.extEnv Example.longRows
     <> [Example.longRecord].
Proof.
  assert (E : Fetch.series Example.utcHost Example.extEnv Example.longRows = [])
    by (vm_compute; reflexivity).
  repeat split; try (vm_compute; reflexivity).
  rewrite E. discriminate.
Qed.

(** C1, amended: with the station token in a Deployment column the two rows
    yield exactly one record, stamped 2024-06-01T12:00:00.000Z (day first,
    UTC), with hm0 = 1.5 and tp = 6.2 and no other field; it is also the
    latest record.  This holds on every host. *)
Theorem long_scenario_deployment_column (h : Host) :
  Fetch.series h Example.extEnv Example.longRowsDeployment = [Example.longRecord]
  /\ seriesOf (Fetch.main h Example.extEnv (Parsed Example.longRowsDeployment))
     = Some [Example.longRecord]
  /\ latestOf (Fetch.main h Example.extEnv (Parsed Example.longRowsDeployment))
     = Some (Some Example.longRecord)
  /\ ts Example.longRecord = "2024-06-01T12:00:00.000Z"
  /\ map fst (fields Example.longRecord) = [hm0; tp]
  /\ (exists v, getKey (fields Example.longRecord) hm0 = Some v /\ (toQ v == 3 # 2)%Q)
  /\ (exists v, getKey (fields Example.longRecord) tp = Some v /\ (toQ v == 31 # 5)%Q).
Proof.
  assert (E : Fetch.series h Example.extEnv Example.longRowsDeployment
              = [Example.longRecord]) by (vm_compute; reflexivity).
  split; [exact E|].
  split; [unfold seriesOf, Fetch.main; simpl; now rewrite E|].
  split; [unfold latestOf, Fetch.main; simpl; now rewrite E|].
  split; [reflexivity|]. split; [reflexivity|].
  split; eexists; (split; [reflexivity|reflexivity]).
Qed.

(** What the other generations make of the scenario as worded.  The ones
    that read a Station column leave the date to the engine ([new Date] on
    01/06/2024 12:00, whose reading the language does not fix), and the
    [wanted] table of part_000 has no entry for Tp. *)
Lemma record_first (t : string) (k : Key) (v : num) :
  record [] t k v = [(t, mkEntry t [(k, v)])].
Proof. unfold record. simpl. now rewrite String.eqb_refl. Qed.

Lemma record_again (t : string) (e : Entry) (k : Key) (v : num) :
  record [(t, e)] t k v = [(t, mkEntry (ts e) (setKey (fields e) k v))].
Proof.
  unfold record. simpl. rewrite String.eqb_refl. simpl.
  now rewrite String.eqb_refl.
Qed.

Lemma needles_long_scenario (h : Host) :
  Needles.series h Example.extEnv Example.longRows
  = match Needles.toISO h (Some "01/06/2024 12:00") with
    | Some t => [mkEntry t [(hm0, Fin false 15 (-1)); (tp, Fin false 62 (-1))]]
    | None => []
    end.
Proof.
  unfold Needles.series.
  replace (Needles.columns (headersOf Example.longRows))
    with (Needles.mkColumns (Some "Time") (Some "Value") ["Parameter"] ["Station"] [] [])
    by (vm_compute; reflexivity).
  replace (filter _ Example.longRows) with Example.longRows by (vm_compute; reflexivity).
  unfold Example.longRows, fold_left, Needles.step.
  cbn [Needles.timeCol Needles.valueCol Needles.paramCols].
  change (cell _ (Some "Time")) with (Some "01/06/2024 12:00").
  destruct (Needles.toISO h (Some "01/06/2024 12:00")) as [t|]; [|reflexivity].
  cbn -[record]. rewrite record_first, record_again. reflexivity.
Qed.

Lemma shape_long_scenario (h : Host) :
  Shape.series h Example.extEnv Example.longRows
  = match Shape.toISO h (Some "01/06/2024 12:00") with
    | Some t => [mkEntry t [(hm0, Fin false 15 (-1)); (tp, Fin false 62 (-1))]]
    | None => []
    end.
Proof.
  unfold Shape.series.
  replace (Shape.isWide (headersOf Example.longRows)) with false
    by (vm_compute; reflexivity).
  unfold Shape.longSeries.
  replace (Shape.longCols (headersOf Example.longRows))
    with (Some "Value", Some "Parameter") by (vm_compute; reflexivity).
  replace (Shape.filterCols (headersOf Example.longRows)) with ["Station"]
    by (vm_compute; reflexivity).
  replace (Shape.findTimeCol (headersOf Example.longRows)) with (Some "Time")
    by (vm_compute; reflexivity).
  unfold Example.longRows, fold_left, Shape.longStep.
  change (cell _ (Some "Time")) with (Some "01/06/2024 12:00").
  replace (Shape.looksLikeCardigan Example.extEnv _) with true
    by (vm_compute; reflexivity).
  cbn [negb].
  destruct (Shape.toISO h (Some "01/06/2024 12:00")) as [t|]; [|reflexivity].
  cbn -[record]. rewrite record_first, record_again. reflexivity.
Qed.

Lemma strict_long_scenario (h : Host) :
  Strict.series h Example.extEnv Example.longRows
  = match Strict.toISO h (Some "01/06/2024 12:00") with
    | Some t => [mkEntry t [(hm0, Fin false 15 (-1))]]
    | None => []
    end.
Proof.
  unfold Strict.series.
  replace (Strict.columns (headersOf Example.longRows))
    with (Strict.mkColumns (Some "Time") (Some "Station") None (Some "Parameter")
            (Some "Value"))
    by (vm_compute; reflexivity).
  replace (filter _ Example.longRows) with Example.longRows by (vm_compute; reflexivity).
  unfold Example.longRows, fold_left, Strict.step.
  cbn [Strict.timeCol Strict.valueCol Strict.paramCol].
  change (cell _ (Some "Time")) with (Some "01/06/2024 12:00").
  destruct (Strict.toISO h (Some "01/06/2024 12:00")) as [t|]; [|reflexivity].
  cbn -[record]. rewrite record_first. reflexivity.
Qed.

(* ================================================================== *)
(** ** Timestamp normalization *)
(* ================================================================== *)

Lemma leapYear_isLeap (y : Z) : Spec.leapYear y = isLeap y.
Proof.
  unfold Spec.leapYear, isLeap.
  destruct (Z.eqb_spec (y mod 4) 0), (Z.eqb_spec (y mod 100) 0),
           (Z.eqb_spec (y mod 400) 0); try reflexivity; exfalso;
    Z.div_mod_to_equations; lia.
Qed.

Lemma dayFromYear_succ (y : Z) :
  dayFromYear (y + 1) = dayFromYear y + Spec.yearLength y.
Proof.
  unfold dayFromYear, Spec.yearLength, Spec.leapYear.
  destruct (Z.eqb_spec (y mod 4) 0), (Z.eqb_spec (y mod 100) 0),
           (Z.eqb_spec (y mod 400) 0); cbn [andb orb negb];
    Z.div_mod_to_equations; lia.
Qed.

Lemma daysInYears_dayFromYear (n : nat) :
  Spec.daysInYears n = dayFromYear (Z.of_nat n) + 719528.
Proof.
  induction n as [|n IH]; [reflexivity|].
  cbn [Spec.daysInYears]. rewrite IH, Nat2Z.inj_succ, <- Z.add_1_r, dayFromYear_succ.
  lia.
Qed.

Lemma epoch_days : Spec.daysInYears 1970 = 719528.
Proof. rewrite daysInYears_dayFromYear. reflexivity. Qed.

Lemma daysInMonths_daysBeforeMonth (y m : Z) :
  0 <= m <= 11 ->
  Spec.daysInMonths y (Z.to_nat m) = daysBeforeMonth (isLeap y) m.
Proof.
  intros H. rewrite <- leapYear_isLeap.
  assert (C : m = 0 \/ m = 1 \/ m = 2 \/ m = 3 \/ m = 4 \/ m = 5 \/ m = 6
              \/ m = 7 \/ m = 8 \/ m = 9 \/ m = 10 \/ m = 11) by lia.
  assert (G : forall n : nat,
            Spec.daysInMonths y (S n)
            = Spec.daysInMonths y n + Spec.monthLength y (Z.of_nat (S n)))
    by reflexivity.
  destruct (Spec.leapYear y) eqn:E;
    repeat (destruct C as [->|C];
            [vm_compute Z.to_nat; rewrite ?G; unfold Spec.monthLength;
             vm_compute Z.of_nat; rewrite ?E; reflexivity|]);
    subst; vm_compute Z.to_nat; rewrite ?G; unfold Spec.monthLength;
    vm_compute Z.of_nat; rewrite ?E; reflexivity.
Qed.

Lemma instant_dateUTC (y m d hh mi ss : Z) :
  0 <= y -> 0 <= m ->
  Spec.instant (Spec.lastCentury (Spec.mkStamp y m d hh mi ss))
  = dateUTC y (m - 1) d hh mi ss.
Proof.
  intros Hy Hm. unfold dateUTC, Spec.lastCentury. cbn [Spec.year Spec.month Spec.day Spec.hour Spec.minute Spec.second].
  replace ((0 <=? y) && (y <=? 99)) with (y <=? 99)
    by (destruct (Z.leb_spec 0 y); [reflexivity|lia]).
  set (yr := if y <=? 99 then 1900 + y else y).
  assert (Hyr : 100 <= yr) by (unfold yr; destruct (Z.leb_spec y 99); lia).
  assert (E : Spec.instant (if y <=? 99
                            then Spec.mkStamp (1900 + y) m d hh mi ss
                            else Spec.mkStamp y m d hh mi ss)
              = Spec.instant (Spec.mkStamp yr m d hh mi ss)).
  { unfold yr. destruct (y <=? 99); reflexivity. }
  rewrite E. clearbody yr. clear E.
  unfold Spec.instant, makeDay, makeTime, msPerDay.
  cbn [Spec.year Spec.month Spec.day Spec.hour Spec.minute Spec.second].
  rewrite epoch_days.
  assert (Q : (12 * yr + (m - 1)) / 12 = yr + (m - 1) / 12).
  { rewrite (Z.mul_comm 12 yr), Z.add_comm, Z.div_add by lia. lia. }
  assert (R : (12 * yr + (m - 1)) mod 12 = (m - 1) mod 12).
  { rewrite (Z.mul_comm 12 yr), Z.add_comm, Z.mod_add by lia. reflexivity. }
  rewrite Q, R.
  assert (Hym : 0 <= yr + (m - 1) / 12) by (Z.div_mod_to_equations; lia).
  rewrite daysInYears_dayFromYear, Z2Nat.id by exact Hym.
  rewrite daysInMonths_daysBeforeMonth
    by (pose proof (Z.mod_pos_bound (m - 1) 12 eq_refl); lia).
  ring.
Qed.

Lemma digit_not_separator (c : ascii) :
  isDigit c = true ->
  Spec.isSpaceOrT c = false /\ Spec.isSpace c = false
  /\ Ascii.eqb "/" c = false /\ Ascii.eqb "-" c = false
  /\ Ascii.eqb ":" c = false /\ Ascii.eqb "T" c = false.
Proof. bits c; vm_compute; intros; repeat split; congruence. Qed.

Lemma cut_cons (p : ascii -> bool) (c : ascii) (r : string) :
  Spec.cut p (String c r)
  = if p c then ("", Some r)
    else (String c (fst (Spec.cut p r)), snd (Spec.cut p r)).
Proof.
  cbn [Spec.cut]. destruct (p c); [reflexivity|]. now destruct (Spec.cut p r).
Qed.

Lemma cut_spec (p : ascii -> bool) (s a : string) (o : option string) :
  Spec.cut p s = (a, o) ->
  match o with
  | None => s = a
  | Some r => exists c, p c = true /\ s = a ++ String c r
  end.
Proof.
  revert a o. induction s as [|x s IH]; intros a o H.
  - inversion H. reflexivity.
  - rewrite cut_cons in H. destruct (p x) eqn:E.
    + inversion H; subst. exists x. split; [exact E|reflexivity].
    + destruct (Spec.cut p s) as [a' o'] eqn:Ec. cbn [fst snd] in H.
      inversion H; subst. specialize (IH _ _ eq_refl).
      destruct o as [r|]; [|now subst].
      destruct IH as (c & Hc & ->). exists c. split; [exact Hc|reflexivity].
Qed.

Lemma some_eq {A : Type} (x y : A) : Some x = Some y -> x = y.
Proof. congruence. Qed.

Lemma numeral2_inv (s : string) (z : Z) :
  Spec.numeral 2 s = Some z ->
  exists a b, s = String a (String b "")
              /\ isDigit a = true /\ isDigit b = true /\ z = two a b.
Proof.
  destruct s as [|a [|b [|c r]]]; unfold Spec.numeral;
    cbn [String.length Nat.eqb sforall andb Spec.decimalFrom]; try discriminate.
  destruct (isDigit a) eqn:Ha; [|discriminate].
  destruct (isDigit b) eqn:Hb; [|discriminate].
  cbn [andb]. intros H. apply some_eq in H. subst z.
  exists a, b. repeat split; try assumption. unfold two. lia.
Qed.

Lemma numeral4_inv (s : string) (z : Z) :
  Spec.numeral 4 s = Some z ->
  exists a b c d, s = String a (String b (String c (String d "")))
                  /\ isDigit a = true /\ isDigit b = true
                  /\ isDigit c = true /\ isDigit d = true /\ z = four a b c d.
Proof.
  destruct s as [|a [|b [|c [|d [|e r]]]]]; unfold Spec.numeral;
    cbn [String.length Nat.eqb sforall andb Spec.decimalFrom]; try discriminate.
  destruct (isDigit a) eqn:Ha; [|discriminate].
  destruct (isDigit b) eqn:Hb; [|discriminate].
  destruct (isDigit c) eqn:Hc; [|discriminate].
  destruct (isDigit d) eqn:Hd; [|discriminate].
  cbn [andb]. intros H. apply some_eq in H. subst z.
  exists a, b, c, d. repeat split; try assumption. unfold four. lia.
Qed.

Lemma numeral2_text (a b : ascii) :
  isDigit a = true -> isDigit b = true ->
  Spec.numeral 2 (String a (String b "")) = Some (two a b).
Proof.
  intros Ha Hb. unfold Spec.numeral.
  cbn [String.length Nat.eqb sforall andb Spec.decimalFrom]. rewrite Ha, Hb.
  cbn [andb]. f_equal. unfold two. lia.
Qed.

Lemma numeral4_text (a b c d : ascii) :
  isDigit a = true -> isDigit b = true -> isDigit c = true -> isDigit d = true ->
  Spec.numeral 4 (String a (String b (String c (String d "")))) = Some (four a b c d).
Proof.
  intros Ha Hb Hc Hd. unfold Spec.numeral.
  cbn [String.length Nat.eqb sforall andb Spec.decimalFrom]. rewrite Ha, Hb, Hc, Hd.
  cbn [andb]. f_equal. unfold four. lia.
Qed.

Lemma triple_inv (sep : ascii) (w1 w2 w3 : nat) (s : string) (x y z : Z) :
  Spec.triple sep w1 w2 w3 s = Some (x, y, z) ->
  exists a b c,
    s = a ++ String sep (b ++ String sep c)
    /\ Spec.numeral w1 a = Some x /\ Spec.numeral w2 b = Some y
    /\ Spec.numeral w3 c = Some z.
Proof.
  unfold Spec.triple.
  destruct (Spec.cut (Ascii.eqb sep) s) as [a [r|]] eqn:E1; [|discriminate].
  destruct (Spec.cut (Ascii.eqb sep) r) as [b [c|]] eqn:E2; [|discriminate].
  destruct (Spec.numeral w1 a) as [x'|] eqn:Ha; [|discriminate].
  destruct (Spec.numeral w2 b) as [y'|] eqn:Hb; [|discriminate].
  destruct (Spec.numeral w3 c) as [z'|] eqn:Hc; [|discriminate].
  intros H. apply some_eq in H. inversion H; subst.
  apply cut_spec in E1 as (c1 & H1 & ->). apply cut_spec in E2 as (c2 & H2 & ->).
  apply Ascii.eqb_eq in H1, H2. subst.
  exists a, b, c. repeat split; assumption.
Qed.

Ltac digit_facts :=
  repeat match goal with
         | H : isDigit ?c = true |- _ =>
             let F := fresh "F" in
             pose proof (digit_not_separator c H) as F; revert H;
             destruct F as (? & ? & ? & ? & ? & ?)
         end; intros.

Ltac walk :=
  repeat (rewrite cut_cons;
          repeat match goal with
                 | H : ?x = false |- context [?x] => rewrite H
                 end;
          cbn [Ascii.eqb Bool.eqb fst snd Spec.isSpaceOrT Spec.isSpace orb]).

Lemma dayFirst_inv (s : string) (y m d : Z) :
  Spec.dayFirst s = Some (y, m, d) ->
  exists d1 d2 m1 m2 y1 y2 y3 y4,
    s = String d1 (String d2 (String "/" (String m1 (String m2 (String "/"
          (String y1 (String y2 (String y3 (String y4 "")))))))))
    /\ isDigit d1 = true /\ isDigit d2 = true /\ isDigit m1 = true
    /\ isDigit m2 = true /\ isDigit y1 = true /\ isDigit y2 = true
    /\ isDigit y3 = true /\ isDigit y4 = true
    /\ y = four y1 y2 y3 y4 /\ m = two m1 m2 /\ d = two d1 d2.
Proof.
  unfold Spec.dayFirst.
  destruct (Spec.triple "/" 2 2 4 s) as [[[d' m'] y']|] eqn:E; [|discriminate].
  intros H. inversion H; subst.
  apply triple_inv in E as (a & b & c & -> & Ha & Hb & Hc).
  apply numeral2_inv in Ha as (d1 & d2 & -> & ? & ? & ->).
  apply numeral2_inv in Hb as (m1 & m2 & -> & ? & ? & ->).
  apply numeral4_inv in Hc as (y1 & y2 & y3 & y4 & -> & ? & ? & ? & ? & ->).
  exists d1, d2, m1, m2, y1, y2, y3, y4. repeat split; assumption.
Qed.

Lemma yearFirst_inv (s : string) (y m d : Z) :
  Spec.yearFirst s = Some (y, m, d) ->
  exists y1 y2 y3 y4 m1 m2 d1 d2,
    s = String y1 (String y2 (String y3 (String y4 (String "-" (String m1
          (String m2 (String "-" (String d1 (String d2 "")))))))))
    /\ isDigit d1 = true /\ isDigit d2 = true /\ isDigit m1 = true
    /\ isDigit m2 = true /\ isDigit y1 = true /\ isDigit y2 = true
    /\ isDigit y3 = true /\ isDigit y4 = true
    /\ y = four y1 y2 y3 y4 /\ m = two m1 m2 /\ d = two d1 d2.
Proof.
  unfold Spec.yearFirst. intros E.
  apply triple_inv in E as (a & b & c & -> & Ha & Hb & Hc).
  apply numeral4_inv in Ha as (y1 & y2 & y3 & y4 & -> & ? & ? & ? & ? & ->).
  apply numeral2_inv in Hb as (m1 & m2 & -> & ? & ? & ->).
  apply numeral2_inv in Hc as (d1 & d2 & -> & ? & ? & ->).
  exists y1, y2, y3, y4, m1, m2, d1, d2. repeat split; assumption.
Qed.

Lemma dayFirst_text (d1 d2 m1 m2 y1 y2 y3 y4 : ascii) :
  isDigit d1 = true -> isDigit d2 = true -> isDigit m1 = true ->
  isDigit m2 = true -> isDigit y1 = true -> isDigit y2 = true ->
  isDigit y3 = true -> isDigit y4 = true ->
  Spec.dayFirst (String d1 (String d2 (String "/" (String m1 (String m2 (String "/"
          (String y1 (String y2 (String y3 (String y4 ""))))))))))
  = Some (four y1 y2 y3 y4, two m1 m2, two d1 d2).
Proof.
  intros. unfold Spec.dayFirst, Spec.triple. digit_facts. walk.
  cbn [Spec.cut fst snd].
  rewrite !numeral2_text, numeral4_text by assumption. reflexivity.
Qed.

Lemma yearFirst_text (y1 y2 y3 y4 m1 m2 d1 d2 : ascii) :
  isDigit d1 = true -> isDigit d2 = true -> isDigit m1 = true ->
  isDigit m2 = true -> isDigit y1 = true -> isDigit y2 = true ->
  isDigit y3 = true -> isDigit y4 = true ->
  Spec.yearFirst (String y1 (String y2 (String y3 (String y4 (String "-" (String m1
          (String m2 (String "-" (String d1 (String d2 ""))))))))))
  = Some (four y1 y2 y3 y4, two m1 m2, two d1 d2).
Proof.
  intros. unfold Spec.yearFirst, Spec.triple. digit_facts. walk.
  cbn [Spec.cut fst snd].
  rewrite !numeral2_text, numeral4_text by assumption. reflexivity.
Qed.

Lemma clock_inv (s : string) (hh mi ss : Z) :
  Spec.clock s = Some (hh, mi, ss) ->
  exists h1 h2 m1 m2,
    isDigit h1 = true /\ isDigit h2 = true /\ isDigit m1 = true /\ isDigit m2 = true
    /\ hh = two h1 h2 /\ mi = two m1 m2
    /\ ((s = String h1 (String h2 (String ":" (String m1 (String m2 "")))) /\ ss = 0)
        \/ exists s1 s2,
             isDigit s1 = true /\ isDigit s2 = true /\ ss = two s1 s2
             /\ s = String h1 (String h2 (String ":" (String m1 (String m2
                      (String ":" (String s1 (String s2 "")))))))).
Proof.
  unfold Spec.clock.
  destruct (Spec.cut (Ascii.eqb ":") s) as [a [r|]] eqn:E1; [|discriminate].
  apply cut_spec in E1 as (c1 & H1 & ->). apply Ascii.eqb_eq in H1. subst c1.
  destruct (Spec.cut (Ascii.eqb ":") r) as [b [c|]] eqn:E2.
  - apply cut_spec in E2 as (c2 & H2 & ->). apply Ascii.eqb_eq in H2. subst c2.
    destruct (Spec.numeral 2 a) as [x|] eqn:Ha; [|discriminate].
    destruct (Spec.numeral 2 b) as [y|] eqn:Hb; [|discriminate].
    destruct (Spec.numeral 2 c) as [z|] eqn:Hc; [|discriminate].
    intros H. inversion H; subst.
    apply numeral2_inv in Ha as (h1 & h2 & -> & ? & ? & ->).
    apply numeral2_inv in Hb as (m1 & m2 & -> & ? & ? & ->).
    apply numeral2_inv in Hc as (s1 & s2 & -> & ? & ? & ->).
    exists h1, h2, m1, m2. repeat split; try assumption.
    right. exists s1, s2. repeat split; assumption.
  - apply cut_spec in E2. subst r.
    destruct (Spec.numeral 2 a) as [x|] eqn:Ha; [|discriminate].
    destruct (Spec.numeral 2 b) as [y|] eqn:Hb; [|discriminate].
    intros H. inversion H; subst.
    apply numeral2_inv in Ha as (h1 & h2 & -> & ? & ? & ->).
    apply numeral2_inv in Hb as (m1 & m2 & -> & ? & ? & ->).
    exists h1, h2, m1, m2. repeat split; try assumption.
    left. split; reflexivity.
Qed.

Lemma clock_text_short (h1 h2 m1 m2 : ascii) :
  isDigit h1 = true -> isDigit h2 = true -> isDigit m1 = true -> isDigit m2 = true ->
  Spec.clock (String h1 (String h2 (String ":" (String m1 (String m2 "")))))
  = Some (two h1 h2, two m1 m2, 0).
Proof.
  intros. unfold Spec.clock. digit_facts. walk. cbn [Spec.cut fst snd].
  rewrite !numeral2_text by assumption. reflexivity.
Qed.

Lemma clock_text_long (h1 h2 m1 m2 s1 s2 : ascii) :
  isDigit h1 = true -> isDigit h2 = true -> isDigit m1 = true -> isDigit m2 = true ->
  isDigit s1 = true -> isDigit s2 = true ->
  Spec.clock (String h1 (String h2 (String ":" (String m1 (String m2
               (String ":" (String s1 (String s2 ""))))))))
  = Some (two h1 h2, two m1 m2, two s1 s2).
Proof.
  intros. unfold Spec.clock. digit_facts. walk. cbn [Spec.cut fst snd].
  rewrite !numeral2_text by assumption. reflexivity.
Qed.

(** The tail of the code's patterns and the clock of the specification. *)
Lemma matchClock_clock (rest : string) :
  matchClock rest
  = match rest with
    | EmptyString => Some (0, 0, 0)
    | String sep t => if Spec.isSpaceOrT sep then Spec.clock t else None
    end.
Proof.
  destruct rest as [|sep t]; [reflexivity|].
  destruct (matchClock (String sep t)) as [[[hh mi] ss]|] eqn:E.
  - destruct t as [|h1 [|h2 [|c [|m1 [|m2 rest]]]]];
      try (bits c); cbn in E; try discriminate.
    fold (Spec.isSpaceOrT sep) in E.
    destruct (Spec.isSpaceOrT sep); [|discriminate]. cbn [andb] in E.
    destruct (isDigit h1) eqn:H1; [|discriminate].
    destruct (isDigit h2) eqn:H2; [|discriminate].
    destruct (isDigit m1) eqn:H3; [|discriminate].
    destruct (isDigit m2) eqn:H4; [|discriminate]. cbn [andb] in E.
    destruct rest as [|c' [|s1 [|s2 [|x rest]]]]; try (bits c'); cbn in E;
      try discriminate.
    + inversion E; subst. symmetry. now apply clock_text_short.
    + destruct (isDigit s1) eqn:H5; [|discriminate].
      destruct (isDigit s2) eqn:H6; [|discriminate]. cbn [andb] in E.
      inversion E; subst. symmetry. now apply clock_text_long.
  - destruct (Spec.isSpaceOrT sep) eqn:Es; [|reflexivity].
    destruct (Spec.clock t) as [[[hh mi] ss]|] eqn:Ec; [|reflexivity].
    exfalso. apply clock_inv in Ec
      as (h1 & h2 & m1 & m2 & H1 & H2 & H3 & H4 & -> & -> & [[-> ->]|(s1 & s2 & H5 & H6 & -> & ->)]).
    + cbn in E. fold (Spec.isSpaceOrT sep) in E.
      rewrite Es, H1, H2, H3, H4 in E. discriminate.
    + cbn in E. fold (Spec.isSpaceOrT sep) in E.
      rewrite Es, H1, H2, H3, H4, H5, H6 in E. discriminate.
Qed.

Lemma matchDMY_text (d1 d2 m1 m2 y1 y2 y3 y4 : ascii) (rest : string) :
  isDigit d1 = true -> isDigit d2 = true -> isDigit m1 = true ->
  isDigit m2 = true -> isDigit y1 = true -> isDigit y2 = true ->
  isDigit y3 = true -> isDigit y4 = true ->
  matchDMY (String d1 (String d2 (String "/" (String m1 (String m2 (String "/"
             (String y1 (String y2 (String y3 (String y4 rest))))))))))
  = match matchClock rest with
    | Some (hh, mi, ss) =>
        Some (dateUTC (four y1 y2 y3 y4) (two m1 m2 - 1) (two d1 d2) hh mi ss)
    | None => None
    end.
Proof.
  intros H1 H2 H3 H4 H5 H6 H7 H8. cbn [matchDMY].
  now rewrite H1, H2, H3, H4, H5, H6, H7, H8.
Qed.

Lemma matchYMD_text (y1 y2 y3 y4 m1 m2 d1 d2 : ascii) (rest : string) :
  isDigit d1 = true -> isDigit d2 = true -> isDigit m1 = true ->
  isDigit m2 = true -> isDigit y1 = true -> isDigit y2 = true ->
  isDigit y3 = true -> isDigit y4 = true ->
  matchYMD (String y1 (String y2 (String y3 (String y4 (String "-" (String m1
             (String m2 (String "-" (String d1 (String d2 rest))))))))))
  = match matchClock rest with
    | Some (hh, mi, ss) =>
        Some (dateUTC (four y1 y2 y3 y4) (two m1 m2 - 1) (two d1 d2) hh mi ss)
    | None => None
    end.
Proof.
  intros H1 H2 H3 H4 H5 H6 H7 H8. cbn [matchYMD].
  now rewrite H1, H2, H3, H4, H5, H6, H7, H8.
Qed.

Lemma dayFirst_long (d1 d2 m1 m2 y1 y2 y3 y4 x : ascii) (r : string) :
  isDigit d1 = true -> isDigit d2 = true -> isDigit m1 = true ->
  isDigit m2 = true ->
  Spec.dayFirst (String d1 (String d2 (String "/" (String m1 (String m2 (String "/"
          (String y1 (String y2 (String y3 (String y4 (String x r)))))))))))
  = None.
Proof.
  intros. unfold Spec.dayFirst, Spec.triple. digit_facts.
  walk.
  rewrite !numeral2_text by assumption.
  unfold Spec.numeral. cbn [String.length Nat.eqb andb]. reflexivity.
Qed.

Lemma yearFirst_long (y1 y2 y3 y4 m1 m2 d1 d2 x : ascii) (r : string) :
  Spec.yearFirst (String y1 (String y2 (String y3 (String y4 (String "-" (String m1
          (String m2 (String "-" (String d1 (String d2 (String x r)))))))))))
  = None.
Proof.
  unfold Spec.yearFirst, Spec.triple.
  destruct (Spec.cut (Ascii.eqb "-")
              (String y1 (String y2 (String y3 (String y4 (String "-" (String m1
                 (String m2 (String "-" (String d1 (String d2 (String x r))))))))))))
    as [a [q|]] eqn:E1; [|reflexivity].
  destruct (Spec.cut (Ascii.eqb "-") q) as [b [c|]] eqn:E2; [|reflexivity].
  destruct (Spec.numeral 4 a) as [u|] eqn:Ha; [|reflexivity].
  destruct (Spec.numeral 2 b) as [v|] eqn:Hb; [|reflexivity].
  destruct (Spec.numeral 2 c) as [w|] eqn:Hc; [|reflexivity].
  exfalso.
  apply cut_spec in E1 as (c1 & _ & E1). apply cut_spec in E2 as (c2 & _ & ->).
  apply numeral4_inv in Ha as (a1 & a2 & a3 & a4 & -> & _).
  apply numeral2_inv in Hb as (b1 & b2 & -> & _).
  apply numeral2_inv in Hc as (e1 & e2 & -> & _).
  cbn [append] in E1. discriminate E1.
Qed.

Lemma readDMY_text (d1 d2 m1 m2 y1 y2 y3 y4 : ascii) (rest : string) :
  isDigit d1 = true -> isDigit d2 = true -> isDigit m1 = true ->
  isDigit m2 = true -> isDigit y1 = true -> isDigit y2 = true ->
  isDigit y3 = true -> isDigit y4 = true ->
  Spec.readDMY Spec.isSpaceOrT
    (String d1 (String d2 (String "/" (String m1 (String m2 (String "/"
       (String y1 (String y2 (String y3 (String y4 rest))))))))))
  = match matchClock rest with
    | Some (hh, mi, ss) =>
        Some (Spec.mkStamp (four y1 y2 y3 y4) (two m1 m2) (two d1 d2) hh mi ss)
    | None => None
    end.
Proof.
  intros H1 H2 H3 H4 H5 H6 H7 H8. rewrite matchClock_clock.
  pose proof (dayFirst_text d1 d2 m1 m2 y1 y2 y3 y4 H1 H2 H3 H4 H5 H6 H7 H8) as T.
  pose proof (fun x r => dayFirst_long d1 d2 m1 m2 y1 y2 y3 y4 x r H1 H2 H3 H4) as L.
  unfold Spec.readDMY, Spec.dateTime. digit_facts.
  do 10 (rewrite cut_cons;
         repeat match goal with
                | H : ?x = false |- context [?x] => rewrite H
                end;
         try change (Spec.isSpaceOrT "/") with false;
         try change (Spec.isSpaceOrT "-") with false;
         cbn [fst snd]).
  destruct rest as [|sep t].
  - cbn [Spec.cut fst snd]. now rewrite T.
  - rewrite cut_cons. destruct (Spec.isSpaceOrT sep) eqn:Es; cbn [fst snd].
    + rewrite T. destruct (Spec.clock t) as [[[hh mi] ss]|]; reflexivity.
    + rewrite L. now destruct (snd (Spec.cut Spec.isSpaceOrT t)).
Qed.

Lemma readYMD_text (y1 y2 y3 y4 m1 m2 d1 d2 : ascii) (rest : string) :
  isDigit d1 = true -> isDigit d2 = true -> isDigit m1 = true ->
  isDigit m2 = true -> isDigit y1 = true -> isDigit y2 = true ->
  isDigit y3 = true -> isDigit y4 = true ->
  Spec.readYMD
    (String y1 (String y2 (String y3 (String y4 (String "-" (String m1
       (String m2 (String "-" (String d1 (String d2 rest))))))))))
  = match matchClock rest with
    | Some (hh, mi, ss) =>
        Some (Spec.mkStamp (four y1 y2 y3 y4) (two m1 m2) (two d1 d2) hh mi ss)
    | None => None
    end.
Proof.
  intros H1 H2 H3 H4 H5 H6 H7 H8. rewrite matchClock_clock.
  pose proof (yearFirst_text y1 y2 y3 y4 m1 m2 d1 d2 H1 H2 H3 H4 H5 H6 H7 H8) as T.
  pose proof (yearFirst_long y1 y2 y3 y4 m1 m2 d1 d2) as L.
  unfold Spec.readYMD, Spec.dateTime. digit_facts.
  do 10 (rewrite cut_cons;
         repeat match goal with
                | H : ?x = false |- context [?x] => rewrite H
                end;
         try change (Spec.isSpaceOrT "/") with false;
         try change (Spec.isSpaceOrT "-") with false;
         cbn [fst snd]).
  destruct rest as [|sep t].
  - cbn [Spec.cut fst snd]. now rewrite T.
  - rewrite cut_cons. destruct (Spec.isSpaceOrT sep) eqn:Es; cbn [fst snd].
    + rewrite T. destruct (Spec.clock t) as [[[hh mi] ss]|]; reflexivity.
    + rewrite L. now destruct (snd (Spec.cut Spec.isSpaceOrT t)).
Qed.

Lemma two_nonneg (a b : ascii) : 0 <= two a b.
Proof. unfold two. lia. Qed.

Lemma four_nonneg (a b c d : ascii) : 0 <= four a b c d.
Proof. unfold four. lia. Qed.

(** The code's pattern for shape 2 reads what the specification's reader
    reads, day first, as an instant of UTC. *)
Lemma matchDMY_reads (s : string) :
  matchDMY s
  = option_map (fun st => Spec.instant (Spec.lastCentury st))
               (Spec.readDMY Spec.isSpaceOrT s).
Proof.
  destruct (matchDMY s) as [t|] eqn:E.
  - destruct s as [|d1 [|d2 [|c3 r3]]]; try discriminate.
    bits c3; try discriminate.
    destruct r3 as [|m1 [|m2 [|c6 r6]]]; try discriminate.
    bits c6; try discriminate.
    destruct r6 as [|y1 [|y2 [|y3 [|y4 rest]]]]; try discriminate.
    cbn [matchDMY] in E.
    destruct (isDigit d1 && isDigit d2 && isDigit m1 && isDigit m2 && isDigit y1
              && isDigit y2 && isDigit y3 && isDigit y4) eqn:D; [|discriminate].
    repeat match goal with
           | H : _ && _ = true |- _ => apply andb_true_iff in H; destruct H
           end.
    change (String (Ascii true true true true false true false false))
      with (String "/"%char).
    rewrite readDMY_text by assumption.
    destruct (matchClock rest) as [[[hh mi] ss]|]; [|discriminate].
    cbn [option_map]. rewrite instant_dateUTC; [symmetry; exact E| |].
    + apply four_nonneg.
    + apply two_nonneg.
  - destruct (Spec.readDMY Spec.isSpaceOrT s) as [st|] eqn:R; [exfalso|reflexivity].
    unfold Spec.readDMY, Spec.dateTime in R.
    destruct (Spec.cut Spec.isSpaceOrT s) as [d [t|]] eqn:Ec.
    + destruct (Spec.dayFirst d) as [[[y m] dd]|] eqn:Ed; [|discriminate].
      destruct (Spec.clock t) as [[[hh mi] ss]|] eqn:Et; [|discriminate].
      apply cut_spec in Ec as (c & Hc & ->).
      apply dayFirst_inv in Ed
        as (d1 & d2 & m1 & m2 & y1 & y2 & y3 & y4 & -> & ? & ? & ? & ? & ? & ? & ? & ? & _).
      cbn [append] in E. rewrite matchDMY_text in E by assumption.
      rewrite matchClock_clock, Hc, Et in E. discriminate.
    + destruct (Spec.dayFirst d) as [[[y m] dd]|] eqn:Ed; [|discriminate].
      apply cut_spec in Ec. subst d.
      apply dayFirst_inv in Ed
        as (d1 & d2 & m1 & m2 & y1 & y2 & y3 & y4 & -> & ? & ? & ? & ? & ? & ? & ? & ? & _).
      rewrite matchDMY_text in E by assumption. discriminate.
Qed.

Lemma matchYMD_reads (s : string) :
  matchYMD s
  = option_map (fun st => Spec.instant (Spec.lastCentury st)) (Spec.readYMD s).
Proof.
  destruct (matchYMD s) as [t|] eqn:E.
  - destruct s as [|y1 [|y2 [|y3 [|y4 [|c5 r5]]]]]; try discriminate.
    bits c5; try discriminate.
    destruct r5 as [|m1 [|m2 [|c8 r8]]]; try discriminate.
    bits c8; try discriminate.
    destruct r8 as [|d1 [|d2 rest]]; try discriminate.
    cbn [matchYMD] in E.
    destruct (isDigit d1 && isDigit d2 && isDigit m1 && isDigit m2 && isDigit y1
              && isDigit y2 && isDigit y3 && isDigit y4) eqn:D; [|discriminate].
    repeat match goal with
           | H : _ && _ = true |- _ => apply andb_true_iff in H; destruct H
           end.
    change (String (Ascii true false true true false true false false))
      with (String "-"%char).
    rewrite readYMD_text by assumption.
    destruct (matchClock rest) as [[[hh mi] ss]|]; [|discriminate].
    cbn [option_map]. rewrite instant_dateUTC; [symmetry; exact E| |].
    + apply four_nonneg.
    + apply two_nonneg.
  - destruct (Spec.readYMD s) as [st|] eqn:R; [exfalso|reflexivity].
    unfold Spec.readYMD, Spec.dateTime in R.
    destruct (Spec.cut Spec.isSpaceOrT s) as [d [t|]] eqn:Ec.
    + destruct (Spec.yearFirst d) as [[[y m] dd]|] eqn:Ed; [|discriminate].
      destruct (Spec.clock t) as [[[hh mi] ss]|] eqn:Et; [|discriminate].
      apply cut_spec in Ec as (c & Hc & ->).
      apply yearFirst_inv in Ed
        as (y1 & y2 & y3 & y4 & m1 & m2 & d1 & d2 & -> & ? & ? & ? & ? & ? & ? & ? & ? & _).
      cbn [append] in E. rewrite matchYMD_text in E by assumption.
      rewrite matchClock_clock, Hc, Et in E. discriminate.
    + destruct (Spec.yearFirst d) as [[[y m] dd]|] eqn:Ed; [|discriminate].
      apply cut_spec in Ec. subst d.
      apply yearFirst_inv in Ed
        as (y1 & y2 & y3 & y4 & m1 & m2 & d1 & d2 & -> & ? & ? & ? & ? & ? & ? & ? & ? & _).
      rewrite matchYMD_text in E by assumption. discriminate.
Qed.

Lemma isoShape_isoWithT (s : string) : isoShape s = Spec.isoWithT s.
Proof.
  destruct (isoShape s) eqn:E.
  - destruct s as [|y1 [|y2 [|y3 [|y4 [|c5 r5]]]]]; try discriminate.
    bits c5; try discriminate.
    destruct r5 as [|m1 [|m2 [|c8 r8]]]; try discriminate.
    bits c8; try discriminate.
    destruct r8 as [|d1 [|d2 [|c11 rest]]]; try discriminate.
    bits c11; try discriminate.
    cbn [isoShape] in E.
    repeat match goal with
           | H : _ && _ = true |- _ => apply andb_true_iff in H; destruct H
           end.
    change (String (Ascii true false true true false true false false))
      with (String "-"%char).
    change (String (Ascii false false true false true false true false))
      with (String "T"%char).
    pose proof (yearFirst_text y1 y2 y3 y4 m1 m2 d1 d2) as T.
    unfold Spec.isoWithT. digit_facts.
    do 11 (rewrite cut_cons;
           repeat match goal with
                  | H : ?x = false |- context [?x] => rewrite H
                  end;
           cbn [Ascii.eqb Bool.eqb fst snd]).
    rewrite T by assumption. reflexivity.
  - destruct (Spec.isoWithT s) eqn:R; [exfalso|reflexivity].
    unfold Spec.isoWithT in R.
    destruct (Spec.cut (Ascii.eqb "T") s) as [d [t|]] eqn:Ec; [|discriminate].
    destruct (Spec.yearFirst d) as [[[y m] dd]|] eqn:Ed; [|discriminate].
    apply cut_spec in Ec as (c & Hc & ->). apply Ascii.eqb_eq in Hc. subst c.
    apply yearFirst_inv in Ed
      as (y1 & y2 & y3 & y4 & m1 & m2 & d1 & d2 & -> & H1 & H2 & H3 & H4 & H5 & H6 & H7 & H8 & _).
    cbn [append isoShape] in E.
    rewrite H1, H2, H3, H4, H5, H6, H7, H8 in E. discriminate.
Qed.




(* ================================================================== *)
(** ** Exit behaviour *)
(* ================================================================== *)

(** C8, as stated, fails on part_000: with zero rows, and with a required
    column unresolved, the script leaves with status 1 and has written
    nothing. *)
Lemma strict_generation_exits_nonzero :
  Strict.main Example.utcHost Example.extEnv (Parsed []) = mkOutcome 1 []
  /\ Strict.unresolved (Strict.columns (headersOf Example.rowsWithoutTime)) = true
  /\ Strict.main Example.utcHost Example.extEnv (Parsed Example.rowsWithoutTime)
     = mkOutcome 1 [].
Proof. repeat split. Qed.

(** The later generations write the empty documents and leave with status
    0 when no row was parsed. *)
Lemma later_generations_accept_empty_payload (h : Host) (env : Env) :
  Shape.main h env (Parsed []) = Fetch.main h env (Parsed [])
  /\ Needles.main h env (Parsed []) = Fetch.main h env (Parsed [])
  /\ exitStatus (Fetch.main h env (Parsed [])) = 0
  /\ seriesOf (Fetch.main h env (Parsed [])) = Some []
  /\ latestOf (Fetch.main h env (Parsed [])) = Some None.
Proof. repeat split. Qed.

Lemma fold_left_fixed {A R : Type} (f : A -> R -> A) (rows : list R) (a : A) :
  (forall r, In r rows -> f a r = a) -> fold_left f rows a = a.
Proof.
  induction rows as [|r rows IH]; simpl; intros H; [reflexivity|].
  rewrite (H r (or_introl eq_refl)). apply IH. intros r' Hr. apply H. now right.
Qed.

Lemma fetch_toISO_undefined (h : Host) :
  dateParse h "" = None -> Fetch.toISO h None = None.
Proof.
  intros H. unfold Fetch.toISO.
  change (norm None) with "". cbv beta iota zeta.
  change (isoShape "") with false. change (matchDMY "") with (@None Z).
  change (matchYMD "") with (@None Z). cbv beta iota.
  unfold isoOfString, newDate. now rewrite H.
Qed.

(** C8, amended, for fetch_cefas.mjs: zero rows give the empty history, the
    null latest and status 0; every parsed payload ends with status 0 and
    both documents written; and when the time, parameter or value column is
    unresolved (and no column is literally named "null", on an engine for
    which the empty text is no date) the history is empty and the latest is
    null. *)
Theorem fetch_always_exits_zero (h : Host) (env : Env) :
  Fetch.main h env (Parsed [])
  = mkOutcome 0 [("public/latest.json", Latest None);
                 ("public/history.json", History []);
                 ("public/diagnostics.json", Diagnostics)]
  /\ (forall rows,
        exitStatus (Fetch.main h env (Parsed rows)) = 0
        /\ (exists s, seriesOf (Fetch.main h env (Parsed rows)) = Some s)
        /\ (exists l, latestOf (Fetch.main h env (Parsed rows)) = Some l))
  /\ (forall rows,
        dateParse h "" = None ->
        (forall r, In r rows -> prop r "null" = None) ->
        Fetch.timeCol (Fetch.columns (headersOf rows)) = None
        \/ Fetch.paramCol (Fetch.columns (headersOf rows)) = None
        \/ Fetch.valueCol (Fetch.columns (headersOf rows)) = None ->
        seriesOf (Fetch.main h env (Parsed rows)) = Some []
        /\ latestOf (Fetch.main h env (Parsed rows)) = Some None).
Proof.
  split; [reflexivity|]. split.
  - intros [|r rows]; simpl; repeat split; eexists; reflexivity.
  - intros rows Hd Hnull Hcol.
    assert (E : Fetch.series h env rows = []).
    { unfold Fetch.series, Fetch.byTsOf.
      rewrite fold_left_fixed; [reflexivity|].
      intros r Hr. unfold Fetch.step.
      destruct (negb (Fetch.isCardigan env _ r)); [reflexivity|].
      destruct Hcol as [Hc|[Hc|Hc]]; rewrite Hc; unfold cell; simpl;
        rewrite (Hnull r Hr).
      - now rewrite (fetch_toISO_undefined h Hd).
      - destruct (Fetch.toISO h _); reflexivity.
      - destruct (Fetch.toISO h _); [|reflexivity].
        destruct (Fetch.classifyParam _); reflexivity. }
    destruct rows as [|r rows]; [split; reflexivity|].
    unfold seriesOf, latestOf, Fetch.main. simpl. rewrite E. split; reflexivity.
Qed.

Lemma fetch_always_exits_zero_witness :
  dateParse Example.utcHost "" = None
  /\ (forall r, In r Example.rowsWithoutTime -> prop r "null" = None)
  /\ Fetch.timeCol (Fetch.columns (headersOf Example.rowsWithoutTime)) = None
  /\ seriesOf (Fetch.main Example.utcHost Example.extEnv
                 (Parsed Example.rowsWithoutTime)) = Some []
  /\ latestOf (Fetch.main Example.utcHost Example.extEnv
                 (Parsed Example.rowsWithoutTime)) = Some None.
Proof.
  assert (N : forall r, In r Example.rowsWithoutTime -> prop r "null" = None).
  { intros r [<-|[]]. reflexivity. }
  split; [reflexivity|]. split; [exact N|]. split; [reflexivity|].
  apply (proj2 (proj2 (fetch_always_exits_zero Example.utcHost Example.extEnv))
           Example.rowsWithoutTime eq_refl N).
  left. reflexivity.
Defined.

(* ================================================================== *)
(** ** Determinism *)
(* ================================================================== *)

Lemma fold_left_ext {A R : Type} (f g : A -> R -> A) (rows : list R) (a : A) :
  (forall a r, f a r = g a r) -> fold_left f rows a = fold_left g rows a.
Proof.
  intros H. revert a. induction rows as [|r rows IH]; intros a; simpl; [reflexivity|].
  now rewrite H, IH.
Qed.

Section TwoHosts.

(** Two machines whose engines read every text alike; nothing is assumed of
    their clocks. *)
Variables h1 h2 : Host.
Hypothesis same_engine : forall s, dateParse h1 s = dateParse h2 s.

Lemma isoOfString_ext (s : string) : isoOfString h1 s = isoOfString h2 s.
Proof. unfold isoOfString, newDate. now rewrite same_engine. Qed.

Lemma fetch_toISO_ext (dt : option string) : Fetch.toISO h1 dt = Fetch.toISO h2 dt.
Proof. unfold Fetch.toISO. now rewrite !isoOfString_ext. Qed.

Lemma fetch_step_ext (env : Env) (c : Fetch.Columns) (m : TsMap) (r : Row) :
  Fetch.step h1 env c m r = Fetch.step h2 env c m r.
Proof. unfold Fetch.step. now rewrite fetch_toISO_ext. Qed.

Lemma fetch_series_ext (env : Env) (rows : list Row) :
  Fetch.series h1 env rows = Fetch.series h2 env rows.
Proof.
  unfold Fetch.series, Fetch.byTsOf. f_equal. f_equal.
  apply fold_left_ext. intros a r. apply fetch_step_ext.
Qed.

End TwoHosts.

Lemma fold_left_ext_in {A R : Type} (f g : A -> R -> A) (rows : list R) (a : A) :
  (forall x r, In r rows -> f x r = g x r) ->
  fold_left f rows a = fold_left g rows a.
Proof.
  revert a. induction rows as [|r rows IH]; intros a H; [reflexivity|].
  cbn [fold_left]. rewrite (H a r (or_introl eq_refl)).
  apply IH. intros x r' Hr. apply H. now right.
Qed.

Lemma fetch_toISO_selfContained (h1 h2 : Host) (dt : option string) :
  Spec.selfContained (norm dt) = true -> Fetch.toISO h1 dt = Fetch.toISO h2 dt.
Proof.
  unfold Spec.selfContained, Fetch.toISO.
  rewrite isoShape_isoWithT, matchDMY_reads, matchYMD_reads.
  destruct (Spec.isoWithT (norm dt)); [discriminate|].
  destruct (Spec.readDMY Spec.isSpaceOrT (norm dt)); [reflexivity|].
  destruct (Spec.readYMD (norm dt)); [reflexivity|discriminate].
Qed.

(** C9, as stated, fails: the history is not a function of payload and
    configuration alone.  A time cell with a [T] and no offset is handed to
    the engine, which reads it in the time zone of the machine: the same
    payload under the same configuration gives 12:00Z on a machine in UTC
    and 11:00Z on a machine one hour east of it. *)
Lemma host_zone_changes_history :
  Fetch.series Example.utcHost Example.extEnv Sample.zoneRows
  = [mkEntry "2024-06-01T12:00:00.000Z" [(hm0, Fin false 15 (-1))]]
  /\ Fetch.series Example.cetHost Example.extEnv Sample.zoneRows
     = [mkEntry "2024-06-01T11:00:00.000Z" [(hm0, Fin false 15 (-1))]]
  /\ ~ (forall (h1 h2 : Host) (env : Env) (resp : Response),
          Fetch.main h1 env resp = Fetch.main h2 env resp).
Proof.
  split; [vm_compute; reflexivity|]. split; [vm_compute; reflexivity|].
  intros H.
  specialize (H Example.utcHost Example.cetHost Example.extEnv (Parsed Sample.zoneRows)).
  vm_compute in H. discriminate H.
Qed.

(** C9, amended: the documents written by fetch_cefas.mjs are a function of
    the payload, the configuration and the engine's reading of date texts;
    the clock is never read.  Two runs on machines whose engines read every
    text alike write the same documents and leave with the same status.
    When the time cell of every selected row is of the second or third
    literal shape, and not of the first, the engine is not consulted: any
    two machines then write the same documents. *)
Theorem core_is_deterministic (h1 h2 : Host) (env : Env) (resp : Response) :
  ((forall s, dateParse h1 s = dateParse h2 s) ->
   Fetch.main h1 env resp = Fetch.main h2 env resp)
  /\ (forall rows : list Row,
        resp = Parsed rows ->
        (forall r, In r rows ->
           Fetch.isCardigan env (Fetch.columns (headersOf rows)) r = true ->
           Spec.selfContained
             (norm (cell r (Fetch.timeCol (Fetch.columns (headersOf rows))))) = true) ->
        Fetch.main h1 env resp = Fetch.main h2 env resp).
Proof.
  split.
  - intros same_engine. destruct resp as [|[|r rows]]; simpl; [reflexivity|reflexivity|].
    now rewrite (fetch_series_ext h1 h2 same_engine).
  - intros rows -> H. destruct rows as [|r rows]; [reflexivity|].
    assert (E : Fetch.series h1 env (r :: rows) = Fetch.series h2 env (r :: rows)).
    { unfold Fetch.series, Fetch.byTsOf. f_equal. f_equal.
      apply fold_left_ext_in. intros m x Hx. unfold Fetch.step.
      destruct (Fetch.isCardigan env (Fetch.columns (headersOf (r :: rows))) x) eqn:Hs;
        [|reflexivity].
      cbn [negb].
      now rewrite (fetch_toISO_selfContained h1 h2 _ (H x Hx Hs)). }
    cbn [Fetch.main]. now rewrite E.
Qed.

Lemma core_is_deterministic_witness :
  (wallClock Example.utcHost <> wallClock Example.laterHost
   /\ (forall s, dateParse Example.utcHost s = dateParse Example.laterHost s)
   /\ Fetch.main Example.utcHost Example.extEnv (Parsed Sample.zoneRows)
      = Fetch.main Example.laterHost Example.extEnv (Parsed Sample.zoneRows))
  /\ (dateParse Example.utcHost "2024-06-01T12:00:00"
      <> dateParse Example.cetHost "2024-06-01T12:00:00"
      /\ Fetch.series Example.utcHost Example.extEnv Example.longRowsDeployment
         = [Example.longRecord]
      /\ Fetch.main Example.utcHost Example.extEnv (Parsed Example.longRowsDeployment)
         = Fetch.main Example.cetHost Example.extEnv (Parsed Example.longRowsDeployment)).
Proof.
  split.
  - split; [discriminate|]. split; [reflexivity|].
    apply (proj1 (core_is_deterministic Example.utcHost Example.laterHost
                    Example.extEnv (Parsed Sample.zoneRows))).
    reflexivity.
  - split; [vm_compute; discriminate|]. split; [vm_compute; reflexivity|].
    apply (proj2 (core_is_deterministic Example.utcHost Example.cetHost
                    Example.extEnv (Parsed Example.longRowsDeployment))
             Example.longRowsDeployment eq_refl).
    intros r [<-|[<-|[]]] _; reflexivity.
Defined.

(* ================================================================== *)
(** ** Reading the value cell *)
(* ================================================================== *)

Ltac each_char c :=
  destruct c as [[|] [|] [|] [|] [|] [|] [|] [|]]; vm_compute; intros;
  repeat split; congruence.

Lemma white_not_digit (c : ascii) : isWhite c = true -> isDigit c = false.
Proof. each_char c. Qed.

Lemma white_not_comma (c : ascii) : isWhite c = true -> Ascii.eqb c "," = false.
Proof. each_char c. Qed.

Lemma white_not_point (c : ascii) : isWhite c = true -> Ascii.eqb c "." = false.
Proof. each_char c. Qed.

Lemma white_not_sign (c : ascii) :
  isWhite c = true -> Ascii.eqb c "+" = false /\ Ascii.eqb c "-" = false.
Proof. each_char c. Qed.

Lemma white_not_exp (c : ascii) :
  isWhite c = true -> Ascii.eqb c "e" || Ascii.eqb c "E" = false.
Proof. each_char c. Qed.

Lemma spanDigits_white (w : string) :
  sforall isWhite w = true -> spanDigits w = ("", w).
Proof.
  destruct w as [|c w]; simpl; [reflexivity|].
  intros H. apply andb_true_iff in H as [Hc _].
  now rewrite (white_not_digit c Hc).
Qed.

Lemma spanDigits_app_white (x w : string) :
  sforall isWhite w = true ->
  spanDigits (x ++ w) = (fst (spanDigits x), snd (spanDigits x) ++ w).
Proof.
  intros Hw. induction x as [|a x IH]; simpl.
  - now rewrite spanDigits_white.
  - destruct (isDigit a); [|reflexivity].
    rewrite IH. now destruct (spanDigits x).
Qed.

Lemma parseExponent_white (w : string) :
  sforall isWhite w = true -> parseExponent w = 0.
Proof.
  destruct w as [|c w]; simpl; [reflexivity|].
  intros H. apply andb_true_iff in H as [Hc _].
  now rewrite (white_not_exp c Hc).
Qed.

Lemma parseExponent_app_white (r w : string) :
  sforall isWhite w = true -> parseExponent (r ++ w) = parseExponent r.
Proof.
  intros Hw. destruct r as [|c r].
  - simpl. now apply parseExponent_white.
  - unfold parseExponent. cbn [append].
    destruct (Ascii.eqb c "e" || Ascii.eqb c "E"); [|reflexivity].
    destruct r as [|c' r]; cbn [append].
    + destruct w as [|a w]; [reflexivity|]. simpl in Hw.
      apply andb_true_iff in Hw as [Ha Hw].
      destruct (white_not_sign a Ha) as [-> ->]. simpl.
      now rewrite (white_not_digit a Ha).
    + destruct (Ascii.eqb c' "+"); [now rewrite spanDigits_app_white|].
      destruct (Ascii.eqb c' "-"); [now rewrite spanDigits_app_white|].
      change (String c' (r ++ w)) with (String c' r ++ w).
      now rewrite (spanDigits_app_white (String c' r) w Hw).
Qed.

Lemma parseUnsigned_app_white (x w : string) :
  sforall isWhite w = true -> parseUnsigned (x ++ w) = parseUnsigned x.
Proof.
  intros Hw. unfold parseUnsigned.
  rewrite (spanDigits_app_white x w Hw). simpl fst. simpl snd.
  destruct (snd (spanDigits x)) as [|c r2].
  - cbn [append]. rewrite (parseExponent_white w Hw).
    change (parseExponent "") with 0.
    destruct w as [|a w]; [reflexivity|]. simpl in Hw.
    apply andb_true_iff in Hw as [Ha Hw]. now rewrite (white_not_point a Ha).
  - cbn [append]. destruct (Ascii.eqb c ".").
    + rewrite (spanDigits_app_white r2 w Hw). simpl fst. simpl snd.
      now rewrite (parseExponent_app_white _ w Hw).
    + change (String c (r2 ++ w)) with (String c r2 ++ w).
      now rewrite (parseExponent_app_white (String c r2) w Hw).
Qed.

Lemma startsWith_app_white (p x w : string) :
  sforall (fun c => negb (isWhite c)) p = true ->
  sforall isWhite w = true ->
  startsWith p (x ++ w) = startsWith p x.
Proof.
  intros Hp Hw. revert x. induction p as [|a p IH]; intros x; [reflexivity|].
  simpl in Hp. apply andb_true_iff in Hp as [Ha Hp].
  destruct x as [|b x]; simpl.
  - destruct w as [|c w]; [reflexivity|]. simpl in Hw.
    apply andb_true_iff in Hw as [Hc _].
    destruct (Ascii.eqb_spec a c) as [->|]; [|reflexivity].
    rewrite Hc in Ha. discriminate.
  - now rewrite (IH Hp).
Qed.

Lemma parseSigned_app_white (neg : bool) (x w : string) :
  sforall isWhite w = true -> parseSigned neg (x ++ w) = parseSigned neg x.
Proof.
  intros Hw. unfold parseSigned.
  rewrite (startsWith_app_white "Infinity" x w eq_refl Hw).
  now rewrite (parseUnsigned_app_white x w Hw).
Qed.

Lemma trimStart_white (w : string) : sforall isWhite w = true -> trimStart w = "".
Proof.
  induction w as [|c w IH]; simpl; [reflexivity|].
  intros H. apply andb_true_iff in H as [Hc Hw]. now rewrite Hc, IH.
Qed.

Lemma parseFloat_app_white (x w : string) :
  sforall isWhite w = true -> parseFloat (x ++ w) = parseFloat x.
Proof.
  intros Hw. induction x as [|c x IH].
  - unfold parseFloat. simpl. now rewrite trimStart_white.
  - unfold parseFloat in *. simpl.
    destruct (isWhite c); [exact IH|].
    destruct (Ascii.eqb c "+"); [now apply parseSigned_app_white|].
    destruct (Ascii.eqb c "-"); [now apply parseSigned_app_white|].
    now apply (parseSigned_app_white false (String c x)).
Qed.

Lemma parseFloat_skip (c : ascii) (s : string) :
  isWhite c = true -> parseFloat (String c s) = parseFloat s.
Proof. intros H. unfold parseFloat. simpl. now rewrite H. Qed.

Lemma replaceFirstComma_white (w : string) :
  sforall isWhite w = true -> replaceFirstComma w = w.
Proof.
  induction w as [|c w IH]; simpl; [reflexivity|].
  intros H. apply andb_true_iff in H as [Hc Hw].
  now rewrite (white_not_comma c Hc), IH.
Qed.

Lemma replaceFirstComma_app_white (a w : string) :
  sforall isWhite w = true ->
  replaceFirstComma (a ++ w) = replaceFirstComma a ++ w.
Proof.
  intros Hw. induction a as [|c a IH]; simpl.
  - now apply replaceFirstComma_white.
  - destruct (Ascii.eqb c ","); [reflexivity|now rewrite IH].
Qed.

Lemma trimEnd_split (u : string) :
  exists w, sforall isWhite w = true /\ u = trimEnd u ++ w.
Proof.
  induction u as [|c u (w & Hw & E)]; simpl.
  - now exists "".
  - destruct (trimEnd u) as [|d t].
    + simpl in E. subst u. destruct (isWhite c) eqn:Hc.
      * exists (String c w). simpl. now rewrite Hc, Hw.
      * now exists w.
    + exists w. split; [exact Hw|]. simpl. now rewrite E at 1.
Qed.

Lemma parseFloat_replace_trimStart (s : string) :
  parseFloat (replaceFirstComma (trimStart s)) = parseFloat (replaceFirstComma s).
Proof.
  induction s as [|c s IH]; simpl; [reflexivity|].
  destruct (isWhite c) eqn:Hc; [|reflexivity].
  rewrite (white_not_comma c Hc), IH. symmetry. now apply parseFloat_skip.
Qed.

(** Trimming the cell first does not change what [parseFloat] reads. *)
Lemma parseFloat_replace_trim (s : string) :
  parseFloat (replaceFirstComma (trim s)) = parseFloat (replaceFirstComma s).
Proof.
  unfold trim. rewrite <- (parseFloat_replace_trimStart s).
  destruct (trimEnd_split (trimStart s)) as (w & Hw & E).
  rewrite E at 2.
  rewrite (replaceFirstComma_app_white _ w Hw).
  symmetry. now apply parseFloat_app_white.
Qed.

Lemma readValueRaw_readValue (v : option string) : readValueRaw v = readValue v.
Proof.
  destruct v as [s|]; [|reflexivity].
  unfold readValueRaw, readValue, norm. simpl.
  now rewrite parseFloat_replace_trim.
Qed.

Lemma getKey_setKey (fs : list (Key * num)) (k : Key) (v : num) :
  getKey (setKey fs k v) k = Some v.
Proof.
  induction fs as [|[k0 v0] fs IH]; simpl.
  - now rewrite Key_eqb_refl.
  - destruct (Key_eqb k0 k) eqn:E; simpl; now rewrite E.
Qed.

Lemma has_app (m1 m2 : TsMap) (t : string) :
  has (m1 ++ m2)%list t = has m1 t || has m2 t.
Proof.
  induction m1 as [|[k e] m1 IH]; simpl; [reflexivity|].
  now rewrite IH, orb_assoc.
Qed.



(** The same reading in the long branch of part_001 and in the loop of
    part_002. *)
Lemma shape_long_value_cell (h : Host) (env : Env) (fc : list string)
  (tc vc pc : option string) (m : TsMap) (r : Row) (t : string) (cls : Key) :
  Shape.looksLikeCardigan env (Shape.stationMatchPool r fc) = true ->
  Shape.toISO h (cell r tc) = Some t ->
  Shape.classifyLongParam (cell r pc) = Some cls ->
  Shape.longStep h env fc tc vc pc m r
  = match parseFloat (replaceFirstComma (trim (strOrEmpty (cell r vc)))) with
    | Fin neg mant e => record m t cls (Fin neg mant e)
    | _ => m
    end.
Proof.
  intros Hs Ht Hc. unfold Shape.longStep, readValue, norm. rewrite Hs, Ht, Hc. simpl.
  now destruct (parseFloat _).
Qed.

Lemma needles_value_cell (h : Host) (c : Needles.Columns) (m : TsMap) (r : Row)
  (t : string) (cls : Key) :
  Needles.toISO h (cell r (Needles.timeCol c)) = Some t ->
  Needles.classifyParam (Needles.firstLabel r (Needles.paramCols c)) = Some cls ->
  Needles.step h c m r
  = match parseFloat (replaceFirstComma
                        (trim (strOrEmpty (cell r (Needles.valueCol c))))) with
    | Fin neg mant e => record m t cls (Fin neg mant e)
    | _ => m
    end.
Proof.
  intros Ht Hc. unfold Needles.step. rewrite Ht, Hc, readValueRaw_readValue.
  unfold readValue, norm. now destruct (parseFloat _).
Qed.



(* ================================================================== *)
(** ** The Row Selector *)
(* ================================================================== *)

Lemma smap_app (f : ascii -> ascii) (a b : string) :
  smap f (a ++ b) = smap f a ++ smap f b.
Proof. induction a as [|c a IH]; simpl; [reflexivity|now rewrite IH]. Qed.

Lemma join_in_split (sep : string) (l : list string) (x : string) :
  In x l -> exists p q, join sep l = p ++ x ++ q.
Proof.
  induction l as [|y l IH]; [intros []|].
  intros [->|Hin].
  - destruct l as [|z l].
    + exists "", "". simpl. now rewrite string_app_empty_r.
    + exists "", (sep ++ join sep (z :: l)). reflexivity.
  - destruct (IH Hin) as (p & q & E).
    destruct l as [|z l]; [destruct Hin|].
    exists (y ++ sep ++ p), q.
    change (join sep (y :: z :: l)) with (y ++ sep ++ join sep (z :: l)).
    now rewrite E, !string_app_assoc.
Qed.

Lemma hay_includes_cell (r : Row) (cols : list string) (c : string) :
  In c cols ->
  includes (toUpperCase (join "|" (map (fun c => strOrEmpty (prop r c)) cols)))
           (toUpperCase (strOrEmpty (prop r c))) = true.
Proof.
  intros Hin.
  destruct (join_in_split "|" (map (fun c => strOrEmpty (prop r c)) cols)
              (strOrEmpty (prop r c))) as (p & q & E).
  - now apply (in_map (fun c => strOrEmpty (prop r c))).
  - rewrite E. unfold toUpperCase. rewrite !smap_app. apply includes_app.
Qed.

Lemma envOr_nonempty (v : option string) (d : string) :
  isEmptyStr d = false -> isEmptyStr (envOr v d) = false.
Proof.
  intros H. unfold envOr. destruct v as [s|]; [|exact H].
  destruct (isEmptyStr s) eqn:E; [exact H|exact E].
Qed.

Lemma empty_eqb_upper (s : string) :
  isEmptyStr s = false -> String.eqb "" (toUpperCase s) = false.
Proof. destruct s; [discriminate|reflexivity]. Qed.

(** C7, as stated, fails: part_002 and fetch_cefas.mjs test containment.
    A row whose station is "Textile" is selected for station code EXT
    although no column equals EXT or 353~EXT, and neither "353" nor
    "CARDIGAN" occurs in the row. *)
Lemma selector_accepts_containment :
  Needles.stationCols (Needles.columns (map fst Example.textileRow)) = ["Station"]
  /\ Needles.platformCols (Needles.columns (map fst Example.textileRow)) = []
  /\ Needles.nameCols (Needles.columns (map fst Example.textileRow)) = []
  /\ Needles.rowIsCardigan Example.extEnv Example.textileRow ["Station"] [] [] = true
  /\ Spec.exactCodeMatch (Needles.STATION_CODE Example.extEnv)
       (Needles.PLATFORM_ID Example.extEnv) Example.textileRow ["Station"] = false
  /\ includes (Needles.hayOf Example.textileRow ["Station"] [] []) "353" = false
  /\ includes (Needles.hayOf Example.textileRow ["Station"] [] []) "CARDIGAN" = false
  /\ Fetch.isCardigan Example.extEnv
       (Fetch.columns (map fst Example.textileDeployment)) Example.textileDeployment
     = true.
Proof. repeat split. Qed.

Lemma startsWith_before (c : ascii) (t a b : string) :
  sforall (fun x => negb (Ascii.eqb x c)) t = true ->
  startsWith t (a ++ String c b) = true -> startsWith t a = true.
Proof.
  revert a. induction t as [|x t IH]; intros a Ht H; [reflexivity|].
  simpl in Ht. apply andb_true_iff in Ht as [Hx Ht].
  destruct a as [|y a]; simpl in H |- *.
  - apply andb_true_iff in H as [H _]. rewrite H in Hx. discriminate.
  - apply andb_true_iff in H as [H1 H2]. rewrite H1. simpl. now apply IH.
Qed.

Lemma includes_around (c : ascii) (t a b : string) :
  sforall (fun x => negb (Ascii.eqb x c)) t = true -> isEmptyStr t = false ->
  includes (a ++ String c b) t = true ->
  includes a t = true \/ includes b t = true.
Proof.
  intros Ht Hne. induction a as [|y a IH]; intros H.
  - right. change ("" ++ String c b) with (String c b) in H.
    cbn [includes] in H. apply orb_true_iff in H as [H|H]; [|exact H].
    destruct t as [|x t]; [discriminate|]. simpl in Ht, H.
    apply andb_true_iff in Ht as [Hx _]. apply andb_true_iff in H as [H _].
    rewrite H in Hx. discriminate.
  - change (String y a ++ String c b) with (String y (a ++ String c b)) in H.
    cbn [includes] in H. apply orb_true_iff in H as [H|H].
    + left. apply includes_startsWith.
      now apply (startsWith_before c t (String y a) b).
    + destruct (IH H) as [A|A]; [left|now right].
      cbn [includes]. rewrite A. apply orb_true_r.
Qed.

Lemma includes_join_cell (t : string) (l : list string) :
  Spec.barFree t -> isEmptyStr t = false ->
  includes (join "|" l) t = true -> exists x, In x l /\ includes x t = true.
Proof.
  intros Ht Hne. induction l as [|x l IH]; intros H.
  - destruct t; discriminate.
  - destruct l as [|y l].
    + exists x. split; [now left|exact H].
    + change (join "|" (x :: y :: l)) with (x ++ String "|" (join "|" (y :: l))) in H.
      apply (includes_around "|" t) in H; [|exact Ht|exact Hne].
      destruct H as [H|H].
      * exists x. split; [now left|exact H].
      * destruct (IH H) as (z & Hz & Hi). exists z. split; [now right|exact Hi].
Qed.

Lemma upper_join (l : list string) :
  toUpperCase (join "|" l) = join "|" (map toUpperCase l).
Proof.
  induction l as [|x l IH]; [reflexivity|].
  destruct l as [|y l]; [reflexivity|].
  change (join "|" (x :: y :: l)) with (x ++ "|" ++ join "|" (y :: l)).
  unfold toUpperCase at 1. rewrite !smap_app. fold (toUpperCase (join "|" (y :: l))).
  rewrite IH. reflexivity.
Qed.

Lemma upperChar_bar (c : ascii) : Ascii.eqb (upperChar c) "|" = Ascii.eqb c "|".
Proof. each_char c. Qed.

Lemma upper_barFree (t : string) : Spec.barFree t -> Spec.barFree (toUpperCase t).
Proof.
  unfold Spec.barFree, toUpperCase. induction t as [|c t IH]; simpl; [reflexivity|].
  rewrite upperChar_bar. intros H. apply andb_true_iff in H as [H1 H2].
  now rewrite H1, IH.
Qed.

Lemma needles_barFree (env : Env) (t : string) :
  Spec.barFree (Needles.STATION_CODE env) -> Spec.barFree (Needles.PLATFORM_ID env) ->
  In t (Needles.needles env) -> Spec.barFree t /\ isEmptyStr t = false.
Proof.
  intros Hs Hp [<-|[<-|[<-|[<-|[]]]]].
  - split; [now apply upper_barFree|].
    apply toUpperCase_nonempty, envOr_nonempty. reflexivity.
  - split; [now apply upper_barFree|].
    apply toUpperCase_nonempty, envOr_nonempty. reflexivity.
  - split; reflexivity.
  - split; reflexivity.
Qed.

(** C7, amended: the station-code signal is substring containment in
    part_002 and fetch_cefas.mjs, and equality in part_000 only.  In
    part_002 a row is selected exactly when the upper-cased text of its
    station, platform and name cells, joined by a vertical bar, holds the
    station code, the platform id, "353" or "CARDIGAN"; when code and id
    hold no bar themselves, that is exactly when one of those cells holds
    one of the four tokens, so a cell equal to the code selects the row.
    In part_000 a row is selected exactly when its trimmed station column
    equals the station code, or its trimmed platform column the platform
    id, without regard to case.  In fetch_cefas.mjs a row is selected
    exactly when its instrument cell is not blank and holds the digits of
    the target instrument, or its deployment cell holds "cardigan" or the
    station code in lower case, or the station code is blank; so a
    deployment cell equal to the code selects the row. *)
Theorem station_signal_is_containment (env : Env) (r : Row) :
  (forall sc pc nc : list string,
     (Needles.rowIsCardigan env r sc pc nc = true <->
      exists tok, In tok (Needles.needles env)
                  /\ includes (Needles.hayOf r sc pc nc) tok = true)
     /\ (Spec.barFree (Needles.STATION_CODE env) ->
         Spec.barFree (Needles.PLATFORM_ID env) ->
         (Needles.rowIsCardigan env r sc pc nc = true <->
          exists col tok,
            In col (sc ++ pc ++ nc)%list /\ In tok (Needles.needles env)
            /\ includes (toUpperCase (strOrEmpty (prop r col))) tok = true))
     /\ (Spec.exactCodeMatch (Needles.STATION_CODE env) (Needles.PLATFORM_ID env) r
           (sc ++ pc ++ nc)%list = true ->
         Needles.rowIsCardigan env r sc pc nc = true))
  /\ (forall c : Strict.Columns,
       Strict.matchesStation env c r = true <->
       (exists col, Strict.stationCol c = Some col
                    /\ toUpperCase (trim (strOrEmpty (prop r col)))
                       = toUpperCase (Strict.STATION_CODE env))
       \/ (exists col, Strict.platformCol c = Some col
                       /\ toUpperCase (trim (strOrEmpty (prop r col)))
                          = toUpperCase (Strict.PLATFORM_ID env)))
  /\ (forall c : Fetch.Columns,
       (Fetch.isCardigan env c r = true <->
        (exists col, Fetch.instCol c = Some col
                     /\ norm (prop r col) <> ""
                     /\ digitsOnly (norm (prop r col))
                        = digitsOnly (Fetch.TARGET_INST env))
        \/ (exists col, Fetch.deployCol c = Some col
                        /\ (includes (lc (prop r col)) "cardigan" = true
                            \/ includes (lc (prop r col))
                                 (lc (Some (Fetch.STATION_CODE env))) = true))
        \/ lc (Some (Fetch.STATION_CODE env)) = "")
       /\ (forall col : string,
             Fetch.deployCol c = Some col ->
             lc (prop r col) = lc (Some (Fetch.STATION_CODE env)) ->
             Fetch.isCardigan env c r = true)).
Proof.
  split; [|split].
  - intros sc pc nc.
    assert (G : Needles.rowIsCardigan env r sc pc nc = true <->
                exists tok, In tok (Needles.needles env)
                            /\ includes (Needles.hayOf r sc pc nc) tok = true).
    { unfold Needles.rowIsCardigan. rewrite existsb_exists. reflexivity. }
    split; [exact G|]. split.
    + intros Hs Hp. rewrite G. split.
      * intros (tok & Hin & Hi).
        destruct (needles_barFree env tok Hs Hp Hin) as [Hb Hne].
        unfold Needles.hayOf in Hi. rewrite upper_join in Hi.
        apply includes_join_cell in Hi as (x & Hx & Hi); [|exact Hb|exact Hne].
        rewrite map_map in Hx. apply in_map_iff in Hx as (col & <- & Hcol).
        exists col, tok. repeat split; assumption.
      * intros (col & tok & Hcol & Hin & Hi). exists tok. split; [exact Hin|].
        apply (includes_trans _ _ _ (hay_includes_cell r _ col Hcol) Hi).
    + intros H. unfold Spec.exactCodeMatch in H.
      apply existsb_exists in H as (c & Hin & Hc).
      pose proof (hay_includes_cell r _ c Hin) as Hi.
      unfold Needles.rowIsCardigan, Needles.needles, Needles.hayOf. simpl existsb.
      apply orb_true_iff in Hc as [Hc|Hc]; apply String.eqb_eq in Hc;
        rewrite Hc in Hi; rewrite Hi; [reflexivity|apply orb_true_r].
  - intros c. unfold Strict.matchesStation, cell.
    assert (Es : String.eqb "" (toUpperCase (Strict.STATION_CODE env)) = false)
      by (apply empty_eqb_upper, envOr_nonempty; reflexivity).
    assert (Ep : String.eqb "" (toUpperCase (Strict.PLATFORM_ID env)) = false)
      by (apply empty_eqb_upper, envOr_nonempty; reflexivity).
    rewrite orb_true_iff. split.
    + intros [H|H].
      * destruct (Strict.stationCol c) as [col|]; [|rewrite Es in H; discriminate].
        left. exists col. split; [reflexivity|]. now apply String.eqb_eq.
      * destruct (Strict.platformCol c) as [col|]; [|rewrite Ep in H; discriminate].
        right. exists col. split; [reflexivity|]. now apply String.eqb_eq.
    + intros [(col & -> & H)|(col & -> & H)]; [left|right];
        simpl; now apply String.eqb_eq.
  - intros c. split.
    + unfold Fetch.isCardigan, cell. rewrite !orb_true_iff, andb_true_iff, negb_true_iff.
      split.
      * intros [[[Hne Hd]|Hc]|Hs].
        -- left. destruct (Fetch.instCol c) as [col|]; [|discriminate].
           exists col. split; [reflexivity|]. simpl colKey in *.
           split; [|now apply String.eqb_eq].
           intros E. rewrite E in Hne. discriminate.
        -- right. left. destruct (Fetch.deployCol c) as [col|]; [|discriminate].
           exists col. split; [reflexivity|]. now left.
        -- destruct (Fetch.deployCol c) as [col|].
           ++ right. left. exists col. split; [reflexivity|]. now right.
           ++ right. right. rewrite includes_empty_hay in Hs.
              destruct (lc (Some (Fetch.STATION_CODE env))); [reflexivity|discriminate].
      * intros [(col & -> & Hne & Hd)|[(col & -> & [Hc|Hs])|Hb]].
        -- left. left. simpl colKey. split; [|now apply String.eqb_eq].
           destruct (norm (prop r col)); [congruence|reflexivity].
        -- left. right. exact Hc.
        -- right. exact Hs.
        -- right. rewrite Hb. apply includes_empty_needle.
    + intros col Hc Hl. unfold Fetch.isCardigan, cell. rewrite Hc. simpl colKey.
      rewrite Hl, includes_refl. now rewrite !orb_true_r.
Qed.

Lemma station_signal_is_containment_witness :
  Spec.barFree (Needles.STATION_CODE Example.extEnv)
  /\ Spec.barFree (Needles.PLATFORM_ID Example.extEnv)
  /\ In "Station" (["Station"] ++ [] ++ [])%list
  /\ In "EXT" (Needles.needles Example.extEnv)
  /\ includes (toUpperCase (strOrEmpty (prop Example.textileRow "Station"))) "EXT" = true
  /\ Needles.rowIsCardigan Example.extEnv Example.textileRow ["Station"] [] [] = true
  /\ Fetch.deployCol (Fetch.columns ["Deployment"]) = Some "Deployment"
  /\ lc (prop [("Deployment", " Ext ")] "Deployment")
     = lc (Some (Fetch.STATION_CODE Example.extEnv))
  /\ Fetch.isCardigan Example.extEnv (Fetch.columns ["Deployment"])
       [("Deployment", " Ext ")] = true.
Proof.
  split; [reflexivity|]. split; [reflexivity|].
  split; [now left|]. split; [now left|]. split; [reflexivity|].
  split.
  - apply (proj2 (proj1 (proj2 (proj1 (station_signal_is_containment
                                         Example.extEnv Example.textileRow)
                                  ["Station"] [] []))
                    eq_refl eq_refl)).
    exists "Station", "EXT". split; [now left|]. split; [now left|reflexivity].
  - split; [reflexivity|]. split; [reflexivity|].
    apply (proj2 (proj2 (proj2 (station_signal_is_containment Example.extEnv
                                  [("Deployment", " Ext ")]))
                    (Fetch.columns ["Deployment"])) "Deployment"); reflexivity.
Defined.

(* ================================================================== *)
(** ** Further properties: the map of the reducer *)
(* ================================================================== *)

Import Reducer.

Lemma Key_eqb_neq (a b : Key) : Key_eqb a b = false <-> a <> b.
Proof. destruct a, b; simpl; split; congruence. Qed.

Lemma Key_eqb_sym (a b : Key) : Key_eqb a b = Key_eqb b a.
Proof. now destruct a, b. Qed.

Lemma getKey_setKey_other (fs : list (Key * num)) (k k' : Key) (v : num) :
  k' <> k -> getKey (setKey fs k v) k' = getKey fs k'.
Proof.
  intros Hk. induction fs as [|[k0 v0] fs IH]; simpl.
  - apply Key_eqb_neq in Hk. destruct (Key_eqb k k') eqn:E; [|reflexivity].
    apply Key_eqb_eq in E. subst. now rewrite Key_eqb_refl in Hk.
  - destruct (Key_eqb k0 k) eqn:E; simpl.
    + apply Key_eqb_eq in E. subst k0.
      destruct (Key_eqb k k') eqn:E'; [|reflexivity].
      apply Key_eqb_eq in E'. now subst.
    + now rewrite IH.
Qed.

Lemma get_has (m : TsMap) (t : string) : has m t = false -> get m t = None.
Proof.
  induction m as [|[k e] m IH]; simpl; [reflexivity|].
  intros H. apply orb_false_iff in H as [-> Hm]. now apply IH.
Qed.

Lemma get_app_fresh (m : TsMap) (t t' : string) (e : Entry) :
  has m t = false ->
  get (m ++ [(t, e)])%list t' = if String.eqb t t' then Some e else get m t'.
Proof.
  induction m as [|[k0 e0] m IH]; simpl; intros H.
  - reflexivity.
  - apply orb_false_iff in H as [Hk Hm].
    destruct (String.eqb k0 t') eqn:E.
    + apply String.eqb_eq in E. subst t'.
      destruct (String.eqb t k0) eqn:E'; [|reflexivity].
      apply String.eqb_eq in E'. subst. now rewrite String.eqb_refl in Hk.
    + now apply IH.
Qed.

Lemma get_assign_same (m : TsMap) (t : string) (k : Key) (v : num) :
  get (assign m t k v) t
  = match get m t with
    | Some e => Some (mkEntry (ts e) (setKey (fields e) k v))
    | None => None
    end.
Proof.
  induction m as [|[k0 e0] m IH]; simpl; [reflexivity|].
  destruct (String.eqb k0 t) eqn:E; simpl; rewrite E; [reflexivity|exact IH].
Qed.

Lemma get_assign_other (m : TsMap) (t t' : string) (k : Key) (v : num) :
  t' <> t -> get (assign m t k v) t' = get m t'.
Proof.
  intros Ht. induction m as [|[k0 e0] m IH]; simpl; [reflexivity|].
  destruct (String.eqb k0 t) eqn:E; simpl.
  - apply String.eqb_eq in E. subst k0.
    destruct (String.eqb t t') eqn:E'; [|reflexivity].
    apply String.eqb_eq in E'. now subst.
  - now rewrite IH.
Qed.

Lemma valueAt_record_eq (m : TsMap) (t t' : string) (k k' : Key) (v : num) :
  valueAt (record m t k v) t' k'
  = if String.eqb t' t && Key_eqb k' k then Some v else valueAt m t' k'.
Proof.
  unfold valueAt, record.
  destruct (String.eqb t' t) eqn:Et.
  - apply String.eqb_eq in Et. subst t'. rewrite get_assign_same.
    destruct (has m t) eqn:Eh.
    + destruct (get m t) as [e|] eqn:Eg; simpl.
      * destruct (Key_eqb k' k) eqn:Ek.
        -- apply Key_eqb_eq in Ek. subst. apply getKey_setKey.
        -- apply getKey_setKey_other. now apply Key_eqb_neq.
      * destruct (Key_eqb k' k) eqn:Ek; [|reflexivity].
        exfalso. clear - Eh Eg. induction m as [|[k0 e0] m IH]; simpl in *;
          [discriminate|].
        destruct (String.eqb k0 t); [discriminate|]. now apply IH.
    + rewrite (get_app_fresh m t t _ Eh), String.eqb_refl, (get_has m t Eh). simpl.
      destruct (Key_eqb k' k) eqn:Ek.
      * apply Key_eqb_eq in Ek. subst. now rewrite Key_eqb_refl.
      * destruct (Key_eqb k k') eqn:Ek'; [|reflexivity].
        apply Key_eqb_eq in Ek'. subst. now rewrite Key_eqb_refl in Ek.
  - simpl. apply String.eqb_neq in Et. rewrite (get_assign_other _ _ _ _ _ Et).
    destruct (has m t) eqn:Eh; [reflexivity|].
    rewrite (get_app_fresh m t t' _ Eh).
    destruct (String.eqb t t') eqn:E; [|reflexivity].
    apply String.eqb_eq in E. now subst.
Qed.

(** X1.  Insert and look up: after [record m t k v] the map holds [v] for
    [t] and [k], and every other timestamp and every other key reads as
    before. *)
Theorem valueAt_record (m : TsMap) (t t' : string) (k k' : Key) (v : num) :
  valueAt (record m t k v) t k = Some v
  /\ (t' <> t -> valueAt (record m t k v) t' k' = valueAt m t' k')
  /\ (k' <> k -> valueAt (record m t k v) t k' = valueAt m t k').
Proof.
  split; [|split].
  - now rewrite valueAt_record_eq, String.eqb_refl, Key_eqb_refl.
  - intros Ht. rewrite valueAt_record_eq.
    now rewrite (proj2 (String.eqb_neq t' t) Ht).
  - intros Hk. rewrite valueAt_record_eq, String.eqb_refl.
    now rewrite (proj2 (Key_eqb_neq k' k) Hk).
Qed.

Lemma record_keys (m : TsMap) (t : string) (k : Key) (v : num) :
  map fst (record m t k v)
  = if has m t then map fst m else (map fst m ++ [t])%list.
Proof.
  unfold record. rewrite assign_keys.
  destruct (has m t); [reflexivity|]. now rewrite map_app.
Qed.

Lemma setKey_setKey (fs : list (Key * num)) (k : Key) (v1 v2 : num) :
  setKey (setKey fs k v1) k v2 = setKey fs k v2.
Proof.
  induction fs as [|[k0 v0] fs IH]; simpl.
  - now rewrite Key_eqb_refl.
  - destruct (Key_eqb k0 k) eqn:E; simpl; rewrite E; [reflexivity|now rewrite IH].
Qed.

Lemma assign_assign (m : TsMap) (t : string) (k : Key) (v1 v2 : num) :
  assign (assign m t k v1) t k v2 = assign m t k v2.
Proof.
  induction m as [|[k0 e0] m IH]; simpl; [reflexivity|].
  destruct (String.eqb k0 t) eqn:E; simpl; rewrite E.
  - now rewrite setKey_setKey.
  - now rewrite IH.
Qed.

Lemma has_assign (m : TsMap) (t t' : string) (k : Key) (v : num) :
  has (assign m t k v) t' = has m t'.
Proof.
  induction m as [|[k0 e0] m IH]; simpl; [reflexivity|].
  destruct (String.eqb k0 t); simpl; [reflexivity|now rewrite IH].
Qed.

Lemma has_record (m : TsMap) (t : string) (k : Key) (v : num) :
  has (record m t k v) t = true.
Proof.
  unfold record. rewrite has_assign.
  destruct (has m t) eqn:E; [exact E|].
  rewrite has_app. simpl. rewrite String.eqb_refl. now rewrite orb_true_r.
Qed.

(** X2.  Last write wins inside the map: recording [v1] and then [v2] for
    the same timestamp and key leaves exactly the map that recording [v2]
    alone leaves; and [record] never drops or reorders a timestamp, it
    appends a new one at the end. *)
Theorem record_overwrites (m : TsMap) (t : string) (k : Key) (v1 v2 : num) :
  record (record m t k v1) t k v2 = record m t k v2
  /\ map fst (record m t k v1)
     = if has m t then map fst m else (map fst m ++ [t])%list.
Proof.
  split; [|apply record_keys].
  unfold record at 1. rewrite has_record.
  unfold record. now rewrite assign_assign.
Qed.

Lemma lastWrite_none (l : list Triple) (t : string) (k : Key) :
  lastWrite l t k = None <-> forall v, ~ In (t, k, v) l.
Proof.
  induction l as [|[[t0 k0] v0] l IH]; simpl.
  - split; [intros _ v []|reflexivity].
  - destruct (lastWrite l t k) as [v'|] eqn:E.
    + split; [discriminate|]. intros H. exfalso.
      assert (N : (None : option num) = None) by reflexivity.
      destruct IH as [_ IH]. 
      assert (A : forall v, ~ In (t, k, v) l) by (intros v Hv; apply (H v); now right).
      specialize (IH A). discriminate IH.
    + destruct (String.eqb t0 t && Key_eqb k0 k) eqn:Em.
      * split; [discriminate|]. intros H. exfalso.
        apply andb_true_iff in Em as [Et Ek].
        apply String.eqb_eq in Et. apply Key_eqb_eq in Ek. subst.
        apply (H v0). now left.
      * split; [|reflexivity]. intros _ v [A|A].
        -- inversion A; subst. rewrite String.eqb_refl, Key_eqb_refl in Em.
           discriminate.
        -- now apply (proj1 IH eq_refl v).
Qed.

Section ReducerLoop.

(** A loop over rows of which each turn records the triple of its row, if
    the row has one. *)
Context {R : Type}.
Variable tr : R -> option Triple.

Lemma in_triplesOf (rows : list R) (x : Triple) :
  In x (triplesOf tr rows) <-> exists r, In r rows /\ tr r = Some x.
Proof.
  induction rows as [|r rows IH]; simpl.
  - split; [intros []|intros (r & [] & _)].
  - destruct (tr r) as [y|] eqn:E; simpl; rewrite IH; split.
    + intros [->|(r' & Hr & Ht)]; [exists r; split; [now left|exact E]|].
      exists r'. split; [now right|exact Ht].
    + intros (r' & [<-|Hr] & Ht); [left; congruence|].
      right. now exists r'.
    + intros (r' & Hr & Ht). exists r'. split; [now right|exact Ht].
    + intros (r' & [<-|Hr] & Ht); [congruence|]. now exists r'.
Qed.

Lemma fold_valueAt (rows : list R) (m : TsMap) (t : string) (k : Key) :
  valueAt (fold_left (fun m r => applyTriple m (tr r)) rows m) t k
  = match lastWrite (triplesOf tr rows) t k with
    | Some v => Some v
    | None => valueAt m t k
    end.
Proof.
  revert m. induction rows as [|r rows IH]; intros m; simpl; [reflexivity|].
  rewrite IH. destruct (tr r) as [[[t0 k0] v0]|]; simpl; [|reflexivity].
  destruct (lastWrite (triplesOf tr rows) t k); [reflexivity|].
  rewrite valueAt_record_eq.
  rewrite (String.eqb_sym t t0), (Key_eqb_sym k k0).
  now destruct (String.eqb t0 t && Key_eqb k0 k).
Qed.

Lemma fold_keys (rows : list R) (m : TsMap) (t : string) :
  In t (map fst (fold_left (fun m r => applyTriple m (tr r)) rows m))
  <-> In t (map fst m) \/ exists k v, In (t, k, v) (triplesOf tr rows).
Proof.
  revert m. induction rows as [|r rows IH]; intros m; simpl.
  - split; [now left|]. intros [A|(k & v & [])]. exact A.
  - rewrite IH. destruct (tr r) as [[[t0 k0] v0]|]; simpl.
    + rewrite record_keys. split.
      * intros [A|(k & v & A)].
        -- destruct (has m t0); [now left|].
           apply in_app_or in A as [A|[<-|[]]]; [now left|].
           right. exists k0, v0. now left.
        -- right. exists k, v. now right.
      * intros [A|(k & v & [A|A])].
        -- left. destruct (has m t0); [exact A|]. apply in_or_app. now left.
        -- inversion A; subst. left. destruct (has m t) eqn:E.
           ++ clear - E. induction m as [|[k1 e1] m IH]; simpl in *; [discriminate|].
              apply orb_true_iff in E as [E|E];
                [left; now apply String.eqb_eq in E|right; now apply IH].
           ++ apply in_or_app. right. now left.
        -- right. now exists k, v.
    + reflexivity.
Qed.

Lemma lastWrite_split (rows : list R) (t : string) (k : Key) (v : num) :
  lastWrite (triplesOf tr rows) t k = Some v
  <-> exists pre r post,
        rows = (pre ++ r :: post)%list
        /\ tr r = Some (t, k, v)
        /\ forall r' v', In r' post -> tr r' <> Some (t, k, v').
Proof.
  induction rows as [|r0 rows IH]; simpl.
  - split; [discriminate|]. intros (pre & r & post & E & _).
    destruct pre; discriminate.
  - assert (Push : forall x,
              match lastWrite (triplesOf tr rows) t k with
              | Some v' => Some v'
              | None => x
              end = Some v
              <-> lastWrite (triplesOf tr rows) t k = Some v
                  \/ (lastWrite (triplesOf tr rows) t k = None /\ x = Some v)).
    { intros x. destruct (lastWrite (triplesOf tr rows) t k); split.
      - now left.
      - intros [A|[A _]]; [exact A|discriminate].
      - intros A. now right.
      - intros [A|[_ A]]; [discriminate|exact A]. }
    assert (Later : lastWrite (triplesOf tr rows) t k = None
                    <-> forall r' v', In r' rows -> tr r' <> Some (t, k, v')).
    { rewrite lastWrite_none. split.
      - intros H r' v' Hr Ht. apply (H v'). apply in_triplesOf. now exists r'.
      - intros H v' Hin. apply in_triplesOf in Hin as (r' & Hr & Ht).
        now apply (H r' v'). }
    split.
    + intros H.
      assert (C : lastWrite (triplesOf tr rows) t k = Some v
                  \/ (lastWrite (triplesOf tr rows) t k = None
                      /\ tr r0 = Some (t, k, v))).
      { destruct (tr r0) as [[[t0 k0] v0]|] eqn:E0; simpl in H.
        - apply Push in H as [A|[A B]]; [now left|]. right. split; [exact A|].
          destruct (String.eqb t0 t && Key_eqb k0 k) eqn:Em; [|discriminate].
          apply andb_true_iff in Em as [Et Ek].
          apply String.eqb_eq in Et. apply Key_eqb_eq in Ek.
          inversion B. now subst.
        - now left. }
      destruct C as [A|[A B]].
      * apply IH in A as (pre & r & post & -> & Hr & Hp).
        exists (r0 :: pre), r, post. repeat split; assumption.
      * exists [], r0, rows. repeat split; [exact B|]. now apply Later.
    + intros (pre & r & post & E & Hr & Hp).
      destruct pre as [|p pre]; simpl in E; inversion E; subst.
      * rewrite Hr. simpl. apply Push. right. split; [now apply Later|].
        now rewrite String.eqb_refl, Key_eqb_refl.
      * assert (A : lastWrite (triplesOf tr (pre ++ r :: post)) t k = Some v).
        { apply IH. now exists pre, r, post. }
        destruct (tr p) as [[[t0 k0] v0]|]; simpl; [|exact A].
        now rewrite A.
Qed.

End ReducerLoop.

Lemma find_by_ts_unique (l : list Entry) (e : Entry) :
  NoDup (map ts l) -> In e l ->
  List.find (fun e' => String.eqb (ts e') (ts e)) l = Some e.
Proof.
  induction l as [|x l IH]; simpl; [intros _ []|].
  intros Hn [->|Hin].
  - now rewrite String.eqb_refl.
  - inversion Hn as [|? ? Hx Hl]; subst.
    destruct (String.eqb (ts x) (ts e)) eqn:E; [|now apply IH].
    apply String.eqb_eq in E. exfalso. apply Hx. rewrite E. now apply in_map.
Qed.

Lemma find_by_ts_none (l : list Entry) (t : string) :
  ~ In t (map ts l) -> List.find (fun e' => String.eqb (ts e') t) l = None.
Proof.
  induction l as [|x l IH]; simpl; [reflexivity|].
  intros H. destruct (String.eqb (ts x) t) eqn:E.
  - apply String.eqb_eq in E. exfalso. apply H. now left.
  - apply IH. intros A. apply H. now right.
Qed.

Lemma keyed_get_some (m : TsMap) (t : string) (e : Entry) :
  keyed m -> get m t = Some e -> In e (values m) /\ ts e = t.
Proof.
  intros [_ Hf]. induction Hf as [|[k0 e0] m Hp _ IH]; simpl; [discriminate|].
  destruct (String.eqb k0 t) eqn:E.
  - intros A. inversion A; subst. apply String.eqb_eq in E. simpl in Hp.
    split; [now left|congruence].
  - intros A. destruct (IH A) as [B C]. split; [now right|exact C].
Qed.

Lemma keyed_get_none (m : TsMap) (t : string) :
  keyed m -> get m t = None -> ~ In t (map ts (values m)).
Proof.
  intros [_ Hf]. induction Hf as [|[k0 e0] m Hp _ IH]; simpl; [tauto|].
  destruct (String.eqb k0 t) eqn:E; [discriminate|].
  intros A [B|B]; [|now apply IH].
  simpl in Hp. apply String.eqb_neq in E. congruence.
Qed.

(** Reading a value in the sorted series is reading it in the map. *)
Lemma valueIn_series (m : TsMap) (t : string) (k : Key) :
  keyed m -> valueIn (sortByTs (values m)) t k = valueAt m t k.
Proof.
  intros Hk. unfold valueIn, valueAt.
  destruct (get m t) as [e|] eqn:E.
  - destruct (keyed_get_some m t e Hk E) as [Hin <-].
    rewrite find_by_ts_unique; [reflexivity| |].
    + now apply sortByTs_unique, keyed_values_unique.
    + eapply Permutation_in; [apply Permutation_sym, sortBy_perm|exact Hin].
  - rewrite find_by_ts_none; [reflexivity|].
    intros A. apply (keyed_get_none m t Hk E).
    eapply Permutation_in; [|exact A].
    apply Permutation_map, sortBy_perm.
Qed.

Lemma fetch_step_applyTriple (h : Host) (env : Env) (c : Fetch.Columns)
  (m : TsMap) (r : Row) :
  Fetch.step h env c m r = applyTriple m (fetchTriple h env c r).
Proof.
  unfold Fetch.step, fetchTriple.
  destruct (Fetch.isCardigan env c r); simpl; [|reflexivity].
  destruct (Fetch.toISO h _); [|reflexivity].
  destruct (Fetch.classifyParam _); [|reflexivity].
  now destruct (readValue _).
Qed.

Lemma fetchTriple_contributes (h : Host) (env : Env) (c : Fetch.Columns)
  (r : Row) (t : string) (k : Key) (v : num) :
  fetchTriple h env c r = Some (t, k, v) <-> fetchContributes h env c r t k v.
Proof.
  unfold fetchTriple, fetchContributes.
  destruct (Fetch.isCardigan env c r);
    [|split; [discriminate|intros (A & _); discriminate]].
  destruct (Fetch.toISO h _) as [t0|];
    [|split; [discriminate|intros (_ & A & _); discriminate]].
  destruct (Fetch.classifyParam _) as [k0|];
    [|split; [discriminate|intros (_ & _ & A & _); discriminate]].
  destruct (readValue _) as [v0|];
    [|split; [discriminate|intros (_ & _ & _ & A); discriminate]].
  split.
  - intros A. inversion A. now subst.
  - intros (_ & A & B & C). inversion A. inversion B. inversion C. now subst.
Qed.

Lemma fetch_byTs_fold (h : Host) (env : Env) (rows : list Row) :
  Fetch.byTsOf h env rows
  = fold_left (fun m r =>
                 applyTriple m (fetchTriple h env (Fetch.columns (headersOf rows)) r))
              rows [].
Proof.
  unfold Fetch.byTsOf. apply fold_left_ext. intros a r.
  apply fetch_step_applyTriple.
Qed.

Lemma fetch_byTs_keyed (h : Host) (env : Env) (rows : list Row) :
  keyed (Fetch.byTsOf h env rows).
Proof.
  unfold Fetch.byTsOf. apply fold_keyed; [apply fetch_step_cases|exact keyed_nil].
Qed.

(** X3.  Last occurrence in input order wins (fetch_cefas.mjs): the series
    holds the value [v] under timestamp [t] and key [k] exactly when some
    row passes the four guards of the loop with [t], [k] and [v], and no
    later row passes them with the same [t] and [k]. *)
Theorem fetch_last_row_wins (h : Host) (env : Env) (rows : list Row)
  (t : string) (k : Key) (v : num) :
  valueIn (Fetch.series h env rows) t k = Some v
  <-> exists pre r post,
        rows = (pre ++ r :: post)%list
        /\ fetchContributes h env (Fetch.columns (headersOf rows)) r t k v
        /\ forall r' v', In r' post ->
             ~ fetchContributes h env (Fetch.columns (headersOf rows)) r' t k v'.
Proof.
  unfold Fetch.series.
  rewrite (valueIn_series _ t k (fetch_byTs_keyed h env rows)).
  rewrite fetch_byTs_fold, fold_valueAt. simpl.
  set (tr := fetchTriple h env (Fetch.columns (headersOf rows))).
  assert (E : match lastWrite (triplesOf tr rows) t k with
              | Some v0 => Some v0
              | None => None
              end = lastWrite (triplesOf tr rows) t k)
    by now destruct (lastWrite (triplesOf tr rows) t k).
  unfold valueAt. simpl. rewrite E, lastWrite_split.
  split; intros (pre & r & post & Hs & Hr & Hp); exists pre, r, post;
    (split; [exact Hs|]); split.
  - now apply fetchTriple_contributes.
  - intros r' v' Hin A. apply (Hp r' v' Hin). now apply fetchTriple_contributes.
  - now apply fetchTriple_contributes.
  - intros r' v' Hin A. apply (Hp r' v' Hin). now apply fetchTriple_contributes.
Qed.

(** X4.  No timestamp is invented and none is lost (fetch_cefas.mjs): a
    timestamp occurs in the series exactly when some row passes the four
    guards of the loop with it. *)
Theorem fetch_series_timestamps (h : Host) (env : Env) (rows : list Row)
  (t : string) :
  In t (map ts (Fetch.series h env rows))
  <-> exists r k v,
        In r rows
        /\ fetchContributes h env (Fetch.columns (headersOf rows)) r t k v.
Proof.
  unfold Fetch.series.
  assert (P : In t (map ts (sortByTs (values (Fetch.byTsOf h env rows))))
              <-> In t (map fst (Fetch.byTsOf h env rows))).
  { pose proof (fetch_byTs_keyed h env rows) as [_ Hf].
    assert (E : map ts (values (Fetch.byTsOf h env rows))
                = map fst (Fetch.byTsOf h env rows)).
    { unfold values. rewrite map_map.
      induction Hf as [|p m Hp _ IH]; simpl; [reflexivity|]. now rewrite Hp, IH. }
    rewrite <- E. split; intros A.
    - eapply Permutation_in; [|exact A]. apply Permutation_map, sortBy_perm.
    - eapply Permutation_in; [|exact A].
      apply Permutation_map, Permutation_sym, sortBy_perm. }
  rewrite P, fetch_byTs_fold, fold_keys. simpl. split.
  - intros [[]|(k & v & A)]. apply in_triplesOf in A as (r & Hr & Ht).
    exists r, k, v. split; [exact Hr|]. now apply fetchTriple_contributes.
  - intros (r & k & v & Hr & Hc). right. exists k, v. apply in_triplesOf.
    exists r. split; [exact Hr|]. now apply fetchTriple_contributes.
Qed.

(* ================================================================== *)
(** ** Further properties: what every record of a series looks like *)
(* ================================================================== *)

Lemma setKey_keys_in (fs : list (Key * num)) (k : Key) (v : num) (k' : Key) :
  In k' (map fst (setKey fs k v)) <-> k' = k \/ In k' (map fst fs).
Proof.
  induction fs as [|[k0 v0] fs IH]; simpl.
  - intuition congruence.
  - destruct (Key_eqb k0 k) eqn:E; simpl.
    + apply Key_eqb_eq in E. subst. intuition.
    + rewrite IH. intuition.
Qed.

Lemma setKey_wellFormed (t : string) (fs : list (Key * num)) (k : Key) (v : num) :
  isFinite v = true ->
  NoDup (map fst fs) ->
  Forall (fun p => isFinite (snd p) = true) fs ->
  wellFormed (mkEntry t (setKey fs k v)).
Proof.
  intros Hv Hn Hf. unfold wellFormed. simpl. split; [|split].
  - destruct fs as [|[k0 v0] fs]; simpl; [discriminate|].
    destruct (Key_eqb k0 k); discriminate.
  - induction fs as [|[k0 v0] fs IH]; simpl.
    + constructor; [intros []|constructor].
    + inversion Hn as [|? ? Hx Hl]; subst. inversion Hf; subst.
      destruct (Key_eqb k0 k) eqn:E; simpl; [now constructor|].
      constructor; [|now apply IH].
      rewrite setKey_keys_in. intros [->|A]; [|now apply Hx].
      now rewrite Key_eqb_refl in E.
  - induction Hf as [|[k0 v0] fs Hp Hf IH]; simpl.
    + now repeat constructor.
    + inversion Hn; subst.
      destruct (Key_eqb k0 k); constructor; auto.
Qed.

Lemma assign_wellFormed (m : TsMap) (t : string) (k : Key) (v : num) :
  isFinite v = true ->
  Forall wellFormed (values m) -> Forall wellFormed (values (assign m t k v)).
Proof.
  intros Hv. unfold values. induction m as [|[k0 e0] m IH]; simpl; intros H;
    [constructor|].
  inversion H as [|? ? He Hm]; subst.
  destruct (String.eqb k0 t); simpl; constructor; auto.
  destruct He as (_ & Hn & Hf). now apply setKey_wellFormed.
Qed.

Lemma assign_fresh (m : TsMap) (t : string) (e : Entry) (k : Key) (v : num) :
  has m t = false ->
  assign (m ++ [(t, e)])%list t k v
  = (m ++ [(t, mkEntry (ts e) (setKey (fields e) k v))])%list.
Proof.
  induction m as [|[k0 e0] m IH]; simpl; intros H.
  - now rewrite String.eqb_refl.
  - apply orb_false_iff in H as [-> Hm]. now rewrite IH.
Qed.

Lemma record_wellFormed (m : TsMap) (t : string) (k : Key) (v : num) :
  isFinite v = true ->
  Forall wellFormed (values m) -> Forall wellFormed (values (record m t k v)).
Proof.
  intros Hv H. unfold record. destruct (has m t) eqn:E.
  - now apply assign_wellFormed.
  - rewrite (assign_fresh m t _ k v E). unfold values in *. rewrite map_app.
    apply Forall_app. split; [exact H|]. constructor; [|constructor].
    apply (setKey_wellFormed t [] k v); [exact Hv|constructor|constructor].
Qed.

Lemma readValue_finite (c : option string) (v : num) :
  readValue c = Some v -> isFinite v = true.
Proof.
  unfold readValue. destruct (isFinite (parseFloat _)) eqn:E; [|discriminate].
  intros A. inversion A. now subst.
Qed.

Section FiniteLoop.

(** A loop whose every turn leaves the map alone or records a finite
    value. *)
Context {R : Type}.
Variable turn : TsMap -> R -> TsMap.
Hypothesis turn_finite :
  forall m r, turn m r = m
              \/ exists t k v, isFinite v = true /\ turn m r = record m t k v.

Lemma fold_wellFormed (rows : list R) (m : TsMap) :
  Forall wellFormed (values m) ->
  Forall wellFormed (values (fold_left turn rows m)).
Proof.
  revert m. induction rows as [|r rows IH]; intros m Hm; simpl; [exact Hm|].
  apply IH. destruct (turn_finite m r) as [->|(t & k & v & Hv & ->)]; [exact Hm|].
  now apply record_wellFormed.
Qed.

Lemma sorted_fold_wellFormed (rows : list R) :
  Forall wellFormed (sortByTs (values (fold_left turn rows []))).
Proof.
  apply Forall_forall. intros e He.
  assert (A : In e (values (fold_left turn rows []))).
  { eapply Permutation_in; [apply sortBy_perm|exact He]. }
  clear He. revert e A. apply Forall_forall. apply fold_wellFormed. constructor.
Qed.

End FiniteLoop.

Lemma fetch_step_finite (h : Host) (env : Env) (c : Fetch.Columns) (m : TsMap) (r : Row) :
  Fetch.step h env c m r = m
  \/ exists t k v, isFinite v = true /\ Fetch.step h env c m r = record m t k v.
Proof.
  unfold Fetch.step.
  destruct (negb (Fetch.isCardigan env c r)); [now left|].
  destruct (Fetch.toISO h _) as [t|]; [|now left].
  destruct (Fetch.classifyParam _) as [k|]; [|now left].
  destruct (readValue _) as [v|] eqn:E; [|now left].
  right. exists t, k, v. split; [now apply (readValue_finite _ _ E)|reflexivity].
Qed.

Lemma shape_longStep_finite (h : Host) (env : Env) (fc : list string)
  (tc vc pc : option string) (m : TsMap) (r : Row) :
  Shape.longStep h env fc tc vc pc m r = m
  \/ exists t k v, isFinite v = true
                   /\ Shape.longStep h env fc tc vc pc m r = record m t k v.
Proof.
  unfold Shape.longStep.
  destruct (negb (Shape.looksLikeCardigan env _)); [now left|].
  destruct (Shape.toISO h _) as [t|]; [|now left].
  destruct (Shape.classifyLongParam _) as [k|]; [|now left].
  destruct (readValue _) as [v|] eqn:E; [|now left].
  right. exists t, k, v. split; [now apply (readValue_finite _ _ E)|reflexivity].
Qed.

Lemma needles_step_finite (h : Host) (c : Needles.Columns) (m : TsMap) (r : Row) :
  Needles.step h c m r = m
  \/ exists t k v, isFinite v = true /\ Needles.step h c m r = record m t k v.
Proof.
  unfold Needles.step.
  destruct (Needles.toISO h _) as [t|]; [|now left].
  destruct (Needles.classifyParam _) as [k|]; [|now left].
  destruct (readValueRaw _) as [v|] eqn:E; [|now left].
  right. exists t, k, v. split; [|reflexivity].
  rewrite readValueRaw_readValue in E. now apply (readValue_finite _ _ E).
Qed.

Lemma wideFields_wellFormed (wm : Shape.WideMap) (r : Row) (t : string) :
  Shape.wideFields wm r <> [] -> wellFormed (mkEntry t (Shape.wideFields wm r)).
Proof.
  intros Hne. unfold wellFormed. simpl. split; [exact Hne|].
  unfold Shape.wideFields.
  assert (G : forall keys fs,
            NoDup (map fst fs) /\ Forall (fun p => isFinite (snd p) = true) fs ->
            let out := fold_left
              (fun fs key =>
                 match Shape.getWide wm key with
                 | None => fs
                 | Some col =>
                     if isEmptyStr col then fs
                     else match readValue (prop r col) with
                          | Some val => setKey fs key val
                          | None => fs
                          end
                 end) keys fs in
            NoDup (map fst out) /\ Forall (fun p => isFinite (snd p) = true) out).
  { induction keys as [|key keys IH]; intros fs H; simpl; [exact H|].
    apply IH.
    destruct (Shape.getWide wm key) as [col|]; [|exact H].
    destruct (isEmptyStr col); [exact H|].
    destruct (readValue (prop r col)) as [val|] eqn:E; [|exact H].
    destruct H as [Hn Hf].
    destruct (setKey_wellFormed "" fs key val (readValue_finite _ _ E) Hn Hf)
      as (_ & A & B).
    split; assumption. }
  apply (G [hm0; tp; tz; dir] []). split; constructor.
Qed.

Lemma wideStep_wellFormed (h : Host) (env : Env) (fc : list string)
  (tc : option string) (wm : Shape.WideMap) (acc : list Entry) (r : Row) :
  Forall wellFormed acc -> Forall wellFormed (Shape.wideStep h env fc tc wm acc r).
Proof.
  intros H. unfold Shape.wideStep.
  destruct (negb (Shape.looksLikeCardigan env _)); [exact H|].
  destruct (Shape.toISO h _) as [t|]; [|exact H].
  destruct (Shape.wideFields wm r) as [|p fs] eqn:E; [exact H|].
  apply Forall_app. split; [exact H|]. constructor; [|constructor].
  rewrite <- E. apply wideFields_wellFormed. rewrite E. discriminate.
Qed.

Lemma wide_fold_wellFormed (h : Host) (env : Env) (fc : list string)
  (tc : option string) (wm : Shape.WideMap) (rows : list Row) (acc : list Entry) :
  Forall wellFormed acc ->
  Forall wellFormed (fold_left (Shape.wideStep h env fc tc wm) rows acc).
Proof.
  revert acc. induction rows as [|r rows IH]; intros acc Hacc; simpl; [exact Hacc|].
  apply IH. now apply wideStep_wellFormed.
Qed.

(** X5.  In fetch_cefas.mjs, in both branches of part_001 and in part_002,
    each record of the series carries at least one canonical field, carries
    no key twice, and carries finite numbers only: neither NaN nor an
    infinity is ever written. *)
Theorem series_records_wellFormed (h : Host) (env : Env) (rows : list Row) :
  Forall wellFormed (Fetch.series h env rows)
  /\ Forall wellFormed (Shape.series h env rows)
  /\ Forall wellFormed (Needles.series h env rows).
Proof.
  split; [|split].
  - apply sorted_fold_wellFormed. apply fetch_step_finite.
  - unfold Shape.series. apply Forall_forall. intros e He.
    assert (A : In e (if Shape.isWide (headersOf rows)
                      then Shape.wideSeries h env rows
                      else Shape.longSeries h env rows)).
    { eapply Permutation_in; [apply sortBy_perm|exact He]. }
    clear He. revert e A. apply Forall_forall.
    destruct (Shape.isWide (headersOf rows)).
    + unfold Shape.wideSeries. apply wide_fold_wellFormed. constructor.
    + unfold Shape.longSeries. destruct (Shape.longCols (headersOf rows)).
      apply sorted_fold_wellFormed. apply shape_longStep_finite.
  - apply sorted_fold_wellFormed. apply needles_step_finite.
Qed.

(* ================================================================== *)
(** ** Further properties: the sort and the latest record *)
(* ================================================================== *)

Lemma tsLe_refl (e : Entry) : tsLe e e.
Proof. apply localeLeb_refl. Qed.

Lemma tsLe_trans (a b c : Entry) : tsLe a b -> tsLe b c -> tsLe a c.
Proof. apply localeLeb_trans. Qed.

Lemma sortByTs_of_sorted (l : list Entry) : Sorted tsLe l -> sortByTs l = l.
Proof.
  unfold sortByTs. induction 1 as [|x l Hs IH Hh]; simpl; [reflexivity|].
  rewrite IH.
  destruct Hh as [|y l Hxy]; simpl; [reflexivity|].
  unfold tsLe in Hxy. now rewrite Hxy.
Qed.

Lemma insertBy_filter (t : string) (x : Entry) (l : list Entry) :
  filter (fun e => String.eqb (ts e) t) (insertBy tsLeb x l)
  = filter (fun e => String.eqb (ts e) t) (x :: l).
Proof.
  induction l as [|y l IH]; simpl; [reflexivity|].
  destruct (tsLeb x y) eqn:E; simpl; [reflexivity|].
  rewrite IH. simpl.
  destruct (String.eqb (ts x) t) eqn:Ex, (String.eqb (ts y) t) eqn:Ey;
    try reflexivity.
  apply String.eqb_eq in Ex, Ey. unfold tsLeb in E.
  rewrite Ex, Ey, localeLeb_refl in E. discriminate.
Qed.

(** X6.  The sort is stable and changes nothing in a sorted series: records
    with the same timestamp keep the order in which they were pushed, and
    sorting twice, as part_001 does, is sorting once. *)
Theorem sort_is_stable (l : list Entry) :
  (forall t, filter (fun e => String.eqb (ts e) t) (sortByTs l)
             = filter (fun e => String.eqb (ts e) t) l)
  /\ sortByTs (sortByTs l) = sortByTs l
  /\ Permutation (sortByTs l) l.
Proof.
  split; [|split].
  - intros t. unfold sortByTs. induction l as [|x l IH]; [reflexivity|].
    cbn [sortBy]. rewrite insertBy_filter. cbn [filter]. now rewrite IH.
  - apply sortByTs_of_sorted, sortByTs_sorted.
  - apply sortBy_perm.
Qed.

Lemma sorted_last_greatest (l : list Entry) (z : Entry) :
  Sorted tsLe l -> lastEntry l = Some z -> forall e, In e l -> tsLe e z.
Proof.
  unfold lastEntry. induction 1 as [|x l Hs IH Hh]; simpl; [discriminate|].
  destruct l as [|y l]; simpl in *.
  - intros A e [<-|[]]. inversion A. apply tsLe_refl.
  - intros A e [<-|Hin]; [|now apply IH].
    inversion Hh; subst. apply (tsLe_trans _ y); [assumption|].
    apply IH; [exact A|now left].
Qed.

Lemma lastEntry_none (l : list Entry) : lastEntry l = None <-> l = [].
Proof.
  unfold lastEntry. split; [|now intros ->].
  induction l as [|x l IH]; simpl; [reflexivity|].
  destruct l as [|y l]; [discriminate|]. intros A. specialize (IH A). discriminate.
Qed.

Lemma lastEntry_in (l : list Entry) (z : Entry) : lastEntry l = Some z -> In z l.
Proof.
  unfold lastEntry. induction l as [|x l IH]; simpl; [discriminate|].
  destruct l as [|y l]; simpl in *.
  - intros A. inversion A. now left.
  - intros A. right. now apply IH.
Qed.

(** X7.  The latest document of fetch_cefas.mjs: on a payload with rows the
    latest record is null exactly when the history is empty; otherwise it is
    a record of the history and no record of the history has a greater
    timestamp in the order of the host collation. *)
Theorem fetch_latest_is_greatest (h : Host) (env : Env) (r : Row) (rows : list Row) :
  exists s l,
    seriesOf (Fetch.main h env (Parsed (r :: rows))) = Some s
    /\ latestOf (Fetch.main h env (Parsed (r :: rows))) = Some l
    /\ (l = None <-> s = [])
    /\ forall z, l = Some z -> In z s /\ forall e, In e s -> tsLe e z.
Proof.
  exists (Fetch.series h env (r :: rows)), (lastEntry (Fetch.series h env (r :: rows))).
  split; [reflexivity|]. split; [reflexivity|]. split; [apply lastEntry_none|].
  intros z Hz. split; [now apply lastEntry_in|].
  apply sorted_last_greatest; [apply sortByTs_sorted|exact Hz].
Qed.

(** X8.  The long-shape loops of fetch_cefas.mjs and part_002, and the
    long branch of part_001, write a series that is sorted by timestamp, in
    the order of the host collation, and holds every timestamp once. *)
Theorem long_series_sorted_unique (h : Host) (env : Env) (rows : list Row) :
  (Sorted tsLe (Fetch.series h env rows) /\ NoDup (map ts (Fetch.series h env rows)))
  /\ (Sorted tsLe (Needles.series h env rows)
      /\ NoDup (map ts (Needles.series h env rows)))
  /\ (Shape.isWide (headersOf rows) = false ->
      Sorted tsLe (Shape.series h env rows)
      /\ NoDup (map ts (Shape.series h env rows))).
Proof.
  assert (Weaken : forall (R : Type) (f : TsMap -> R -> TsMap),
            (forall m r, f m r = m
                         \/ exists t k v, isFinite v = true /\ f m r = record m t k v) ->
            forall m r, f m r = m \/ exists t k v, f m r = record m t k v).
  { intros R f H m r. destruct (H m r) as [A|(t & k & v & _ & A)]; [now left|].
    right. now exists t, k, v. }
  split; [apply fetch_series_sorted_unique|]. split.
  - split; [apply sortByTs_sorted|].
    apply sortByTs_unique, keyed_values_unique, fold_keyed; [|exact keyed_nil].
    apply Weaken, needles_step_finite.
  - apply shape_long_series_sorted_unique.
Qed.

Lemma long_series_sorted_unique_witness :
  map ts (Shape.series Example.utcHost Example.extEnv Sample.signedRows)
  = ["-000001-01-01T00:00:00.000Z"; "+010000-01-01T00:00:00.000Z";
     "2024-06-01T12:00:00.000Z"]
  /\ Shape.isWide (headersOf Sample.signedRows) = false
  /\ Sorted tsLe (Shape.series Example.utcHost Example.extEnv Sample.signedRows)
  /\ NoDup (map ts (Shape.series Example.utcHost Example.extEnv Sample.signedRows)).
Proof.
  split; [vm_compute; reflexivity|]. split; [reflexivity|].
  apply (proj2 (proj2 (long_series_sorted_unique Example.utcHost
                         Example.extEnv Sample.signedRows))).
  reflexivity.
Defined.

(* ================================================================== *)
(** ** Further properties: the Header Classifier *)
(* ================================================================== *)

Section Picking.

(** The fold applied to headers and candidates alike: [lc] in
    fetch_cefas.mjs and part_001, [toLowerCase] in part_000 and part_002. *)
Variable fold : string -> string.

Lemma firstHeaderVia_some (p : string -> bool) (headers : list string) (hd : string) :
  firstHeaderVia fold p headers = Some hd
  <-> exists pre post,
        headers = (pre ++ hd :: post)%list
        /\ p (fold hd) = true
        /\ forall x, In x pre -> p (fold x) = false.
Proof.
  induction headers as [|x headers IH]; simpl.
  - split; [discriminate|]. intros (pre & post & E & _). destruct pre; discriminate.
  - destruct (p (fold x)) eqn:E.
    + split.
      * intros A. inversion A; subst. exists [], headers.
        repeat split; [exact E|intros y []].
      * intros (pre & post & Eh & Hp & Hpre).
        destruct pre as [|y pre]; simpl in Eh; inversion Eh; subst; [reflexivity|].
        rewrite (Hpre y (or_introl eq_refl)) in E. discriminate.
    + rewrite IH. split.
      * intros (pre & post & -> & Hp & Hpre). exists (x :: pre), post.
        repeat split; [exact Hp|]. intros y [<-|Hy]; [exact E|now apply Hpre].
      * intros (pre & post & Eh & Hp & Hpre).
        destruct pre as [|y pre]; simpl in Eh; inversion Eh; subst.
        -- rewrite Hp in E. discriminate.
        -- exists pre, post. repeat split; [exact Hp|].
           intros z Hz. apply Hpre. now right.
Qed.

Lemma firstHeaderVia_none (p : string -> bool) (headers : list string) :
  firstHeaderVia fold p headers = None
  <-> forall x, In x headers -> p (fold x) = false.
Proof.
  induction headers as [|x headers IH]; simpl.
  - split; [intros _ y []|reflexivity].
  - destruct (p (fold x)) eqn:E.
    + split; [discriminate|]. intros H. rewrite (H x (or_introl eq_refl)) in E.
      discriminate.
    + rewrite IH. split.
      * intros H y [<-|Hy]; [exact E|now apply H].
      * intros H y Hy. apply H. now right.
Qed.

Lemma pickExactVia_some (headers names : list string) (hd : string) :
  pickExactVia fold headers names = Some hd
  <-> exists pre n post,
        names = (pre ++ n :: post)%list
        /\ firstHeaderVia fold (String.eqb (fold n)) headers = Some hd
        /\ forall n' x, In n' pre -> In x headers -> fold x <> fold n'.
Proof.
  induction names as [|n names IH]; simpl.
  - split; [discriminate|]. intros (pre & n & post & E & _). destruct pre; discriminate.
  - destruct (firstHeaderVia fold (String.eqb (fold n)) headers) as [h0|] eqn:E.
    + split.
      * intros A. inversion A; subst. exists [], n, names.
        repeat split; [exact E|intros n' x []].
      * intros (pre & n1 & post & En & Hf & Hpre).
        destruct pre as [|q pre]; simpl in En; inversion En; subst; [congruence|].
        exfalso. apply firstHeaderVia_some in E as (a & b & -> & Hp & _).
        apply String.eqb_eq in Hp.
        apply (Hpre q h0 (or_introl eq_refl)); [|now symmetry].
        apply in_or_app. right. now left.
    + rewrite IH. split.
      * intros (pre & n1 & post & -> & Hf & Hpre). exists (n :: pre), n1, post.
        repeat split; [exact Hf|]. intros n' x [<-|Hn] Hx; [|now apply Hpre].
        pose proof (proj1 (firstHeaderVia_none _ _) E x Hx) as A.
        apply String.eqb_neq in A. congruence.
      * intros (pre & n1 & post & En & Hf & Hpre).
        destruct pre as [|q pre]; simpl in En; inversion En; subst; [congruence|].
        exists pre, n1, post. repeat split; [exact Hf|].
        intros n' x Hn Hx. apply Hpre; [now right|exact Hx].
Qed.

Lemma pickExactVia_none (headers names : list string) :
  pickExactVia fold headers names = None
  <-> forall n x, In n names -> In x headers -> fold x <> fold n.
Proof.
  induction names as [|n names IH]; simpl.
  - split; [intros _ n x []|reflexivity].
  - destruct (firstHeaderVia fold (String.eqb (fold n)) headers) as [h0|] eqn:E.
    + split; [discriminate|]. intros H. exfalso.
      apply firstHeaderVia_some in E as (a & b & -> & Hp & _).
      apply String.eqb_eq in Hp.
      apply (H n h0 (or_introl eq_refl)); [|now symmetry].
      apply in_or_app. right. now left.
    + rewrite IH. split.
      * intros H n' x [<-|Hn] Hx; [|now apply H].
        pose proof (proj1 (firstHeaderVia_none _ _) E x Hx) as A.
        apply String.eqb_neq in A. congruence.
      * intros H n' x Hn Hx. apply H; [now right|exact Hx].
Qed.

Lemma pickLooseVia_some (headers needles : list string) (hd : string) :
  pickLooseVia fold headers needles = Some hd
  <-> exists pre n post,
        needles = (pre ++ n :: post)%list
        /\ firstHeaderVia fold (fun x => includes x (fold n)) headers = Some hd
        /\ forall n' x, In n' pre -> In x headers -> includes (fold x) (fold n') = false.
Proof.
  induction needles as [|n needles IH]; simpl.
  - split; [discriminate|]. intros (pre & n & post & E & _). destruct pre; discriminate.
  - destruct (firstHeaderVia fold (fun x => includes x (fold n)) headers)
      as [h0|] eqn:E.
    + split.
      * intros A. inversion A; subst. exists [], n, needles.
        repeat split; [exact E|intros n' x []].
      * intros (pre & n1 & post & En & Hf & Hpre).
        destruct pre as [|q pre]; simpl in En; inversion En; subst; [congruence|].
        exfalso. apply firstHeaderVia_some in E as (a & b & -> & Hp & _).
        rewrite (Hpre q h0 (or_introl eq_refl)) in Hp; [discriminate|].
        apply in_or_app. right. now left.
    + rewrite IH. split.
      * intros (pre & n1 & post & -> & Hf & Hpre). exists (n :: pre), n1, post.
        repeat split; [exact Hf|]. intros n' x [<-|Hn] Hx; [|now apply Hpre].
        exact (proj1 (firstHeaderVia_none _ _) E x Hx).
      * intros (pre & n1 & post & En & Hf & Hpre).
        destruct pre as [|q pre]; simpl in En; inversion En; subst; [congruence|].
        exists pre, n1, post. repeat split; [exact Hf|].
        intros n' x Hn Hx. apply Hpre; [now right|exact Hx].
Qed.

Lemma pickLooseVia_none (headers needles : list string) :
  pickLooseVia fold headers needles = None
  <-> forall n x, In n needles -> In x headers -> includes (fold x) (fold n) = false.
Proof.
  induction needles as [|n needles IH]; simpl.
  - split; [intros _ n x []|reflexivity].
  - destruct (firstHeaderVia fold (fun x => includes x (fold n)) headers)
      as [h0|] eqn:E.
    + split; [discriminate|]. intros H. exfalso.
      apply firstHeaderVia_some in E as (a & b & -> & Hp & _).
      rewrite (H n h0 (or_introl eq_refl)) in Hp; [discriminate|].
      apply in_or_app. right. now left.
    + rewrite IH. split.
      * intros H n' x [<-|Hn] Hx; [|now apply H].
        exact (proj1 (firstHeaderVia_none _ _) E x Hx).
      * intros H n' x Hn Hx. apply H; [now right|exact Hx].
Qed.

(** X9.  What a resolved column is: the header returned is one of the
    headers; it equals an exact candidate after folding, or no header equals
    any exact candidate and it contains a loose needle.  The role is
    unresolved exactly when no header equals an exact candidate and none
    contains a needle. *)
Theorem pick_sound_and_complete (headers exact loose : list string) :
  (forall hd,
     pickBoth fold headers exact loose = Some hd ->
     In hd headers
     /\ ((exists n, In n exact /\ fold hd = fold n)
         \/ ((forall n x, In n exact -> In x headers -> fold x <> fold n)
             /\ exists n, In n loose /\ includes (fold hd) (fold n) = true)))
  /\ (pickBoth fold headers exact loose = None
      <-> (forall n x, In n exact -> In x headers -> fold x <> fold n)
          /\ (forall n x, In n loose -> In x headers ->
                includes (fold x) (fold n) = false)).
Proof.
  unfold pickBoth, orElse. split.
  - intros hd. destruct (pickExactVia fold headers exact) as [h0|] eqn:E.
    + intros A. inversion A; subst.
      apply pickExactVia_some in E as (pre & n & post & -> & Hf & _).
      apply firstHeaderVia_some in Hf as (a & b & -> & Hp & _).
      apply String.eqb_eq in Hp. split.
      * apply in_or_app. right. now left.
      * left. exists n. split; [apply in_or_app; right; now left|now symmetry].
    + intros A. pose proof (proj1 (pickExactVia_none _ _) E) as E'.
      apply pickLooseVia_some in A as (pre & n & post & -> & Hf & _).
      apply firstHeaderVia_some in Hf as (a & b & -> & Hp & _). split.
      * apply in_or_app. right. now left.
      * right. split; [exact E'|]. exists n.
        split; [apply in_or_app; right; now left|exact Hp].
  - destruct (pickExactVia fold headers exact) as [h0|] eqn:E.
    + split; [discriminate|]. intros [A _].
      pose proof (proj2 (pickExactVia_none _ _) A). congruence.
    + pose proof (proj1 (pickExactVia_none _ _) E) as E'.
      rewrite pickLooseVia_none. tauto.
Qed.

(** X10.  Priority: candidates are tried in list order before header order
    counts.  When no header equals an earlier exact candidate, the result is
    the first header equal to the candidate at hand, whatever the loose
    needles would match; and when no header equals any exact candidate and
    none contains an earlier needle, it is the first header containing the
    needle at hand. *)
Theorem pick_priority (headers pre post : list string) (n hd : string) :
  (forall loose,
     (forall n' x, In n' pre -> In x headers -> fold x <> fold n') ->
     firstHeaderVia fold (String.eqb (fold n)) headers = Some hd ->
     pickBoth fold headers (pre ++ n :: post)%list loose = Some hd)
  /\ (forall exact,
        (forall n' x, In n' exact -> In x headers -> fold x <> fold n') ->
        (forall n' x, In n' pre -> In x headers ->
           includes (fold x) (fold n') = false) ->
        firstHeaderVia fold (fun x => includes x (fold n)) headers = Some hd ->
        pickBoth fold headers exact (pre ++ n :: post)%list = Some hd).
Proof.
  unfold pickBoth, orElse. split.
  - intros loose Hpre Hf.
    assert (A : pickExactVia fold headers (pre ++ n :: post)%list = Some hd).
    { apply pickExactVia_some. exists pre, n, post. repeat split; assumption. }
    now rewrite A.
  - intros exact Hex Hpre Hf.
    rewrite (proj2 (pickExactVia_none _ _) Hex).
    apply pickLooseVia_some. exists pre, n, post. repeat split; assumption.
Qed.

End Picking.

Lemma pick_priority_witness :
  (forall n' x, In n' ["Date/Time"; "DateTime"; "SampleDateTime"; "Timestamp"] ->
                In x ["Local time"; "TIME"] -> lc (Some x) <> lc (Some n'))
  /\ firstHeaderVia (fun x => lc (Some x)) (String.eqb (lc (Some "Time")))
       ["Local time"; "TIME"] = Some "TIME"
  /\ pickBoth (fun x => lc (Some x)) ["Local time"; "TIME"]
       (["Date/Time"; "DateTime"; "SampleDateTime"; "Timestamp"] ++ "Time" :: ["Datetime"])%list
       ["date"; "time"] = Some "TIME".
Proof.
  assert (N : forall n' x,
            In n' ["Date/Time"; "DateTime"; "SampleDateTime"; "Timestamp"] ->
            In x ["Local time"; "TIME"] -> lc (Some x) <> lc (Some n')).
  { intros n' x Hn Hx. simpl in Hn, Hx.
    repeat (destruct Hn as [<-|Hn]; [repeat (destruct Hx as [<-|Hx];
      [vm_compute; discriminate|]); destruct Hx|]). destruct Hn. }
  split; [exact N|]. split; [reflexivity|].
  apply (proj1 (pick_priority (fun x => lc (Some x)) ["Local time"; "TIME"]
                  ["Date/Time"; "DateTime"; "SampleDateTime"; "Timestamp"]
                  ["Datetime"] "Time" "TIME") ["date"; "time"] N).
  reflexivity.
Defined.

Lemma pick_sound_and_complete_witness :
  pickBoth toLowerCase ["Sample Time"; "Value"] ["DateTime"; "Time"] ["time"]
  = Some "Sample Time"
  /\ In "Sample Time" ["Sample Time"; "Value"].
Proof.
  split; [reflexivity|].
  apply (proj1 (pick_sound_and_complete toLowerCase ["Sample Time"; "Value"]
                  ["DateTime"; "Time"] ["time"]) "Sample Time" eq_refl).
Defined.

(* ================================================================== *)
(** ** Further properties: the Row Selector at its edges *)
(* ================================================================== *)

(** X11.  No identity column, no match: a row is never selected when none
    of the columns the selector reads was resolved.  In part_002 this holds
    for every configuration; in fetch_cefas.mjs and part_001 it holds as long
    as the configured tokens are not blank. *)
Theorem no_identity_column_no_match (env : Env) (r : Row) :
  Needles.rowIsCardigan env r [] [] [] = false
  /\ (forall c : Fetch.Columns,
        Fetch.instCol c = None -> Fetch.deployCol c = None ->
        lc (Some (Fetch.STATION_CODE env)) <> "" ->
        Fetch.isCardigan env c r = false)
  /\ (lc (Some (Shape.STATION_CODE env)) <> "" ->
      lc (Some (Shape.PLATFORM_ID env)) <> "" ->
      Shape.looksLikeCardigan env (Shape.stationMatchPool r []) = false).
Proof.
  split; [|split].
  - unfold Needles.rowIsCardigan, Needles.hayOf, Needles.needles.
    change (toUpperCase (join "|" (map (fun c => strOrEmpty (prop r c))
                                       ([] ++ [] ++ [])%list))) with "".
    cbn [existsb]. rewrite !includes_empty_hay.
    unfold Needles.STATION_CODE, Needles.PLATFORM_ID.
    rewrite (toUpperCase_nonempty _ (envOr_nonempty (STATION_CODE_env env) "EXT" eq_refl)).
    now rewrite (toUpperCase_nonempty _
                   (envOr_nonempty (PLATFORM_ID_env env) "353~EXT" eq_refl)).
  - intros c Hi Hd Hs. unfold Fetch.isCardigan. rewrite Hi, Hd.
    cbv beta iota zeta. rewrite !includes_empty_hay.
    destruct (lc (Some (Fetch.STATION_CODE env))); [now contradiction Hs|reflexivity].
  - intros Hs Hp. unfold Shape.looksLikeCardigan, Shape.stationMatchPool.
    change (join " | " (map (fun c => lc (prop r c)) [])) with "".
    rewrite !includes_empty_hay.
    destruct (lc (Some (Shape.STATION_CODE env))); [now contradiction Hs|].
    destruct (lc (Some (Shape.PLATFORM_ID env))); [now contradiction Hp|reflexivity].
Qed.

Lemma no_identity_column_no_match_witness :
  Fetch.instCol (Fetch.columns (map fst Example.textileRow)) = None
  /\ Fetch.deployCol (Fetch.columns (map fst Example.textileRow)) = None
  /\ lc (Some (Fetch.STATION_CODE Example.extEnv)) <> ""
  /\ Fetch.isCardigan Example.extEnv (Fetch.columns (map fst Example.textileRow))
       Example.textileRow = false.
Proof.
  assert (N : lc (Some (Fetch.STATION_CODE Example.extEnv)) <> "") by discriminate.
  split; [reflexivity|]. split; [reflexivity|]. split; [exact N|].
  apply (proj1 (proj2 (no_identity_column_no_match Example.extEnv Example.textileRow))
           (Fetch.columns (map fst Example.textileRow)) eq_refl eq_refl N).
Defined.

(** X12.  A blank station code matches everything: when STATION_CODE holds
    white space only, [isCardigan] of fetch_cefas.mjs and [looksLikeCardigan]
    of part_001 accept every row, whatever its columns hold, because every
    text includes the empty token. *)
Theorem blank_station_code_selects_all (env : Env) :
  (lc (Some (Fetch.STATION_CODE env)) = "" ->
   forall c r, Fetch.isCardigan env c r = true)
  /\ (lc (Some (Shape.STATION_CODE env)) = "" ->
      forall pool, Shape.looksLikeCardigan env pool = true).
Proof.
  split.
  - intros H c r. unfold Fetch.isCardigan. rewrite H, includes_empty_needle.
    now rewrite !orb_true_r.
  - intros H pool. unfold Shape.looksLikeCardigan.
    now rewrite H, includes_empty_needle.
Qed.

Lemma blank_station_code_selects_all_witness :
  lc (Some (Fetch.STATION_CODE Sample.blankEnv)) = ""
  /\ Fetch.isCardigan Sample.blankEnv (Fetch.columns (map fst Example.textileRow))
       Example.textileRow = true
  /\ lc (Some (Shape.STATION_CODE Sample.blankEnv)) = ""
  /\ Shape.looksLikeCardigan Sample.blankEnv "another station" = true.
Proof.
  split; [reflexivity|].
  split; [apply (proj1 (blank_station_code_selects_all Sample.blankEnv) eq_refl)|].
  split; [reflexivity|].
  apply (proj2 (blank_station_code_selects_all Sample.blankEnv) eq_refl).
Defined.

(* ================================================================== *)
(** ** Further properties: timestamps *)
(* ================================================================== *)

Lemma daysBeforeMonth_bounds (l : bool) (m : Z) : 0 <= daysBeforeMonth l m <= 335.
Proof.
  unfold daysBeforeMonth. destruct l;
  (destruct m as [|p|p]; [lia| |lia]);
  repeat (destruct p as [p|p|]; try lia).
Qed.

Lemma digitVal_bound (c : ascii) : isDigit c = true -> (digitVal c <= 9)%N.
Proof.
  destruct c as [[|] [|] [|] [|] [|] [|] [|] [|]]; vm_compute; intros;
    congruence.
Qed.

Lemma two_bounds (a b : ascii) :
  isDigit a = true -> isDigit b = true -> 0 <= two a b <= 99.
Proof.
  intros Ha Hb. apply digitVal_bound in Ha, Hb. unfold two. lia.
Qed.

Lemma four_bounds (a b c d : ascii) :
  isDigit a = true -> isDigit b = true -> isDigit c = true -> isDigit d = true ->
  0 <= four a b c d <= 9999.
Proof.
  intros Ha Hb Hc Hd. apply digitVal_bound in Ha, Hb, Hc, Hd. unfold four. lia.
Qed.

Lemma dateUTC_in_range (y mo d hh mi ss : Z) :
  0 <= y <= 9999 -> -1 <= mo <= 98 -> 0 <= d <= 99 ->
  0 <= hh <= 99 -> 0 <= mi <= 99 -> 0 <= ss <= 99 ->
  Z.abs (dateUTC y mo d hh mi ss) <= maxTime.
Proof.
  intros Hy Hmo Hd Hh Hmi Hss.
  unfold dateUTC, makeDay, makeTime, dayFromYear, msPerDay, maxTime.
  set (yr := if (0 <=? y) && (y <=? 99) then 1900 + y else y).
  assert (Hyr : 100 <= yr <= 9999).
  { unfold yr. destruct (Z.leb_spec 0 y), (Z.leb_spec y 99); cbn [andb]; lia. }
  clearbody yr.
  pose proof (daysBeforeMonth_bounds (isLeap (yr + mo / 12)) (mo mod 12)) as HD.
  set (D := daysBeforeMonth (isLeap (yr + mo / 12)) (mo mod 12)) in *. clearbody D.
  apply Z.abs_le.
  Z.div_mod_to_equations. lia.
Qed.

Lemma matchClock_bounds (s : string) (hh mi ss : Z) :
  matchClock s = Some (hh, mi, ss) ->
  0 <= hh <= 99 /\ 0 <= mi <= 99 /\ 0 <= ss <= 99.
Proof.
  destruct s as [|sep [|h1 [|h2 [|c [|m1 [|m2 rest]]]]]];
    try (bits c); cbn; try discriminate.
  - intros A. inversion A. lia.
  - destruct ((Ascii.eqb sep " " || Ascii.eqb sep "T") && isDigit h1 && isDigit h2
              && isDigit m1 && isDigit m2) eqn:E; [|discriminate].
    apply andb_true_iff in E as [E Hm2]. apply andb_true_iff in E as [E Hm1].
    apply andb_true_iff in E as [E Hh2]. apply andb_true_iff in E as [_ Hh1].
    pose proof (two_bounds h1 h2 Hh1 Hh2). pose proof (two_bounds m1 m2 Hm1 Hm2).
    destruct rest as [|c' [|s1 [|s2 [|x rest]]]]; try (bits c'); cbn; try discriminate.
    + intros A. inversion A. lia.
    + destruct (isDigit s1 && isDigit s2) eqn:E'; [|discriminate].
      apply andb_true_iff in E' as [Hs1 Hs2].
      pose proof (two_bounds s1 s2 Hs1 Hs2).
      intros A. inversion A. lia.
Qed.

Lemma matchDMY_inv (s : string) (t : Z) :
  matchDMY s = Some t -> Z.abs t <= maxTime /\ isoShape s = false.
Proof.
  destruct s as [|d1 [|d2 [|c3 r3]]]; try discriminate.
  bits c3; try discriminate.
  destruct r3 as [|m1 [|m2 [|c6 r6]]]; try discriminate.
  bits c6; try discriminate.
  destruct r6 as [|y1 [|y2 [|y3 [|y4 rest]]]]; try discriminate.
  cbn [matchDMY].
  destruct (isDigit d1 && isDigit d2 && isDigit m1 && isDigit m2 && isDigit y1
            && isDigit y2 && isDigit y3 && isDigit y4) eqn:E; [|discriminate].
  repeat match goal with
         | H : _ && _ = true |- _ => apply andb_true_iff in H; destruct H
         end.
  destruct (matchClock rest) as [[[hh mi] ss]|] eqn:Hc; [|discriminate].
  intros A. inversion A. split.
  - destruct (matchClock_bounds _ _ _ _ Hc) as (? & ? & ?).
    assert (0 <= two d1 d2 <= 99) by (apply two_bounds; assumption).
    assert (0 <= two m1 m2 <= 99) by (apply two_bounds; assumption).
    assert (0 <= four y1 y2 y3 y4 <= 9999) by (apply four_bounds; assumption).
    apply dateUTC_in_range; lia.
  - bits m2; try discriminate; reflexivity.
Qed.

Lemma matchYMD_inv (s : string) (t : Z) :
  matchYMD s = Some t -> Z.abs t <= maxTime /\ matchDMY s = None.
Proof.
  destruct s as [|y1 [|y2 [|y3 [|y4 [|c5 r5]]]]]; try discriminate.
  bits c5; try discriminate.
  destruct r5 as [|m1 [|m2 [|c8 r8]]]; try discriminate.
  bits c8; try discriminate.
  destruct r8 as [|d1 [|d2 rest]]; try discriminate.
  cbn [matchYMD].
  destruct (isDigit d1 && isDigit d2 && isDigit m1 && isDigit m2 && isDigit y1
            && isDigit y2 && isDigit y3 && isDigit y4) eqn:E; [|discriminate].
  repeat match goal with
         | H : _ && _ = true |- _ => apply andb_true_iff in H; destruct H
         end.
  destruct (matchClock rest) as [[[hh mi] ss]|] eqn:Hc; [|discriminate].
  intros A. inversion A. split.
  - destruct (matchClock_bounds _ _ _ _ Hc) as (? & ? & ?).
    assert (0 <= two d1 d2 <= 99) by (apply two_bounds; assumption).
    assert (0 <= two m1 m2 <= 99) by (apply two_bounds; assumption).
    assert (0 <= four y1 y2 y3 y4 <= 9999) by (apply four_bounds; assumption).
    apply dateUTC_in_range; lia.
  - bits y3; try discriminate; reflexivity.
Qed.

Lemma isDigit_digitChar (n : Z) : isDigit (digitChar n) = true.
Proof.
  unfold isDigit, digitChar, code.
  pose proof (Z.mod_pos_bound n 10 eq_refl) as B.
  rewrite N_ascii_embedding by lia.
  apply andb_true_iff. split; apply N.leb_le; lia.
Qed.

Lemma isDigit_cases (c : ascii) :
  isDigit c = true ->
  In c ["0"; "1"; "2"; "3"; "4"; "5"; "6"; "7"; "8"; "9"]%char.
Proof.
  bits c; vm_compute; intros H; try discriminate H; tauto.
Qed.

Lemma digit_not_white (c : ascii) : isDigit c = true -> isWhite c = false.
Proof. bits c; vm_compute; congruence. Qed.

Lemma trimEnd_guard (x : string) (c : ascii) :
  isWhite c = false -> trimEnd (x ++ String c "") = x ++ String c "".
Proof.
  intros Hc. induction x as [|a x IH]; simpl.
  - now rewrite Hc.
  - rewrite IH. now destruct x.
Qed.

Lemma trim_guard (a c : ascii) (x : string) :
  isWhite a = false -> isWhite c = false ->
  trim (String a (x ++ String c "")) = String a (x ++ String c "").
Proof.
  intros Ha Hc. unfold trim. simpl trimStart. rewrite Ha.
  apply (trimEnd_guard (String a x) c Hc).
Qed.

Lemma endsWith_app (x p : string) : endsWith (x ++ p) p = true.
Proof.
  induction x as [|a x IH]; simpl.
  - destruct p; simpl; [reflexivity|]. now rewrite Ascii.eqb_refl, String.eqb_refl.
  - rewrite IH. apply orb_true_r.
Qed.

Ltac name_digits :=
  repeat match goal with
         | |- context [digitChar ?n] =>
             generalize (isDigit_digitChar n); generalize (digitChar n); intros ? ?
         end.

Ltac split_digit c :=
  match goal with
  | H : isDigit c = true |- _ =>
      apply isDigit_cases in H; cbn [In] in H;
      repeat (destruct H as [H|H]; [subst c|]); [..|destruct H]
  end.

Ltac ends_with_z :=
  simpl; rewrite !orb_true_r; reflexivity.

Ltac use_digits :=
  repeat match goal with
         | H : isDigit _ = true |- _ => rewrite H; clear H
         end.

Lemma toISOString_fed_back (t : Z) :
  trim (toISOString t) = toISOString t
  /\ endsWith (toISOString t) "Z" = true
  /\ matchDMY (toISOString t) = None
  /\ (isoShape (toISOString t) = true \/ matchYMD (toISOString t) = None).
Proof.
  unfold toISOString.
  destruct (civilFromDays (t / msPerDay)) as [[y m] d].
  set (r := t mod msPerDay). clearbody r.
  unfold yearString.
  destruct ((0 <=? y) && (y <=? 9999)); [|destruct (y <? 0)];
    cbn [pad append]; name_digits.
  - split; [|split; [|split]].
    + unfold trim. simpl. rewrite (digit_not_white a) by assumption. reflexivity.
    + ends_with_z.
    + split_digit a1; reflexivity.
    + left. unfold isoShape. use_digits. reflexivity.
  - split; [|split; [|split]].
    + reflexivity.
    + ends_with_z.
    + split_digit a0; reflexivity.
    + right. split_digit a2; reflexivity.
  - split; [|split; [|split]].
    + reflexivity.
    + ends_with_z.
    + split_digit a0; reflexivity.
    + right. split_digit a2; reflexivity.
Qed.

Lemma fetch_toISO_is_iso (h : Host) (dt : option string) (u : string) :
  Fetch.toISO h dt = Some u -> exists t, u = toISOString t.
Proof.
  unfold Fetch.toISO, isoOfString.
  destruct (isoShape (norm dt)).
  - destruct (newDate h (norm dt)) as [t|]; [|discriminate].
    intros A. inversion A. now exists t.
  - destruct (matchDMY (norm dt)) as [t|].
    + intros A. inversion A. now exists t.
    + destruct (matchYMD (norm dt)) as [t|].
      * intros A. inversion A. now exists t.
      * destruct (newDate h (norm dt)) as [t|]; [|discriminate].
        intros A. inversion A. now exists t.
Qed.

Lemma fetch_toISO_fed_back (h : Host) (t : Z) :
  Fetch.toISO h (Some (toISOString t)) = isoOfString h (toISOString t).
Proof.
  destruct (toISOString_fed_back t) as (Ht & _ & Hd & Hy).
  unfold Fetch.toISO, norm, strOrEmpty. rewrite Ht.
  destruct (isoShape (toISOString t)) eqn:E; [reflexivity|].
  rewrite Hd. destruct Hy as [Hy|Hy]; [discriminate|]. now rewrite Hy.
Qed.

Lemma suffix_toISO_fed_back (h : Host) (t : Z) :
  Suffix.toISO h (Some (toISOString t)) = isoOfString h (toISOString t).
Proof.
  destruct (toISOString_fed_back t) as (Ht & He & Hd & _).
  unfold Suffix.toISO, norm, strOrEmpty. now rewrite Ht, Hd, He.
Qed.

(** X13.  The literal date shapes never fail and never ask the engine: a
    text in the shape DD/MM/YYYY is normalized by fetch_cefas.mjs and by
    part_000 to the same timestamp on every host, and a text in the shape
    YYYY-MM-DD that is not also ISO-with-T likewise; the time value is always
    within the range of [Date], also for impossible dates such as 99/99/9999,
    which roll over instead of being rejected. *)
Theorem literal_shapes_never_fail (h : Host) (dt : option string) (t : Z) :
  (matchDMY (norm dt) = Some t ->
   Z.abs t <= maxTime
   /\ Fetch.toISO h dt = Some (toISOString t)
   /\ Suffix.toISO h dt = Some (toISOString t))
  /\ (matchYMD (norm dt) = Some t ->
      Z.abs t <= maxTime
      /\ (isoShape (norm dt) = false -> Fetch.toISO h dt = Some (toISOString t))).
Proof.
  split.
  - intros H. destruct (matchDMY_inv _ _ H) as [Hr Hi]. split; [exact Hr|].
    unfold Fetch.toISO, Suffix.toISO. now rewrite Hi, H.
  - intros H. destruct (matchYMD_inv _ _ H) as [Hr Hd]. split; [exact Hr|].
    intros Hi. unfold Fetch.toISO. now rewrite Hi, Hd, H.
Qed.

Lemma literal_shapes_never_fail_witness :
  matchDMY (norm (Some " 99/99/9999 99:99:99 ")) = Some 253637152839000
  /\ Z.abs 253637152839000 <= maxTime
  /\ Fetch.toISO Example.cetHost (Some " 99/99/9999 99:99:99 ")
     = Some "+010007-06-11T04:40:39.000Z".
Proof.
  split; [reflexivity|].
  destruct (proj1 (literal_shapes_never_fail Example.cetHost
                     (Some " 99/99/9999 99:99:99 ") 253637152839000) eq_refl)
    as (A & B & _).
  split; [exact A|exact B].
Defined.

(** X14.  A normalized timestamp fed back in is handed to the engine as it
    stands: neither [toISO] of fetch_cefas.mjs nor [toISO] of part_000 trims
    anything off it, reads it as a literal shape or appends a second Z.  So
    normalization is idempotent on every engine that reads its own ISO text
    back. *)
Theorem normalized_timestamp_fed_back (h : Host) (dt : option string) (u : string) :
  Fetch.toISO h dt = Some u ->
  Fetch.toISO h (Some u) = isoOfString h u
  /\ Suffix.toISO h (Some u) = isoOfString h u
  /\ (isoOfString h u = Some u -> Fetch.toISO h (Some u) = Some u).
Proof.
  intros H. destruct (fetch_toISO_is_iso h dt u H) as [t ->].
  split; [apply fetch_toISO_fed_back|]. split; [apply suffix_toISO_fed_back|].
  intros A. now rewrite fetch_toISO_fed_back.
Qed.

Lemma normalized_timestamp_fed_back_witness :
  Fetch.toISO Example.utcHost (Some "01/06/2024 12:00")
  = Some "2024-06-01T12:00:00.000Z"
  /\ Fetch.toISO Example.utcHost (Some "2024-06-01T12:00:00.000Z")
     = isoOfString Example.utcHost "2024-06-01T12:00:00.000Z".
Proof.
  split; [reflexivity|].
  apply (proj1 (normalized_timestamp_fed_back Example.utcHost
                  (Some "01/06/2024 12:00") "2024-06-01T12:00:00.000Z" eq_refl)).
Defined.

(* ================================================================== *)
(** ** Further properties: labels and headers *)
(* ================================================================== *)

Lemma sfilter_smap (p : ascii -> bool) (f : ascii -> ascii) (s : string) :
  sfilter p (smap f s) = smap f (sfilter (fun c => p (f c)) s).
Proof.
  induction s as [|c s IH]; simpl; [reflexivity|].
  destruct (p (f c)); simpl; now rewrite IH.
Qed.

Lemma sfilter_app (p : ascii -> bool) (a b : string) :
  sfilter p (a ++ b) = sfilter p a ++ sfilter p b.
Proof.
  induction a as [|c a IH]; simpl; [reflexivity|].
  destruct (p c); simpl; now rewrite IH.
Qed.

Section WhiteBlind.

(** A filter that drops every white character. *)
Variable q : ascii -> bool.
Hypothesis q_white : forall c, isWhite c = true -> q c = false.

Lemma sfilter_white (w : string) : sforall isWhite w = true -> sfilter q w = "".
Proof.
  induction w as [|c w IH]; simpl; [reflexivity|].
  intros H. apply andb_true_iff in H as [Hc Hw]. now rewrite (q_white c Hc), IH.
Qed.

Lemma sfilter_trimStart (s : string) : sfilter q (trimStart s) = sfilter q s.
Proof.
  induction s as [|c s IH]; simpl; [reflexivity|].
  destruct (isWhite c) eqn:E; [|reflexivity].
  now rewrite (q_white c E).
Qed.

Lemma sfilter_trim (s : string) : sfilter q (trim s) = sfilter q s.
Proof.
  unfold trim. rewrite <- (sfilter_trimStart s).
  destruct (trimEnd_split (trimStart s)) as (w & Hw & E).
  rewrite E at 2. rewrite sfilter_app, (sfilter_white w Hw).
  now rewrite string_app_empty_r.
Qed.

End WhiteBlind.

Lemma white_not_alnum (c : ascii) :
  isWhite c = true -> isAlnumLower (lowerChar c) = false.
Proof. each_char c. Qed.

Lemma lower_upper (c : ascii) : lowerChar (upperChar c) = lowerChar c.
Proof. each_char c. Qed.

Lemma strip_lc (s : string) :
  stripNonAlnum (lc (Some s)) = stripNonAlnum (toLowerCase s).
Proof.
  unfold lc, norm, stripNonAlnum, toLowerCase, strOrEmpty.
  rewrite !sfilter_smap. f_equal.
  apply (sfilter_trim _ white_not_alnum).
Qed.

Lemma toLowerCase_toUpperCase (s : string) :
  toLowerCase (toUpperCase s) = toLowerCase s.
Proof.
  unfold toLowerCase, toUpperCase.
  induction s as [|c s IH]; simpl; [reflexivity|]. now rewrite lower_upper, IH.
Qed.

(** X15.  Only letters and digits count, and case does not: two labels
    whose lower-cased texts agree once every character other than a-z and
    0-9 is removed get the same answer from [classifyParam] of
    fetch_cefas.mjs, from [classifyWideHeader] and [classifyLongParam] of
    part_001 and from [classifyParam] of part_002; in particular a label and
    its upper-cased form are classified alike. *)
Theorem classification_reads_letters_and_digits (s1 s2 : string) :
  stripNonAlnum (toLowerCase s1) = stripNonAlnum (toLowerCase s2) ->
  Fetch.classifyParam (Some s1) = Fetch.classifyParam (Some s2)
  /\ Shape.classifyWideHeader (Some s1) = Shape.classifyWideHeader (Some s2)
  /\ Shape.classifyLongParam (Some s1) = Shape.classifyLongParam (Some s2)
  /\ Needles.classifyParam (Some s1) = Needles.classifyParam (Some s2)
  /\ Fetch.classifyParam (Some (toUpperCase s1)) = Fetch.classifyParam (Some s1).
Proof.
  intros H.
  unfold Fetch.classifyParam, Shape.classifyWideHeader, Shape.classifyLongParam,
    Needles.classifyParam, Needles.normParam, strOrEmpty.
  rewrite !strip_lc, toLowerCase_toUpperCase, H. repeat split.
Qed.

Lemma classification_reads_letters_and_digits_witness :
  stripNonAlnum (toLowerCase "Hm0 (m)") = stripNonAlnum (toLowerCase " HM0_M ")
  /\ Shape.classifyWideHeader (Some "Hm0 (m)") = Shape.classifyWideHeader (Some " HM0_M ").
Proof.
  split; [reflexivity|].
  apply (proj1 (proj2 (classification_reads_letters_and_digits
                         "Hm0 (m)" " HM0_M " eq_refl))).
Defined.

Lemma getWide_setWide (m : Shape.WideMap) (k k' : Key) (hd : string) :
  Shape.getWide (Shape.setWide m k hd) k'
  = if Key_eqb k' k then Some hd else Shape.getWide m k'.
Proof.
  induction m as [|[k0 h0] m IH]; simpl.
  - rewrite (Key_eqb_sym k k'). reflexivity.
  - destruct (Key_eqb k0 k) eqn:E; simpl.
    + apply Key_eqb_eq in E. subst k0. rewrite (Key_eqb_sym k k').
      now destruct (Key_eqb k' k).
    + rewrite IH. destruct (Key_eqb k' k) eqn:E'; [|reflexivity].
      apply Key_eqb_eq in E'. subst k'. now rewrite E.
Qed.

Lemma wideMap_fold_last (headers : list string) (m : Shape.WideMap) (k : Key)
  (hd : string) :
  Shape.getWide (fold_left Shape.wideMapStep headers m) k = Some hd
  <-> (exists pre post,
         headers = (pre ++ hd :: post)%list
         /\ Shape.classifyWideHeader (Some hd) = Some k
         /\ forall x, In x post -> Shape.classifyWideHeader (Some x) <> Some k)
      \/ ((forall x, In x headers -> Shape.classifyWideHeader (Some x) <> Some k)
          /\ Shape.getWide m k = Some hd).
Proof.
  revert m. induction headers as [|x headers IH]; intros m; simpl.
  - split.
    + intros A. right. split; [intros y []|exact A].
    + intros [(pre & post & E & _)|[_ A]]; [destruct pre; discriminate|exact A].
  - rewrite IH. split.
    + intros [(pre & post & -> & Hc & Hp)|[Hn Hg]].
      * left. exists (x :: pre), post. repeat split; assumption.
      * unfold Shape.wideMapStep in Hg.
        destruct (Shape.classifyWideHeader (Some x)) as [k0|] eqn:E.
        -- rewrite getWide_setWide in Hg.
           destruct (Key_eqb k k0) eqn:Ek.
           ++ apply Key_eqb_eq in Ek. subst k0. inversion Hg; subst.
              left. exists [], headers. repeat split; assumption.
           ++ right. split; [|exact Hg]. intros y [<-|Hy]; [|now apply Hn].
              rewrite E. intros A. inversion A; subst.
              now rewrite Key_eqb_refl in Ek.
        -- right. split; [|exact Hg]. intros y [<-|Hy]; [|now apply Hn].
           rewrite E. discriminate.
    + intros [(pre & post & E & Hc & Hp)|[Hn Hg]].
      * destruct pre as [|p pre]; simpl in E; inversion E; subst.
        -- right. split; [exact Hp|]. unfold Shape.wideMapStep. rewrite Hc.
           rewrite getWide_setWide. now rewrite Key_eqb_refl.
        -- left. exists pre, post. repeat split; assumption.
      * right. split; [intros y Hy; apply Hn; now right|].
        unfold Shape.wideMapStep.
        destruct (Shape.classifyWideHeader (Some x)) as [k0|] eqn:E; [|exact Hg].
        rewrite getWide_setWide. destruct (Key_eqb k k0) eqn:Ek; [|exact Hg].
        apply Key_eqb_eq in Ek. subst k0. exfalso.
        apply (Hn x (or_introl eq_refl)). exact E.
Qed.

Lemma wideMap_some_if_classified (headers : list string) (k : Key) (x : string) :
  In x headers -> Shape.classifyWideHeader (Some x) = Some k ->
  exists hd, Shape.getWide (Shape.wideMapOf headers) k = Some hd.
Proof.
  unfold Shape.wideMapOf.
  induction headers as [|y headers IH] using rev_ind; [intros []|].
  intros Hx Hc. rewrite fold_left_app. simpl. unfold Shape.wideMapStep at 1.
  apply in_app_or in Hx as [Hx|[<-|[]]].
  - destruct (Shape.classifyWideHeader (Some y)) as [k0|] eqn:Ey;
      [|now apply IH].
    rewrite getWide_setWide. destruct (Key_eqb k k0); [now exists y|now apply IH].
  - rewrite Hc, getWide_setWide, Key_eqb_refl. now exists y.
Qed.

(** X16.  Which column a wide key reads (part_001): [wideMap] gives a
    canonical key the last header, in header order, that classifies as that
    key, and gives it nothing exactly when no header does. *)
Theorem wide_key_reads_last_header (headers : list string) (k : Key) :
  (forall hd,
     Shape.getWide (Shape.wideMapOf headers) k = Some hd
     <-> exists pre post,
           headers = (pre ++ hd :: post)%list
           /\ Shape.classifyWideHeader (Some hd) = Some k
           /\ forall x, In x post -> Shape.classifyWideHeader (Some x) <> Some k)
  /\ (Shape.getWide (Shape.wideMapOf headers) k = None
      <-> forall x, In x headers -> Shape.classifyWideHeader (Some x) <> Some k).
Proof.
  assert (S : forall hd,
            Shape.getWide (Shape.wideMapOf headers) k = Some hd
            <-> exists pre post,
                  headers = (pre ++ hd :: post)%list
                  /\ Shape.classifyWideHeader (Some hd) = Some k
                  /\ forall x, In x post ->
                       Shape.classifyWideHeader (Some x) <> Some k).
  { intros hd. unfold Shape.wideMapOf. rewrite wideMap_fold_last. split.
    - intros [A|[_ A]]; [exact A|discriminate].
    - intros A. now left. }
  split; [exact S|]. split.
  - intros Hn x Hx Hc.
    destruct (wideMap_some_if_classified headers k x Hx Hc) as [hd E].
    congruence.
  - intros Hn. destruct (Shape.getWide (Shape.wideMapOf headers) k) as [hd|] eqn:E;
      [|reflexivity].
    destruct (proj1 (S hd) eq_refl) as (pre & post & -> & Hc & _). exfalso.
    apply (Hn hd); [apply in_or_app; right; now left|exact Hc].
Qed.

Lemma dedup_in (l : list string) (x : string) : In x (dedup l) <-> In x l.
Proof.
  induction l as [|y l IH]; simpl; [tauto|].
  rewrite filter_In, IH. split.
  - intros [A|[A _]]; [now left|now right].
  - intros [A|A]; [now left|].
    destruct (String.eqb_spec x y) as [->|N]; [now left|].
    right. split; [exact A|reflexivity].
Qed.

Lemma dedup_nodup (l : list string) : NoDup (dedup l).
Proof.
  induction l as [|y l IH]; simpl; constructor.
  - rewrite filter_In. intros [_ A]. now rewrite String.eqb_refl in A.
  - now apply NoDup_filter.
Qed.

(** X17.  The identity columns of part_001: [filterCols] lists every
    resolved station, platform and name column, and lists none twice, so a
    header picked for two roles enters the match pool once. *)
Theorem filterCols_lists_each_column_once (headers : list string) :
  NoDup (Shape.filterCols headers)
  /\ forall c, In c (Shape.filterCols headers)
               <-> In c (Shape.stationCols headers)
                   \/ In c (Shape.platformCols headers)
                   \/ In c (Shape.nameCols headers).
Proof.
  unfold Shape.filterCols. split; [apply dedup_nodup|].
  intros c. rewrite dedup_in, !in_app_iff. tauto.
Qed.

Lemma digit_not_comma (c : ascii) : isDigit c = true -> Ascii.eqb c "," = false.
Proof. each_char c. Qed.

Lemma digit_plain (c : ascii) :
  isDigit c = true ->
  isWhite c = false /\ Ascii.eqb c "+" = false /\ Ascii.eqb c "-" = false
  /\ Ascii.eqb "I" c = false.
Proof. each_char c. Qed.

Lemma replaceFirstComma_digits (a r : string) :
  sforall isDigit a = true -> replaceFirstComma (a ++ r) = a ++ replaceFirstComma r.
Proof.
  induction a as [|c a IH]; simpl; [reflexivity|].
  intros H. apply andb_true_iff in H as [Hc Ha].
  now rewrite (digit_not_comma c Hc), IH.
Qed.

Lemma spanDigits_digits (a r : string) :
  sforall isDigit a = true ->
  match r with String c _ => isDigit c | EmptyString => false end = false ->
  spanDigits (a ++ r) = (a, r).
Proof.
  intros Ha Hr. induction a as [|c a IH]; simpl.
  - destruct r as [|c r]; [reflexivity|]. simpl. now rewrite Hr.
  - simpl in Ha. apply andb_true_iff in Ha as [Hc Ha]. now rewrite Hc, IH.
Qed.


Lemma endsNumber_head (t : string) :
  endsNumber t = true ->
  match t with String c _ => isDigit c | EmptyString => false end = false
  /\ parseExponent t = 0.
Proof.
  destruct t as [|c t]; [now split|]. unfold endsNumber, parseExponent.
  destruct (isDigit c); [discriminate|].
  destruct (Ascii.eqb c "e"); [discriminate|].
  destruct (Ascii.eqb c "E"); [discriminate|]. now split.
Qed.

Lemma parseFloat_decimal (a b t : string) :
  sforall isDigit a = true -> a <> "" -> sforall isDigit b = true ->
  endsNumber t = true ->
  parseFloat (a ++ "." ++ b ++ t)
  = if overflows (digitsValue (a ++ b)) (- Z.of_nat (String.length b))
    then Inf false
    else Fin false (digitsValue (a ++ b)) (- Z.of_nat (String.length b)).
Proof.
  intros Ha Hne Hb Ht.
  destruct (endsNumber_head t Ht) as [Hh He].
  destruct a as [|c a]; [now contradiction Hne|].
  assert (Hc : isDigit c = true) by (simpl in Ha; now apply andb_true_iff in Ha).
  destruct (digit_plain c Hc) as (Hw & Hp & Hm & Hi).
  unfold parseFloat. cbn [append trimStart]. rewrite Hw, Hp, Hm.
  unfold parseSigned. cbn [startsWith]. rewrite Hi. cbn [andb].
  unfold parseUnsigned.
  change (String c (a ++ String "." (b ++ t)))
    with (String c a ++ String "." (b ++ t)).
  rewrite (spanDigits_digits (String c a) (String "." (b ++ t)) Ha eq_refl).
  cbn [fst snd]. rewrite Ascii.eqb_refl.
  rewrite (spanDigits_digits b t Hb Hh). cbn [fst snd isEmptyStr andb].
  rewrite He.
  replace (0 - Z.of_nat (String.length b)) with (- Z.of_nat (String.length b)) by lia.
  reflexivity.
Qed.

(** X18.  Reading a value cell: when the cell holds digits, a comma, more
    digits and then text that cannot continue a decimal literal, the first
    comma is read as the decimal point and the text after the literal is
    ignored, so [1,234,5] is read as 1.234; both ways of reading a cell
    agree on it. *)
Theorem first_comma_is_the_decimal_point (a b t : string) :
  sforall isDigit a = true -> a <> "" -> sforall isDigit b = true ->
  endsNumber t = true ->
  readValue (Some (a ++ "," ++ b ++ t))
  = (if overflows (digitsValue (a ++ b)) (- Z.of_nat (String.length b))
     then None
     else Some (Fin false (digitsValue (a ++ b)) (- Z.of_nat (String.length b))))
  /\ readValueRaw (Some (a ++ "," ++ b ++ t)) = readValue (Some (a ++ "," ++ b ++ t)).
Proof.
  intros Ha Hne Hb Ht.
  assert (E : parseFloat (replaceFirstComma (a ++ "," ++ b ++ t))
              = parseFloat (a ++ "." ++ b ++ t)).
  { rewrite (replaceFirstComma_digits a _ Ha). reflexivity. }
  unfold readValue, readValueRaw, norm, strOrEmpty, strOf.
  cbv zeta. rewrite parseFloat_replace_trim, E.
  rewrite (parseFloat_decimal a b t Ha Hne Hb Ht).
  split; [|reflexivity].
  now destruct (overflows _ _).
Qed.

Lemma first_comma_is_the_decimal_point_witness :
  readValue (Some "1,234,5") = Some (Fin false 1234 (-3)).
Proof.
  refine (proj1 (first_comma_is_the_decimal_point "1" "234" ",5" _ _ _ _));
    [reflexivity | discriminate | reflexivity | reflexivity].
Defined.

(** X19.  A value cell that is missing or holds only white space gives no
    reading: it is dropped, not read as zero. *)
Theorem blank_cell_has_no_value (w : string) :
  sforall isWhite w = true ->
  readValue (Some w) = None /\ readValueRaw (Some w) = None
  /\ readValue None = None /\ readValueRaw None = None.
Proof.
  intros Hw.
  assert (E : parseFloat (replaceFirstComma w) = NaN).
  { rewrite (replaceFirstComma_white w Hw).
    change w with ("" ++ w). now rewrite (parseFloat_app_white "" w Hw). }
  unfold readValue, readValueRaw, norm, strOrEmpty, strOf. cbv zeta.
  rewrite parseFloat_replace_trim, E. repeat split.
Qed.

Lemma blank_cell_has_no_value_witness :
  readValue (Some "   ") = None /\ readValueRaw (Some "   ") = None
  /\ readValue None = None /\ readValueRaw None = None.
Proof. apply (blank_cell_has_no_value "   "). reflexivity. Defined.

Lemma starts353_inv (s : string) :
  starts353 s = true ->
  exists rest, s = "353" ++ rest /\ Shape.headIsDigit rest = false.
Proof.
  unfold starts353.
  destruct s as [|[[|] [|] [|] [|] [|] [|] [|] [|]] s]; try discriminate.
  destruct s as [|[[|] [|] [|] [|] [|] [|] [|] [|]] s]; try discriminate.
  destruct s as [|[[|] [|] [|] [|] [|] [|] [|] [|]] s]; try discriminate.
  intros H. exists s. split; [reflexivity|].
  now destruct (Shape.headIsDigit s).
Qed.

Lemma lastIsDigit_cons (c : ascii) (a : string) :
  lastIsDigit (String c a) = match a with EmptyString => isDigit c | _ => lastIsDigit a end.
Proof. reflexivity. Qed.

Lemma lone353From_split (s : string) : forall p,
  Shape.lone353From p s = true
  <-> exists a b, s = a ++ "353" ++ b
        /\ match a with EmptyString => p | _ => lastIsDigit a end = false
        /\ Shape.headIsDigit b = false.
Proof.
  induction s as [|c r IH]; intros p.
  - split; [discriminate|]. intros (a & b & E & _). destruct a; discriminate.
  - change (Shape.lone353From p (String c r))
      with ((negb p && starts353 (String c r)) || Shape.lone353From (isDigit c) r).
    rewrite orb_true_iff, andb_true_iff, negb_true_iff, IH. split.
    + intros [[Hp H]|(a & b & E & Ha & Hb)].
      * destruct (starts353_inv _ H) as (rest & E & Hr).
        exists "", rest. now repeat split.
      * exists (String c a), b. split; [simpl; now rewrite E|]. split; [|exact Hb].
        rewrite lastIsDigit_cons. exact Ha.
    + intros (a & b & E & Ha & Hb). destruct a as [|c' a].
      * left. split; [exact Ha|]. rewrite E. simpl. now rewrite Hb.
      * right. simpl in E. inversion E; subst. exists a, b.
        split; [reflexivity|]. split; [|exact Hb].
        rewrite lastIsDigit_cons in Ha. exact Ha.
Qed.

(** X20.  The numeric-id test of [looksLikeCardigan] in part_001: the
    pattern accepts a pool exactly when 353 occurs in it with no digit
    directly before and none directly after, so 1353 and 3530 do not count
    as the platform number. *)
Theorem numeric_id_stands_alone (pool : string) :
  Shape.lone353From false pool = true
  <-> exists a b, pool = a ++ "353" ++ b
        /\ lastIsDigit a = false /\ Shape.headIsDigit b = false.
Proof.
  rewrite lone353From_split. split.
  - intros (a & b & E & Ha & Hb). exists a, b. split; [exact E|].
    split; [|exact Hb]. now destruct a.
  - intros (a & b & E & Ha & Hb). exists a, b. split; [exact E|].
    split; [|exact Hb]. now destruct a.
Qed.

Import Calendar.

Lemma yearOfEra_window (doe : Z) :
  0 <= doe < 146096 ->
  yearStart (yearOfEra doe) <= doe < yearStart (yearOfEra doe + 1)
  /\ doe <= yearStart (yearOfEra doe) + 365.
Proof.
  intros H. unfold yearStart, yearOfEra. Z.div_mod_to_equations. lia.
Qed.

Lemma yearStart_mono (a b : Z) : a < b -> yearStart a + 364 * (b - a) <= yearStart b.
Proof. unfold yearStart. intros H. Z.div_mod_to_equations. lia. Qed.

Lemma yearStart_succ (a : Z) : yearStart a + 365 <= yearStart (a + 1).
Proof. unfold yearStart. Z.div_mod_to_equations. lia. Qed.

Lemma yoe_step (doe : Z) :
  0 <= doe < 146096 ->
  0 <= dayOfYear doe <= 365 /\ 0 <= dayOfYear (doe + 1) <= 365
  /\ ((yearOfEra (doe + 1) = yearOfEra doe /\ dayOfYear (doe + 1) = dayOfYear doe + 1)
      \/ (yearOfEra (doe + 1) = yearOfEra doe + 1 /\ dayOfYear (doe + 1) = 0
          /\ 364 <= dayOfYear doe)).
Proof.
  intros H. destruct (Z.eq_dec doe 146095) as [->|N].
  - vm_compute. repeat split; try discriminate. left. split; reflexivity.
  - destruct (yearOfEra_window doe H) as (A1 & A2).
    destruct (yearOfEra_window (doe + 1) ltac:(lia)) as (B1 & B2).
    unfold dayOfYear.
    set (y := yearOfEra doe) in *. set (y' := yearOfEra (doe + 1)) in *.
    clearbody y y'.
    assert (y <= y').
    { destruct (Z_lt_le_dec y' y) as [L|L]; [|exact L].
      destruct (Z.eq_dec y' (y - 1)).
      - subst y'. replace (y - 1 + 1) with y in * by ring. lia.
      - pose proof (yearStart_mono (y' + 1) y ltac:(lia)). lia. }
    assert (y' <= y + 1).
    { destruct (Z_lt_le_dec (y + 1) y') as [L|L]; [|lia].
      pose proof (yearStart_mono (y + 1) y' L). lia. }
    pose proof (yearStart_succ y).
    split; [lia|]. split; [lia|].
    destruct (Z.eq_dec y' y) as [->|]; [left; split; lia|].
    assert (y' = y + 1) by lia. subst y'. right. lia.
Qed.

Lemma md_bounds (doy : Z) :
  0 <= doy <= 365 -> 1 <= monthOf doy <= 12 /\ 1 <= dayOf doy <= 31.
Proof.
  intros H. unfold monthOf, dayOf.
  destruct (Z.ltb_spec ((5 * doy + 2) / 153) 10);
  (Z.div_mod_to_equations; lia).
Qed.

Lemma md_step (doy : Z) :
  0 <= doy < 365 ->
  (yearCarry doy) * 10000 + monthOf doy * 100 + dayOf doy
  < (yearCarry (doy + 1)) * 10000 + monthOf (doy + 1) * 100 + dayOf (doy + 1).
Proof.
  intros H. unfold yearCarry, monthOf, dayOf.
  destruct (Z.ltb_spec ((5 * doy + 2) / 153) 10);
  destruct (Z.ltb_spec ((5 * (doy + 1) + 2) / 153) 10);
  repeat match goal with |- context [?a <=? 2] => destruct (Z.leb_spec a 2) end;
  (Z.div_mod_to_equations; lia).
Qed.

Lemma md_last (doy : Z) :
  364 <= doy <= 365 -> yearCarry doy = 1 /\ monthOf doy = 2 /\ dayOf doy <= 31.
Proof.
  intros H. unfold yearCarry, monthOf, dayOf.
  destruct (Z.ltb_spec ((5 * doy + 2) / 153) 10);
  repeat match goal with |- context [?a <=? 2] => destruct (Z.leb_spec a 2) end;
  (Z.div_mod_to_equations; lia).
Qed.

Lemma civil_fields_of (day : Z) :
  civilFromDays day
  = let era := (day + 719468) / 146097 in
    let doy := dayOfYear (day + 719468 - era * 146097) in
    (yearOfEra (day + 719468 - era * 146097) + era * 400 + yearCarry doy,
     monthOf doy, dayOf doy).
Proof.
  unfold civilFromDays, dayOfYear, yearOfEra, yearStart, monthOf, dayOf, yearCarry.
  cbv zeta. reflexivity.
Qed.

Lemma civil_fields (day y m d : Z) :
  civilFromDays day = (y, m, d) -> 1 <= m <= 12 /\ 1 <= d <= 31.
Proof.
  rewrite civil_fields_of. cbv zeta.
  set (era := (day + 719468) / 146097).
  set (doe := day + 719468 - era * 146097).
  assert (Hd : 0 <= doe <= 146096).
  { unfold doe, era. Z.div_mod_to_equations. lia. }
  assert (B : 0 <= dayOfYear doe <= 365).
  { destruct (Z.eq_dec doe 146096) as [->|N].
    - vm_compute. split; discriminate.
    - apply yoe_step. lia. }
  intros E. inversion E; subst. apply md_bounds, B.
Qed.

Lemma dateKey_step (day : Z) : dateKey day < dateKey (day + 1).
Proof.
  unfold dateKey. rewrite !civil_fields_of. cbv zeta.
  set (era := (day + 719468) / 146097).
  set (doe := day + 719468 - era * 146097).
  assert (Hd : 0 <= doe <= 146096).
  { unfold doe, era. Z.div_mod_to_equations. lia. }
  destruct (Z.eq_dec doe 146096) as [E|N].
  - assert (E1 : (day + 1 + 719468) / 146097 = era + 1).
    { unfold doe, era in *. Z.div_mod_to_equations. lia. }
    rewrite E1.
    replace (day + 1 + 719468 - (era + 1) * 146097) with 0 by (unfold doe in E; lia).
    rewrite E.
    change (yearOfEra 146096) with 399. change (dayOfYear 146096) with 365.
    change (yearOfEra 0) with 0. change (dayOfYear 0) with 0.
    change (yearCarry 365) with 1. change (monthOf 365) with 2.
    change (dayOf 365) with 29. change (yearCarry 0) with 0.
    change (monthOf 0) with 3. change (dayOf 0) with 1. lia.
  - assert (E1 : (day + 1 + 719468) / 146097 = era).
    { unfold doe, era in *. Z.div_mod_to_equations. lia. }
    rewrite E1.
    replace (day + 1 + 719468 - era * 146097) with (doe + 1) by (unfold doe; ring).
    destruct (yoe_step doe ltac:(lia)) as (B & B' & [[Hy Hdoy]|(Hy & Hdoy & L)]).
    + rewrite Hy, Hdoy. pose proof (md_step (dayOfYear doe) ltac:(lia)). lia.
    + rewrite Hy, Hdoy.
      destruct (md_last (dayOfYear doe) ltac:(lia)) as (C1 & C2 & C3).
      rewrite C1, C2.
      change (yearCarry 0) with 0. change (monthOf 0) with 3.
      change (dayOf 0) with 1. lia.
Qed.

Lemma dateKey_mono (a b : Z) : a < b -> dateKey a < dateKey b.
Proof.
  intros H. replace b with (a + 1 + (b - a - 1)) by ring.
  assert (G : forall k, 0 <= k -> dateKey a < dateKey (a + 1 + k)).
  { apply (natlike_ind (fun k => dateKey a < dateKey (a + 1 + k))).
    - rewrite Z.add_0_r. apply dateKey_step.
    - intros k Hk IH. pose proof (dateKey_step (a + 1 + k)).
      replace (a + 1 + Z.succ k) with (a + 1 + k + 1) by lia. lia. }
  apply G. lia.
Qed.

Lemma clockKey_mono (r1 r2 : Z) :
  0 <= r1 -> r1 < r2 -> r2 < msPerDay -> clockKey r1 < clockKey r2.
Proof.
  unfold clockKey, msPerDay. intros. Z.div_mod_to_equations. lia.
Qed.

Lemma clockKey_bounds (r : Z) :
  0 <= r < msPerDay -> 0 <= clockKey r < 1000000000.
Proof.
  unfold clockKey, msPerDay. intros. Z.div_mod_to_equations. lia.
Qed.

Lemma isoKey_mono (t1 t2 : Z) : t1 < t2 -> isoKey t1 < isoKey t2.
Proof.
  intros H. unfold isoKey.
  pose proof (Z.mod_pos_bound t1 msPerDay eq_refl) as B1.
  pose proof (Z.mod_pos_bound t2 msPerDay eq_refl) as B2.
  pose proof (clockKey_bounds _ B1). pose proof (clockKey_bounds _ B2).
  destruct (Z.eq_dec (t1 / msPerDay) (t2 / msPerDay)) as [E|N].
  - rewrite E. 
    assert (t1 mod msPerDay < t2 mod msPerDay).
    { pose proof (Z.div_mod t1 msPerDay). pose proof (Z.div_mod t2 msPerDay).
      unfold msPerDay in *. lia. }
    pose proof (clockKey_mono (t1 mod msPerDay) (t2 mod msPerDay)). lia.
  - assert (t1 / msPerDay < t2 / msPerDay).
    { pose proof (Z.div_le_mono t1 t2 msPerDay eq_refl). lia. }
    pose proof (dateKey_mono _ _ H2). lia.
Qed.

Lemma isoKey_compare (t1 t2 : Z) : (isoKey t1 ?= isoKey t2) = (t1 ?= t2).
Proof.
  destruct (Z.compare_spec t1 t2) as [->|L|L].
  - apply Z.compare_refl.
  - apply Z.compare_lt_iff. now apply isoKey_mono.
  - apply Z.compare_gt_iff. now apply isoKey_mono.
Qed.

Lemma plainYear_fields (t y m d : Z) :
  plainYear t -> civilFromDays (t / msPerDay) = (y, m, d) -> 0 <= y <= 9999.
Proof.
  intros [L U] E. destruct (civil_fields _ _ _ _ E) as [Hm Hd].
  assert (A : -719528 <= t / msPerDay <= 2932896).
  { unfold firstPlain, lastPlain, msPerDay in *. Z.div_mod_to_equations. lia. }
  assert (K1 : dateKey (-719528) <= dateKey (t / msPerDay)).
  { destruct (Z.eq_dec (-719528) (t / msPerDay)) as [<-|N]; [lia|].
    pose proof (dateKey_mono (-719528) (t / msPerDay)). lia. }
  assert (K2 : dateKey (t / msPerDay) <= dateKey 2932896).
  { destruct (Z.eq_dec (t / msPerDay) 2932896) as [->|N]; [lia|].
    pose proof (dateKey_mono (t / msPerDay) 2932896). lia. }
  change (dateKey (-719528)) with 101 in K1.
  change (dateKey 2932896) with 99991231 in K2.
  unfold dateKey in K1, K2. rewrite E in K1, K2. lia.
Qed.


Lemma digitChar_compare (a b : Z) :
  Ascii.compare (digitChar a) (digitChar b) = (a mod 10 ?= b mod 10).
Proof.
  unfold Ascii.compare, digitChar.
  pose proof (Z.mod_pos_bound a 10 eq_refl). pose proof (Z.mod_pos_bound b 10 eq_refl).
  rewrite !N_ascii_embedding by lia.
  rewrite Z2N.inj_compare by lia.
  apply Z.add_compare_mono_l.
Qed.

Lemma compare_cons_same (c : ascii) (x y : string) :
  String.compare (String c x) (String c y) = String.compare x y.
Proof.
  cbn [String.compare]. unfold Ascii.compare. now rewrite N.compare_refl.
Qed.

Lemma compare_pad (w : nat) : forall (a b : Z) (x y : string),
  0 <= a < 10 ^ Z.of_nat w -> 0 <= b < 10 ^ Z.of_nat w ->
  String.compare (pad w a ++ x) (pad w b ++ y)
  = match a ?= b with Eq => String.compare x y | c => c end.
Proof.
  induction w as [|w IH]; intros a b x y Ha Hb.
  - cbn [pad append]. change (10 ^ Z.of_nat 0) with 1 in *.
    assert (a = 0) by lia. assert (b = 0) by lia. subst. reflexivity.
  - cbn [pad]. rewrite !string_app_assoc. cbn [append].
    rewrite Nat2Z.inj_succ, Z.pow_succ_r in Ha, Hb by lia.
    rewrite IH by (Z.div_mod_to_equations; lia).
    cbn [String.compare]. rewrite digitChar_compare.
    destruct (Z.compare_spec (a / 10) (b / 10)) as [E|L|L];
      destruct (Z.compare_spec (a mod 10) (b mod 10)) as [E'|L'|L'];
      destruct (Z.compare_spec a b) as [E2|L2|L2];
      try reflexivity; exfalso; Z.div_mod_to_equations; lia.
Qed.

Lemma compare_field (w : nat) (K a b kx ky : Z) (c : ascii) (x y : string) :
  0 <= a < 10 ^ Z.of_nat w -> 0 <= b < 10 ^ Z.of_nat w ->
  0 <= kx < K -> 0 <= ky < K ->
  String.compare x y = (kx ?= ky) ->
  String.compare (pad w a ++ String c x) (pad w b ++ String c y)
  = (a * K + kx ?= b * K + ky).
Proof.
  intros Ha Hb Hx Hy E. rewrite compare_pad by assumption.
  rewrite compare_cons_same, E.
  destruct (Z.compare_spec a b) as [E1|L|L];
    destruct (Z.compare_spec kx ky) as [E2|L2|L2];
    destruct (Z.compare_spec (a * K + kx) (b * K + ky)) as [E3|L3|L3];
    try reflexivity; exfalso; nia.
Qed.

Ltac field_bound :=
  first [ change (10 ^ Z.of_nat 2) with 100 | change (10 ^ Z.of_nat 4) with 10000 | idtac ];
  Z.div_mod_to_equations; lia.

Ltac next_field w K a b c F :=
  let G := fresh "G" in
  pose proof (fun Ha Hb Hx Hy => compare_field w K a b _ _ c _ _ Ha Hb Hx Hy F) as G;
  cbv beta in G;
  match type of G with
  | ?A -> ?B -> ?C -> ?D -> _ =>
      let ha := fresh in let hb := fresh in let hc := fresh in let hd := fresh in
      assert (ha : A) by field_bound; assert (hb : B) by field_bound;
      assert (hc : C) by field_bound; assert (hd : D) by field_bound;
      specialize (G ha hb hc hd); clear ha hb hc hd F; rename G into F
  end.

Lemma compare_plain_iso (t1 t2 : Z) :
  plainYear t1 -> plainYear t2 ->
  String.compare (toISOString t1) (toISOString t2) = (t1 ?= t2).
Proof.
  intros P1 P2. rewrite <- isoKey_compare.
  unfold toISOString, isoKey, dateKey, clockKey.
  destruct (civilFromDays (t1 / msPerDay)) as [[y1 m1] d1] eqn:E1.
  destruct (civilFromDays (t2 / msPerDay)) as [[y2 m2] d2] eqn:E2.
  pose proof (plainYear_fields _ _ _ _ P1 E1) as Y1.
  pose proof (plainYear_fields _ _ _ _ P2 E2) as Y2.
  destruct (civil_fields _ _ _ _ E1) as [M1 D1].
  destruct (civil_fields _ _ _ _ E2) as [M2 D2].
  pose proof (Z.mod_pos_bound t1 msPerDay eq_refl) as B1.
  pose proof (Z.mod_pos_bound t2 msPerDay eq_refl) as B2.
  set (r1 := t1 mod msPerDay) in *. set (r2 := t2 mod msPerDay) in *.
  clearbody r1 r2. unfold msPerDay in B1, B2.
  unfold yearString.
  replace ((0 <=? y1) && (y1 <=? 9999)) with true
    by (symmetry; apply andb_true_iff; split; apply Z.leb_le; lia).
  replace ((0 <=? y2) && (y2 <=? 9999)) with true
    by (symmetry; apply andb_true_iff; split; apply Z.leb_le; lia).
  cbn [append].
  assert (F7 : String.compare (pad 3 (r1 mod 1000) ++ "Z") (pad 3 (r2 mod 1000) ++ "Z")
               = (r1 mod 1000 ?= r2 mod 1000)).
  { rewrite compare_pad by (change (10 ^ Z.of_nat 3) with 1000;
                             apply Z.mod_pos_bound; lia).
    now destruct (r1 mod 1000 ?= r2 mod 1000). }
  next_field 2%nat 1000 (r1 / 1000 mod 60) (r2 / 1000 mod 60) "."%char F7.
  next_field 2%nat 100000 (r1 / 60000 mod 60) (r2 / 60000 mod 60) ":"%char F7.
  next_field 2%nat 10000000 (r1 / 3600000) (r2 / 3600000) ":"%char F7.
  next_field 2%nat 1000000000 d1 d2 "T"%char F7.
  next_field 2%nat 100000000000 m1 m2 "-"%char F7.
  next_field 4%nat 10000000000000 y1 y2 "-"%char F7.
  rewrite F7. f_equal; ring.
Qed.

Lemma dateKey_le (a b : Z) : a <= b -> dateKey a <= dateKey b.
Proof.
  intros H. destruct (Z.eq_dec a b) as [->|N]; [lia|].
  pose proof (dateKey_mono a b). lia.
Qed.

Lemma late_year_fields (t y m d : Z) :
  lastPlain < t -> civilFromDays (t / msPerDay) = (y, m, d) -> 10000 <= y.
Proof.
  intros L E. destruct (civil_fields _ _ _ _ E) as [Hm Hd].
  assert (A : 2932897 <= t / msPerDay).
  { unfold lastPlain, msPerDay in *. Z.div_mod_to_equations. lia. }
  pose proof (dateKey_le _ _ A) as K.
  change (dateKey 2932897) with 100000101 in K.
  unfold dateKey in K. rewrite E in K. lia.
Qed.

Lemma early_year_fields (t y m d : Z) :
  t < firstPlain -> civilFromDays (t / msPerDay) = (y, m, d) -> y < 0.
Proof.
  intros L E. destruct (civil_fields _ _ _ _ E) as [Hm Hd].
  assert (A : t / msPerDay <= -719529).
  { unfold firstPlain, msPerDay in *. Z.div_mod_to_equations. lia. }
  pose proof (dateKey_le _ _ A) as K.
  change (dateKey (-719529)) with (-8769) in K.
  unfold dateKey in K. rewrite E in K. lia.
Qed.

Lemma sign_before_digit (n : Z) :
  Ascii.compare "+" (digitChar n) = Lt /\ Ascii.compare "-" (digitChar n) = Lt.
Proof.
  unfold Ascii.compare, digitChar.
  pose proof (Z.mod_pos_bound n 10 eq_refl).
  rewrite N_ascii_embedding by lia.
  change (N_of_ascii "+") with 43%N. change (N_of_ascii "-") with 45%N.
  split; apply N.compare_lt_iff; lia.
Qed.

Lemma compare_outside_plain (t1 t2 : Z) :
  ~ plainYear t1 -> plainYear t2 ->
  String.compare (toISOString t1) (toISOString t2) = Lt.
Proof.
  intros N P. unfold toISOString.
  destruct (civilFromDays (t1 / msPerDay)) as [[y1 m1] d1] eqn:E1.
  destruct (civilFromDays (t2 / msPerDay)) as [[y2 m2] d2] eqn:E2.
  pose proof (plainYear_fields _ _ _ _ P E2) as Y2.
  unfold yearString at 2.
  replace ((0 <=? y2) && (y2 <=? 9999)) with true
    by (symmetry; apply andb_true_iff; split; apply Z.leb_le; lia).
  unfold yearString.
  assert (C : t1 < firstPlain \/ lastPlain < t1) by (unfold plainYear in N; lia).
  destruct C as [C|C].
  - pose proof (early_year_fields _ _ _ _ C E1).
    replace ((0 <=? y1) && (y1 <=? 9999)) with false
      by (symmetry; apply andb_false_iff; left; apply Z.leb_gt; lia).
    replace (y1 <? 0) with true by (symmetry; apply Z.ltb_lt; lia).
    cbn [pad append String.compare].
    now rewrite (proj2 (sign_before_digit _)).
  - pose proof (late_year_fields _ _ _ _ C E1).
    replace ((0 <=? y1) && (y1 <=? 9999)) with false
      by (symmetry; apply andb_false_iff; right; apply Z.leb_gt; lia).
    replace (y1 <? 0) with false by (symmetry; apply Z.ltb_ge; lia).
    cbn [pad append String.compare].
    now rewrite (proj1 (sign_before_digit _)).
Qed.

Lemma plainYear_dec (t : Z) : plainYear t \/ ~ plainYear t.
Proof. unfold plainYear. lia. Qed.

Lemma rank_digitChar (a : Z) :
  collationRank (digitChar a) = (4 + Z.to_N (a mod 10))%N.
Proof.
  unfold digitChar. pose proof (Z.mod_pos_bound a 10 eq_refl) as B.
  assert (C : a mod 10 = 0 \/ a mod 10 = 1 \/ a mod 10 = 2 \/ a mod 10 = 3
              \/ a mod 10 = 4 \/ a mod 10 = 5 \/ a mod 10 = 6 \/ a mod 10 = 7
              \/ a mod 10 = 8 \/ a mod 10 = 9) by lia.
  repeat (destruct C as [->|C]; [reflexivity|]). rewrite C. reflexivity.
Qed.

Lemma rank_digitChar_compare (a b : Z) :
  (collationRank (digitChar a) ?= collationRank (digitChar b))%N
  = (a mod 10 ?= b mod 10).
Proof.
  pose proof (Z.mod_pos_bound a 10 eq_refl). pose proof (Z.mod_pos_bound b 10 eq_refl).
  rewrite !rank_digitChar, <- N2Z.inj_compare, !N2Z.inj_add, !Z2N.id by lia.
  apply Z.add_compare_mono_l.
Qed.

Lemma pad_stampChars (w : nat) (n : Z) : sforall isStampChar (pad w n) = true.
Proof.
  revert n. induction w as [|w IH]; intros n; cbn [pad]; [reflexivity|].
  rewrite sforall_app, IH. cbn [sforall andb]. unfold isStampChar.
  rewrite rank_digitChar, andb_true_r.
  pose proof (Z.mod_pos_bound n 10 eq_refl). apply N.ltb_lt. lia.
Qed.

(** Every character of a timestamp is one of those the collation order
    above is stated for. *)
Lemma toISOString_alphabet (t : Z) : sforall isStampChar (toISOString t) = true.
Proof.
  unfold toISOString. destruct (civilFromDays (t / msPerDay)) as [[y m] d].
  assert (Y : sforall isStampChar (yearString y) = true).
  { unfold yearString.
    destruct ((0 <=? y) && (y <=? 9999)); [apply pad_stampChars|].
    destruct (y <? 0); cbn [sforall]; now rewrite pad_stampChars. }
  rewrite !sforall_app, Y, !pad_stampChars. reflexivity.
Qed.

Lemma locale_cons_same (c : ascii) (x y : string) :
  localeCompare (String c x) (String c y) = localeCompare x y.
Proof. cbn [localeCompare]. now rewrite N.compare_refl. Qed.

Lemma locale_pad (w : nat) : forall (a b : Z) (x y : string),
  0 <= a < 10 ^ Z.of_nat w -> 0 <= b < 10 ^ Z.of_nat w ->
  localeCompare (pad w a ++ x) (pad w b ++ y)
  = match a ?= b with Eq => localeCompare x y | c => c end.
Proof.
  induction w as [|w IH]; intros a b x y Ha Hb.
  - cbn [pad append]. change (10 ^ Z.of_nat 0) with 1 in *.
    assert (a = 0) by lia. assert (b = 0) by lia. subst. reflexivity.
  - cbn [pad]. rewrite !string_app_assoc. cbn [append].
    rewrite Nat2Z.inj_succ, Z.pow_succ_r in Ha, Hb by lia.
    rewrite IH by (Z.div_mod_to_equations; lia).
    cbn [localeCompare]. rewrite rank_digitChar_compare.
    destruct (Z.compare_spec (a / 10) (b / 10)) as [E|L|L];
      destruct (Z.compare_spec (a mod 10) (b mod 10)) as [E'|L'|L'];
      destruct (Z.compare_spec a b) as [E2|L2|L2];
      try reflexivity; exfalso; Z.div_mod_to_equations; lia.
Qed.

Lemma locale_field (w : nat) (K a b kx ky : Z) (c : ascii) (x y : string) :
  0 <= a < 10 ^ Z.of_nat w -> 0 <= b < 10 ^ Z.of_nat w ->
  0 <= kx < K -> 0 <= ky < K ->
  localeCompare x y = (kx ?= ky) ->
  localeCompare (pad w a ++ String c x) (pad w b ++ String c y)
  = (a * K + kx ?= b * K + ky).
Proof.
  intros Ha Hb Hx Hy E. rewrite locale_pad by assumption.
  rewrite locale_cons_same, E.
  destruct (Z.compare_spec a b) as [E1|L|L];
    destruct (Z.compare_spec kx ky) as [E2|L2|L2];
    destruct (Z.compare_spec (a * K + kx) (b * K + ky)) as [E3|L3|L3];
    try reflexivity; exfalso; nia.
Qed.

Ltac next_locale_field w K a b c F :=
  let G := fresh "G" in
  pose proof (fun Ha Hb Hx Hy => locale_field w K a b _ _ c _ _ Ha Hb Hx Hy F) as G;
  cbv beta in G;
  match type of G with
  | ?A -> ?B -> ?C -> ?D -> _ =>
      let ha := fresh in let hb := fresh in let hc := fresh in let hd := fresh in
      assert (ha : A) by field_bound; assert (hb : B) by field_bound;
      assert (hc : C) by field_bound; assert (hd : D) by field_bound;
      specialize (G ha hb hc hd); clear ha hb hc hd F; rename G into F
  end.

Lemma locale_plain_iso (t1 t2 : Z) :
  plainYear t1 -> plainYear t2 ->
  localeCompare (toISOString t1) (toISOString t2) = (t1 ?= t2).
Proof.
  intros P1 P2. rewrite <- isoKey_compare.
  unfold toISOString, isoKey, dateKey, clockKey.
  destruct (civilFromDays (t1 / msPerDay)) as [[y1 m1] d1] eqn:E1.
  destruct (civilFromDays (t2 / msPerDay)) as [[y2 m2] d2] eqn:E2.
  pose proof (plainYear_fields _ _ _ _ P1 E1) as Y1.
  pose proof (plainYear_fields _ _ _ _ P2 E2) as Y2.
  destruct (civil_fields _ _ _ _ E1) as [M1 D1].
  destruct (civil_fields _ _ _ _ E2) as [M2 D2].
  pose proof (Z.mod_pos_bound t1 msPerDay eq_refl) as B1.
  pose proof (Z.mod_pos_bound t2 msPerDay eq_refl) as B2.
  set (r1 := t1 mod msPerDay) in *. set (r2 := t2 mod msPerDay) in *.
  clearbody r1 r2. unfold msPerDay in B1, B2.
  unfold yearString.
  replace ((0 <=? y1) && (y1 <=? 9999)) with true
    by (symmetry; apply andb_true_iff; split; apply Z.leb_le; lia).
  replace ((0 <=? y2) && (y2 <=? 9999)) with true
    by (symmetry; apply andb_true_iff; split; apply Z.leb_le; lia).
  cbn [append].
  assert (F7 : localeCompare (pad 3 (r1 mod 1000) ++ "Z") (pad 3 (r2 mod 1000) ++ "Z")
               = (r1 mod 1000 ?= r2 mod 1000)).
  { rewrite locale_pad by (change (10 ^ Z.of_nat 3) with 1000;
                            apply Z.mod_pos_bound; lia).
    now destruct (r1 mod 1000 ?= r2 mod 1000). }
  next_locale_field 2%nat 1000 (r1 / 1000 mod 60) (r2 / 1000 mod 60) "."%char F7.
  next_locale_field 2%nat 100000 (r1 / 60000 mod 60) (r2 / 60000 mod 60) ":"%char F7.
  next_locale_field 2%nat 10000000 (r1 / 3600000) (r2 / 3600000) ":"%char F7.
  next_locale_field 2%nat 1000000000 d1 d2 "T"%char F7.
  next_locale_field 2%nat 100000000000 m1 m2 "-"%char F7.
  next_locale_field 4%nat 10000000000000 y1 y2 "-"%char F7.
  rewrite F7. f_equal; ring.
Qed.

Lemma rank_sign_before_digit (n : Z) :
  (collationRank "+" ?= collationRank (digitChar n))%N = Lt
  /\ (collationRank "-" ?= collationRank (digitChar n))%N = Lt.
Proof.
  rewrite rank_digitChar.
  change (collationRank "+") with 3%N. change (collationRank "-") with 0%N.
  split; apply N.compare_lt_iff; lia.
Qed.

Lemma locale_outside_plain (t1 t2 : Z) :
  ~ plainYear t1 -> plainYear t2 ->
  localeCompare (toISOString t1) (toISOString t2) = Lt.
Proof.
  intros N P. unfold toISOString.
  destruct (civilFromDays (t1 / msPerDay)) as [[y1 m1] d1] eqn:E1.
  destruct (civilFromDays (t2 / msPerDay)) as [[y2 m2] d2] eqn:E2.
  pose proof (plainYear_fields _ _ _ _ P E2) as Y2.
  unfold yearString at 2.
  replace ((0 <=? y2) && (y2 <=? 9999)) with true
    by (symmetry; apply andb_true_iff; split; apply Z.leb_le; lia).
  unfold yearString.
  assert (C : t1 < firstPlain \/ lastPlain < t1) by (unfold plainYear in N; lia).
  destruct C as [C|C].
  - pose proof (early_year_fields _ _ _ _ C E1).
    replace ((0 <=? y1) && (y1 <=? 9999)) with false
      by (symmetry; apply andb_false_iff; left; apply Z.leb_gt; lia).
    replace (y1 <? 0) with true by (symmetry; apply Z.ltb_lt; lia).
    cbn [pad append localeCompare].
    now rewrite (proj2 (rank_sign_before_digit _)).
  - pose proof (late_year_fields _ _ _ _ C E1).
    replace ((0 <=? y1) && (y1 <=? 9999)) with false
      by (symmetry; apply andb_false_iff; right; apply Z.leb_gt; lia).
    replace (y1 <? 0) with false by (symmetry; apply Z.ltb_ge; lia).
    cbn [pad append localeCompare].
    now rewrite (proj1 (rank_sign_before_digit _)).
Qed.

(** X21.  The order of code units on timestamps written by
    [toISOString]: for
    two instants whose year is written with four digits
    (0000 to 9999) the order of the texts is the order of the instants, and
    equal texts mean equal instants.  A timestamp whose year falls outside
    that range begins with a sign and sorts before every four-digit one,
    also when its instant is the later one. *)
Theorem iso_order_is_time_order (t1 t2 : Z) :
  plainYear t2 ->
  (plainYear t1 ->
     (String.leb (toISOString t1) (toISOString t2) = true <-> t1 <= t2)
     /\ (toISOString t1 = toISOString t2 -> t1 = t2))
  /\ (~ plainYear t1 ->
        String.compare (toISOString t1) (toISOString t2) = Lt).
Proof.
  intros P2. split; [|intros N; now apply compare_outside_plain].
  intros P1. pose proof (compare_plain_iso t1 t2 P1 P2) as E. split.
  - unfold String.leb. rewrite E. destruct (Z.compare_spec t1 t2); split;
      intros; try reflexivity; try discriminate; lia.
  - intros A. rewrite A in E.
    assert (R : String.compare (toISOString t2) (toISOString t2) = Eq).
    { rewrite (compare_plain_iso t2 t2 P2 P2). apply Z.compare_refl. }
    rewrite R in E. symmetry in E. now apply Z.compare_eq in E.
Qed.

Lemma iso_order_is_time_order_witness :
  String.leb "1970-01-01T00:00:00.000Z" "2024-06-01T12:00:00.000Z" = true
  <-> 0 <= 1717243200000.
Proof.
  assert (P1 : plainYear 0) by (unfold plainYear, firstPlain, lastPlain; lia).
  assert (P2 : plainYear 1717243200000)
    by (unfold plainYear, firstPlain, lastPlain; lia).
  exact (proj1 (proj1 (iso_order_is_time_order 0 1717243200000 P2) P1)).
Defined.

Lemma latest_newest_sorted (l : list Entry) (z e : Entry) (t t' : Z) :
  lastEntry (sortByTs l) = Some z -> In e (sortByTs l) ->
  ts z = toISOString t -> ts e = toISOString t' -> plainYear t' ->
  plainYear t /\ t' <= t.
Proof.
  intros Hz He Ez Ee P'.
  pose proof (sorted_last_greatest _ z (sortByTs_sorted l) Hz e He) as L.
  unfold tsLe, tsLeb in L. rewrite Ez, Ee in L.
  destruct (plainYear_dec t) as [P|N].
  - split; [exact P|].
    unfold localeLeb in L. rewrite (locale_plain_iso t' t P' P) in L.
    destruct (Z.compare_spec t' t); [lia|lia|discriminate].
  - exfalso. pose proof (locale_outside_plain t t' N P') as C.
    unfold localeLeb in L. rewrite localeCompare_antisym, C in L. discriminate.
Qed.

(** X22.  The latest record of fetch_cefas.mjs (first script), part_001
    and part_002: when the history holds a record whose year is written
    with four digits, the latest record is such a record too, and no
    four-digit record of the history is later in time.  A row dated past the
    year 9999, as 99/99/9999 is after rolling over, is therefore never the
    latest beside an ordinary one although its instant is the greatest. *)
Theorem latest_is_newest_plain_record
  (h : Host) (env : Env) (rows : list Row) (s : list Entry) (z e : Entry) (t t' : Z) :
  In s [Fetch.series h env rows; Shape.series h env rows;
        Needles.series h env rows] ->
  lastEntry s = Some z -> In e s ->
  ts z = toISOString t -> ts e = toISOString t' -> plainYear t' ->
  plainYear t /\ t' <= t.
Proof.
  intros [<-|[<-|[<-|[]]]]; apply latest_newest_sorted.
Qed.

Lemma latest_is_newest_plain_record_witness :
  Fetch.series Example.utcHost Example.extEnv Sample.yearRows
  = [ mkEntry "+010007-06-11T04:40:39.000Z" [(hm0, Fin false 99 (-1))];
      mkEntry "2024-06-01T12:00:00.000Z" [(hm0, Fin false 15 (-1))];
      mkEntry "2024-06-02T12:00:00.000Z" [(hm0, Fin false 17 (-1))] ]
  /\ plainYear 1717329600000 /\ 1717243200000 <= 1717329600000.
Proof.
  split; [vm_compute; reflexivity|].
  refine (latest_is_newest_plain_record Example.utcHost Example.extEnv
            Sample.yearRows _
            (mkEntry "2024-06-02T12:00:00.000Z" [(hm0, Fin false 17 (-1))])
            (mkEntry "2024-06-01T12:00:00.000Z" [(hm0, Fin false 15 (-1))])
            1717329600000 1717243200000 (or_introl eq_refl) _ _ _ _ _).
  - vm_compute. reflexivity.
  - vm_compute. right. left. reflexivity.
  - vm_compute. reflexivity.
  - vm_compute. reflexivity.
  - unfold plainYear, firstPlain, lastPlain. lia.
Defined.

Import Labels.

(* ================================================================== *)
(** ** Further properties: the label objects and [pickField] *)
(* ================================================================== *)

Lemma find_first {A : Type} (P : A -> bool) (l : list A) (x : A) :
  List.find P l = Some x <-> firstMeeting P l x.
Proof.
  unfold firstMeeting. induction l as [|y l IH]; simpl.
  - split; [discriminate|]. intros (pre & post & E & _). destruct pre; discriminate.
  - destruct (P y) eqn:E.
    + split.
      * intros A0. inversion A0; subst. exists [], l.
        repeat split; [exact E|intros z []].
      * intros (pre & post & El & Hp & Hpre).
        destruct pre as [|z pre]; simpl in El; inversion El; subst; [reflexivity|].
        rewrite (Hpre z (or_introl eq_refl)) in E. discriminate.
    + rewrite IH. split.
      * intros (pre & post & -> & Hp & Hpre). exists (y :: pre), post.
        repeat split; [exact Hp|]. intros z [<-|Hz]; [exact E|now apply Hpre].
      * intros (pre & post & El & Hp & Hpre).
        destruct pre as [|z pre]; simpl in El; inversion El; subst.
        -- rewrite Hp in E. discriminate.
        -- exists pre, post. repeat split; [exact Hp|].
           intros w Hw. apply Hpre. now right.
Qed.

Lemma find_none_iff {A : Type} (P : A -> bool) (l : list A) :
  List.find P l = None <-> forall x, In x l -> P x = false.
Proof.
  split; [apply find_none|].
  induction l as [|y l IH]; simpl; [reflexivity|]. intros H.
  rewrite (H y (or_introl eq_refl)). apply IH. intros x Hx. apply H. now right.
Qed.

Lemma find_map {A B : Type} (f : A -> B) (P : B -> bool) (l : list A) :
  List.find P (map f l) = option_map f (List.find (fun x => P (f x)) l).
Proof.
  induction l as [|y l IH]; simpl; [reflexivity|].
  destruct (P (f y)); [reflexivity|exact IH].
Qed.

Lemma find_agree {A : Type} (P Q : A -> bool) (l : list A) :
  (forall x, In x l -> P x = Q x) -> List.find P l = List.find Q l.
Proof.
  induction l as [|y l IH]; simpl; [reflexivity|]. intros H.
  rewrite (H y (or_introl eq_refl)). destruct (Q y); [reflexivity|].
  apply IH. intros x Hx. apply H. now right.
Qed.

Lemma insertIndex_perm (p : string * num) (l : Obj) :
  Permutation (insertIndex p l) (p :: l).
Proof.
  induction l as [|q l IH]; simpl; [apply Permutation_refl|].
  destruct (_ <=? _)%N; [apply Permutation_refl|].
  apply perm_trans with (q :: p :: l); [now constructor|apply perm_swap].
Qed.

Lemma sortIndex_perm (l : Obj) : Permutation (sortIndex l) l.
Proof.
  induction l as [|p l IH]; simpl; [constructor|].
  apply perm_trans with (p :: sortIndex l); [apply insertIndex_perm|now constructor].
Qed.

Lemma filter_split_perm {A : Type} (P : A -> bool) (l : list A) :
  Permutation (filter P l ++ filter (fun x => negb (P x)) l) l.
Proof.
  induction l as [|x l IH]; simpl; [constructor|].
  destruct (P x); simpl.
  - now constructor.
  - apply Permutation_sym. apply Permutation_cons_app. now apply Permutation_sym.
Qed.

Lemma entries_perm (o : Obj) : Permutation (entries o) o.
Proof.
  unfold entries.
  apply perm_trans with
    (filter (fun p => isArrayIndex (fst p)) o
     ++ filter (fun p => negb (isArrayIndex (fst p))) o)%list.
  - apply Permutation_app_tail, sortIndex_perm.
  - apply (filter_split_perm (fun p => isArrayIndex (fst p))).
Qed.

Lemma in_entries (o : Obj) (e : string * num) : In e (entries o) <-> In e o.
Proof.
  split; apply Permutation_in; [apply entries_perm|apply Permutation_sym, entries_perm].
Qed.

Lemma in_keys (o : Obj) (k : string) : In k (keys o) <-> In k (map fst o).
Proof.
  unfold keys. split; apply Permutation_in; apply Permutation_map;
    [apply entries_perm|apply Permutation_sym, entries_perm].
Qed.

Lemma getProp_in (o : Obj) (k : string) (v : num) :
  NoDup (map fst o) -> (getProp o k = Some v <-> In (k, v) o).
Proof.
  induction o as [|[k' v'] o IH]; simpl; intros N.
  - split; [discriminate|tauto].
  - inversion N as [|? ? Hn N']; subst.
    destruct (String.eqb_spec k' k) as [->|D].
    + split.
      * intros A. inversion A. now left.
      * intros [A|A]; [now inversion A|].
        exfalso. apply Hn. apply in_map_iff. now exists (k, v).
    + rewrite (IH N'). split; [now right|].
      intros [A|A]; [inversion A; congruence|exact A].
Qed.

Lemma getProp_some_in (o : Obj) (k : string) :
  In k (map fst o) -> exists v, getProp o k = Some v.
Proof.
  induction o as [|[k' v'] o IH]; simpl; [tauto|].
  destruct (String.eqb_spec k' k) as [->|D]; [now exists v'|].
  intros [A|A]; [congruence|now apply IH].
Qed.

Lemma getProp_none (o : Obj) (k : string) :
  getProp o k = None <-> ~ In k (map fst o).
Proof.
  induction o as [|[k' v'] o IH]; simpl; [tauto|].
  destruct (String.eqb_spec k' k) as [->|D].
  - split; [discriminate|]. intros H. exfalso. apply H. now left.
  - rewrite IH. tauto.
Qed.

Lemma canon_pick_as_find (o : Obj) (pats : list Pattern) :
  NoDup (map fst o) ->
  Canon.pickField o pats
  = match List.find (meetsAny pats) (keys o) with
    | Some k => getProp o k
    | None => None
    end.
Proof.
  intros N. unfold Canon.pickField, keys. rewrite find_map.
  change (fun x : string * num => meetsAny pats (fst x))
    with (fun e : string * num => existsb (fun re => test re (canon (fst e))) pats).
  destruct (List.find _ (entries o)) as [[k v]|] eqn:E; simpl; [|reflexivity].
  symmetry. apply (getProp_in o k v N). apply in_entries.
  apply (find_some _ _ E).
Qed.

Lemma canon_pickField_first (o : Obj) (pats : list Pattern) (v : num) :
  NoDup (map fst o) ->
  (Canon.pickField o pats = Some v
   <-> exists k, firstMeeting (meetsAny pats) (keys o) k /\ getProp o k = Some v).
Proof.
  intros N. rewrite (canon_pick_as_find o pats N). split.
  - destruct (List.find _ _) as [k|] eqn:E; [|discriminate].
    intros A. exists k. split; [now apply find_first|exact A].
  - intros (k & F & A). apply find_first in F. now rewrite F.
Qed.

Lemma picker_pickField_first (o : Obj) (pats : list Pattern) (v : num) :
  ~ In "" (map fst o) ->
  (Picker.pickField o pats = Some v
   <-> exists ps re qs k,
         pats = (ps ++ re :: qs)%list
         /\ (forall p k', In p ps -> In k' (keys o) -> meets p k' = false)
         /\ firstMeeting (meets re) (keys o) k
         /\ getProp o k = Some v).
Proof.
  intros Hne. induction pats as [|re0 rest IH].
  - simpl. split; [discriminate|]. intros (ps & re & qs & k & E & _).
    destruct ps; discriminate.
  - cbn [Picker.pickField].
    change (fun k : string => test re0 (canon k)) with (meets re0).
    destruct (List.find (meets re0) (keys o)) as [m|] eqn:F.
    + assert (Hm : isEmptyStr m = false).
      { destruct m; [|reflexivity]. exfalso. apply Hne. apply in_keys.
        apply (find_some _ _ F). }
      rewrite Hm. split.
      * intros A. exists [], re0, rest, m. split; [reflexivity|].
        split; [intros p k' []|]. split; [now apply find_first|exact A].
      * intros (ps & re & qs & k & E & Hps & Hk & A).
        destruct ps as [|p ps]; simpl in E; inversion E; subst.
        -- apply find_first in Hk. rewrite Hk in F. inversion F; subst. exact A.
        -- exfalso. destruct (find_some _ _ F) as [Hin Hmeet].
           rewrite (Hps p m (or_introl eq_refl) Hin) in Hmeet. discriminate.
    + rewrite IH. split.
      * intros (ps & re & qs & k & -> & Hps & Hk & A).
        exists (re0 :: ps), re, qs, k. split; [reflexivity|]. split; [|now split].
        intros p k' [Ep|Hp] Hk'; [|now apply Hps].
        rewrite <- Ep. apply (proj1 (find_none_iff _ _) F k' Hk').
      * intros (ps & re & qs & k & E & Hps & Hk & A).
        destruct ps as [|p ps]; simpl in E; inversion E; subst.
        -- apply find_first in Hk. rewrite Hk in F. discriminate.
        -- exists ps, re, qs, k. split; [reflexivity|]. split; [|now split].
           intros p' k' Hp Hk'. apply Hps; [now right|exact Hk'].
Qed.

(** X23.  [pickField] in the two later scripts, on an object without a
    repeated or empty label.  part_000 returns the value of the first label,
    in key order, that meets any pattern of the list; fetch_cefas.mjs
    returns the value of the first label that meets the earliest pattern met
    by any label.  So the order of the patterns decides in one script and
    the order of the labels in the other. *)
Theorem pickField_priority (o : Obj) (pats : list Pattern) (v : num) :
  wellKeyed o ->
  (Canon.pickField o pats = Some v
   <-> exists k, firstMeeting (meetsAny pats) (keys o) k /\ getProp o k = Some v)
  /\ (Picker.pickField o pats = Some v
      <-> exists ps re qs k,
            pats = (ps ++ re :: qs)%list
            /\ (forall p k', In p ps -> In k' (keys o) -> meets p k' = false)
            /\ firstMeeting (meets re) (keys o) k
            /\ getProp o k = Some v).
Proof.
  intros [N E]. split.
  - now apply canon_pickField_first.
  - now apply picker_pickField_first.
Qed.

Lemma pickField_priority_witness :
  Canon.pickField [("Hs", Fin false 15 (-1)); ("Hm0", Fin false 17 (-1))]
                  Canon.hm0Patterns = Some (Fin false 15 (-1))
  /\ Picker.pickField [("Hs", Fin false 15 (-1)); ("Hm0", Fin false 17 (-1))]
                      Picker.hm0Patterns = Some (Fin false 17 (-1)).
Proof.
  assert (W : wellKeyed [("Hs", Fin false 15 (-1)); ("Hm0", Fin false 17 (-1))]).
  { split.
    - repeat constructor; simpl; intuition discriminate.
    - simpl. intuition discriminate. }
  split.
  - apply (proj1 (pickField_priority _ Canon.hm0Patterns (Fin false 15 (-1)) W)).
    exists "Hs". split; [|reflexivity].
    exists [], ["Hm0"]. repeat split. intros y [].
  - apply (proj2 (pickField_priority _ Picker.hm0Patterns (Fin false 17 (-1)) W)).
    exists [], (Whole "hm0"),
      [Part "significantwaveheight"; Whole "hs"; Part "hm0m"], "Hm0".
    split; [reflexivity|]. split; [intros p k' []|]. split; [|reflexivity].
    exists ["Hs"], []. repeat split. intros y [<-|[]]. reflexivity.
Defined.

Lemma picker_pick_as_find (o : Obj) (pats : list Pattern) :
  ~ In "" (map fst o) ->
  (forall k1 k2, In k1 (keys o) -> In k2 (keys o) ->
                 meetsAny pats k1 = true -> meetsAny pats k2 = true -> k1 = k2) ->
  Picker.pickField o pats
  = match List.find (meetsAny pats) (keys o) with
    | Some k => getProp o k
    | None => None
    end.
Proof.
  intros Hne. induction pats as [|re rest IH]; intros U.
  - simpl. replace (List.find (meetsAny []) (keys o)) with (@None string);
      [reflexivity|].
    symmetry. apply find_none_iff. reflexivity.
  - cbn [Picker.pickField].
    change (fun k : string => test re (canon k)) with (meets re).
    destruct (List.find (meets re) (keys o)) as [m|] eqn:F.
    + destruct (find_some _ _ F) as [Hin Hmeet].
      assert (Hm : isEmptyStr m = false).
      { destruct m; [|reflexivity]. exfalso. apply Hne. now apply in_keys. }
      rewrite Hm.
      assert (Hany : meetsAny (re :: rest) m = true).
      { unfold meetsAny. simpl. unfold meets in Hmeet. now rewrite Hmeet. }
      destruct (List.find (meetsAny (re :: rest)) (keys o)) as [k|] eqn:G.
      * destruct (find_some _ _ G) as [Hk1 Hk2].
        now rewrite (U k m Hk1 Hin Hk2 Hany).
      * rewrite (proj1 (find_none_iff _ _) G m Hin) in Hany. discriminate.
    + rewrite IH.
      * rewrite (find_agree (meetsAny (re :: rest)) (meetsAny rest) (keys o));
          [reflexivity|].
        intros x Hx. unfold meetsAny. simpl.
        pose proof (proj1 (find_none_iff _ _) F x Hx) as A. unfold meets in A.
        now rewrite A.
      * intros k1 k2 H1 H2 A1 A2. apply U; try assumption;
          unfold meetsAny in *; simpl; rewrite ?A1, ?A2; apply orb_true_r.
Qed.

(** X24.  The two [pickField] agree whenever at most one label of the
    object meets the pattern list: they can differ only on a record that
    carries two labels for the same quantity. *)
Theorem pickField_generations_agree (o : Obj) (pats : list Pattern) :
  wellKeyed o ->
  (forall k1 k2, In k1 (keys o) -> In k2 (keys o) ->
                 meetsAny pats k1 = true -> meetsAny pats k2 = true -> k1 = k2) ->
  Picker.pickField o pats = Canon.pickField o pats.
Proof.
  intros [N E] U.
  rewrite (picker_pick_as_find o pats E U). symmetry.
  now apply canon_pick_as_find.
Qed.

Lemma pickField_generations_agree_witness :
  Picker.pickField [("Hm0", Fin false 17 (-1)); ("Tpeak", Fin false 62 (-1))]
                   Canon.tpPatterns
  = Canon.pickField [("Hm0", Fin false 17 (-1)); ("Tpeak", Fin false 62 (-1))]
                    Canon.tpPatterns.
Proof.
  apply pickField_generations_agree.
  - split.
    + repeat constructor; simpl; intuition discriminate.
    + simpl. intuition discriminate.
  - intros k1 k2 [<-|[<-|[]]] [<-|[<-|[]]] A B;
      try reflexivity; vm_compute in A; vm_compute in B; discriminate.
Defined.

(* ================================================================== *)
(** ** Further properties: the series of the later scripts *)
(* ================================================================== *)

Lemma insertCanonical_perm (x : Canonical) (l : list Canonical) :
  Permutation (insertCanonical x l) (x :: l).
Proof.
  induction l as [|y l IH]; simpl; [apply Permutation_refl|].
  destruct (ctsLeb x y); [apply Permutation_refl|].
  apply perm_trans with (y :: x :: l); [now constructor|apply perm_swap].
Qed.

Lemma sortCanonical_perm (l : list Canonical) : Permutation (sortCanonical l) l.
Proof.
  induction l as [|x l IH]; simpl; [constructor|].
  apply perm_trans with (x :: sortCanonical l);
    [apply insertCanonical_perm|now constructor].
Qed.

Lemma ctsLeb_total (a b : Canonical) : ctsLeb a b = false -> ctsLeb b a = true.
Proof.
  unfold ctsLeb. apply localeLeb_total.
Qed.

Lemma insertCanonical_sorted (x : Canonical) (l : list Canonical) :
  Sorted ctsLe l -> Sorted ctsLe (insertCanonical x l).
Proof.
  induction 1 as [|y l Hs IH Hh]; simpl.
  - repeat constructor.
  - destruct (ctsLeb x y) eqn:E.
    + constructor; [now constructor|now constructor].
    + constructor; [exact IH|].
      destruct l as [|z l]; simpl.
      * constructor. now apply ctsLeb_total.
      * destruct (ctsLeb x z).
        -- constructor. now apply ctsLeb_total.
        -- inversion Hh; subst. now constructor.
Qed.

Lemma sortCanonical_sorted (l : list Canonical) : Sorted ctsLe (sortCanonical l).
Proof.
  induction l as [|x l IH]; simpl; [constructor|].
  now apply insertCanonical_sorted.
Qed.

Lemma putProp_keys (o : Obj) (k : string) (v : num) :
  map fst (putProp o k v)
  = if existsb (String.eqb k) (map fst o) then map fst o
    else (map fst o ++ [k])%list.
Proof.
  induction o as [|[k' v'] o IH]; simpl; [reflexivity|].
  rewrite (String.eqb_sym k k').
  destruct (String.eqb_spec k' k) as [->|D]; simpl; [reflexivity|].
  rewrite IH. now destruct (existsb _ _).
Qed.

Lemma existsb_eqb_in (k : string) (l : list string) :
  existsb (String.eqb k) l = true <-> In k l.
Proof.
  rewrite existsb_exists. split.
  - intros (x & Hx & E). apply String.eqb_eq in E. now subst.
  - intros H. exists k. split; [exact H|apply String.eqb_refl].
Qed.

Lemma putProp_values (o : Obj) (k : string) (v : num) (P : num -> Prop) :
  P v -> Forall (fun p => P (snd p)) o -> Forall (fun p => P (snd p)) (putProp o k v).
Proof.
  intros Hv. induction 1 as [|[k' v'] o Hp Ho IH]; simpl.
  - now repeat constructor.
  - destruct (k' =? k)%string; constructor; assumption.
Qed.

Lemma setProp_good (o : Obj) (k : string) (v : num) :
  k <> "" -> isFinite v = true -> goodRaw o -> goodRaw (setProp o k v).
Proof.
  intros Hk Hv ((N & E) & Pr & F). unfold setProp.
  destruct (String.eqb_spec k "__proto__") as [->|D]; [now repeat split|].
  assert (K : forall x, In x (map fst (putProp o k v)) -> In x (map fst o) \/ x = k).
  { intros x. rewrite putProp_keys. destruct (existsb _ _); [now left|].
    rewrite in_app_iff. simpl. intuition. }
  repeat split.
  - rewrite putProp_keys. destruct (existsb _ _) eqn:X; [exact N|].
    apply NoDup_app_iff || idtac.
    assert (Hn : ~ In k (map fst o)).
    { intros H. apply existsb_eqb_in in H. congruence. }
    clear - N Hn. induction (map fst o) as [|x l IH]; simpl.
    + repeat constructor. intros [].
    + inversion N; subst. constructor.
      * rewrite in_app_iff. simpl. intros [A|[A|[]]]; [contradiction|].
        apply Hn. now left.
      * apply IH; [assumption|]. intros A. apply Hn. now right.
  - intros H. destruct (K _ H) as [A|A]; [contradiction|congruence].
  - intros H. destruct (K _ H) as [A|A]; [contradiction|congruence].
  - now apply (putProp_values o k v (fun x => isFinite x = true)).
Qed.

Lemma assignRaw_keys (m : RawMap) (t l : string) (v : num) :
  map fst (assignRaw m t l v) = map fst m.
Proof.
  induction m as [|[k e] m IH]; simpl; [reflexivity|].
  destruct (k =? t)%string; simpl; [reflexivity|now rewrite IH].
Qed.

Lemma assignRaw_good (m : RawMap) (t l : string) (v : num) :
  l <> "" -> isFinite v = true ->
  Forall (fun p => nts (snd p) = fst p /\ goodRaw (raw (snd p))) m ->
  Forall (fun p => nts (snd p) = fst p /\ goodRaw (raw (snd p))) (assignRaw m t l v).
Proof.
  intros Hl Hv. induction 1 as [|[k e] m [Hk Hg] Hm IH]; simpl; [constructor|].
  destruct (k =? t)%string; constructor; try assumption; simpl in *.
  - split; [exact Hk|now apply setProp_good].
  - now split.
Qed.

Lemma hasTs_in (m : RawMap) (t : string) : hasTs m t = true <-> In t (map fst m).
Proof.
  induction m as [|[k e] m IH]; simpl; [split; [discriminate|tauto]|].
  rewrite orb_true_iff, IH. destruct (String.eqb_spec k t); intuition congruence.
Qed.

Lemma note_good (m : RawMap) (t l : string) (v : num) :
  l <> "" -> isFinite v = true -> goodMap m -> goodMap (note m t l v).
Proof.
  intros Hl Hv [N F]. unfold note, goodMap. rewrite assignRaw_keys.
  destruct (hasTs m t) eqn:E.
  - split; [exact N|now apply assignRaw_good].
  - split.
    + rewrite map_app. simpl.
      assert (Hn : ~ In t (map fst m)).
      { intros H. apply hasTs_in in H. congruence. }
      clear - N Hn. induction (map fst m) as [|x r IH]; simpl.
      * repeat constructor. intros [].
      * inversion N; subst. constructor.
        -- rewrite in_app_iff. simpl. intros [A|[A|[]]]; [contradiction|].
           apply Hn. now left.
        -- apply IH; [assumption|]. intros A. apply Hn. now right.
    + apply assignRaw_good; try assumption.
      apply Forall_app. split; [exact F|]. constructor; [|constructor].
      simpl. split; [reflexivity|]. repeat split; simpl; try tauto; constructor.
Qed.

Lemma canon_step_cases (h : Host) (env : Env) (c : Fetch.Columns) (m : RawMap) (r : Row) :
  Canon.step h env c m r = m
  \/ exists t l v, l <> "" /\ isFinite v = true /\ Canon.step h env c m r = note m t l v.
Proof.
  unfold Canon.step.
  destruct (negb (Canon.isCardigan env c r)); [now left|].
  destruct (Canon.toISO h _) as [t|]; [|now left].
  destruct (readValue _) as [v|] eqn:E; [|now left].
  destruct (norm (cell r (Fetch.paramCol c))) as [|a l] eqn:L; [now left|].
  right. exists t, (String a l), v. repeat split; [discriminate|].
  now apply (readValue_finite _ _ E).
Qed.

Lemma picker_step_cases (h : Host) (c : Picker.Columns) (s : Picker.Station)
  (m : RawMap) (r : Row) :
  Picker.step h c s m r = m
  \/ exists t l v, l <> "" /\ isFinite v = true /\ Picker.step h c s m r = note m t l v.
Proof.
  unfold Picker.step.
  destruct (negb (Picker.matchesChosen c s r)); [now left|].
  destruct (Picker.toISO h _) as [t|]; [|now left].
  destruct (readValue _) as [v|] eqn:E; [|now left].
  destruct (norm (Picker.sub r (Picker.paramCol c))) as [|a l] eqn:L; [now left|].
  right. exists t, (String a l), v. repeat split; [discriminate|].
  now apply (readValue_finite _ _ E).
Qed.

Lemma fold_goodMap (step : RawMap -> Row -> RawMap) (rows : list Row) :
  (forall m r, step m r = m
               \/ exists t l v, l <> "" /\ isFinite v = true /\ step m r = note m t l v) ->
  forall m, goodMap m -> goodMap (fold_left step rows m).
Proof.
  intros Hs. induction rows as [|r rows IH]; intros m G; simpl; [exact G|].
  apply IH. destruct (Hs m r) as [->|(t & l & v & Hl & Hv & ->)]; [exact G|].
  now apply note_good.
Qed.

Lemma goodMap_nil : goodMap [].
Proof. split; constructor. Qed.

Lemma canon_byTs_good (h : Host) (env : Env) (rows : list Row) :
  goodMap (Canon.byTsOf h env rows).
Proof.
  unfold Canon.byTsOf. apply fold_goodMap; [|apply goodMap_nil].
  intros m r. apply canon_step_cases.
Qed.

Lemma picker_byTs_good (h : Host) (env : Env) (rows : list Row) :
  goodMap (Picker.byTsOf h env rows).
Proof.
  unfold Picker.byTsOf. destruct (Picker.chosenOf h env rows) as [s|];
    [|apply goodMap_nil].
  apply fold_goodMap; [|apply goodMap_nil].
  intros m r. apply picker_step_cases.
Qed.

Lemma getProp_some_pair (o : Obj) (k : string) (v : num) :
  getProp o k = Some v -> In (k, v) o.
Proof.
  induction o as [|[k' v'] o IH]; simpl; [discriminate|].
  destruct (String.eqb_spec k' k) as [->|D].
  - intros A. inversion A. now left.
  - intros A. right. now apply IH.
Qed.

Lemma canon_pickField_sound (o : Obj) (pats : list Pattern) (v : num) :
  Canon.pickField o pats = Some v -> exists l, In (l, v) o.
Proof.
  unfold Canon.pickField. destruct (List.find _ _) as [[k w]|] eqn:E; [|discriminate].
  simpl. intros A. inversion A; subst. exists k. apply in_entries.
  apply (find_some _ _ E).
Qed.

Lemma picker_pickField_sound (o : Obj) (pats : list Pattern) (v : num) :
  Picker.pickField o pats = Some v -> exists l, In (l, v) o.
Proof.
  induction pats as [|re rest IH]; simpl; [discriminate|].
  destruct (List.find _ _) as [m|]; [|exact IH].
  destruct (isEmptyStr m); [exact IH|].
  intros A. exists m. now apply getProp_some_pair.
Qed.

Lemma canonicalize_sound (e : Noted) (k : Key) (v : num) :
  fieldOf (Canon.canonicalize e) k = Some v -> exists l, In (l, v) (raw e).
Proof.
  destruct k; cbn [fieldOf Canon.canonicalize chm0 ctp ctz cdir];
    apply canon_pickField_sound.
Qed.

Lemma toRecord_sound (e : Noted) (k : Key) (v : num) :
  fieldOf (Picker.toRecord e) k = Some v -> exists l, In (l, v) (raw e).
Proof.
  destruct k; cbn [fieldOf Picker.toRecord chm0 ctp ctz cdir];
    try apply picker_pickField_sound.
  unfold orElse. destruct (Picker.pickField (raw e) Picker.dirPatterns) eqn:E.
  - intros A. inversion A; subst. now apply (picker_pickField_sound _ _ _ E).
  - intros A. exists "W_PDIR". now apply getProp_some_pair.
Qed.

Lemma sorted_records (f : Noted -> Canonical) (m : RawMap) :
  (forall e, cts (f e) = nts e) -> (forall e, craw (f e) = raw e) ->
  (forall e k v, fieldOf (f e) k = Some v -> exists l, In (l, v) (raw e)) ->
  goodMap m ->
  Sorted ctsLe (sortCanonical (map f (map snd m)))
  /\ NoDup (map cts (sortCanonical (map f (map snd m))))
  /\ forall r, In r (sortCanonical (map f (map snd m))) ->
       goodRaw (craw r)
       /\ forall k v, fieldOf r k = Some v -> exists l, In (l, v) (craw r).
Proof.
  intros Hts Hraw Hf [N F]. split; [apply sortCanonical_sorted|]. split.
  - eapply Permutation_NoDup;
      [apply Permutation_map, Permutation_sym, sortCanonical_perm|].
    replace (map cts (map f (map snd m))) with (map fst m); [exact N|].
    clear N. induction F as [|[k e] m [Hk _] _ IH]; simpl; [reflexivity|].
    simpl in Hk. now rewrite Hts, Hk, IH.
  - intros r Hr.
    apply (Permutation_in _ (sortCanonical_perm _)) in Hr.
    apply in_map_iff in Hr as (e & <- & He).
    apply in_map_iff in He as ([k e'] & <- & He). simpl.
    rewrite Forall_forall in F. destruct (F _ He) as [_ G]. simpl in G.
    rewrite Hraw. split; [exact G|]. apply Hf.
Qed.

Lemma lastCanonical_none (l : list Canonical) : lastCanonical l = None <-> l = [].
Proof.
  unfold lastCanonical. split; [|now intros ->].
  induction l as [|x l IH]; simpl; [reflexivity|].
  destruct l as [|y l]; [discriminate|]. intros A. specialize (IH A). discriminate.
Qed.

Lemma lastCanonical_in (l : list Canonical) (z : Canonical) :
  lastCanonical l = Some z -> In z l.
Proof.
  unfold lastCanonical. induction l as [|x l IH]; simpl; [discriminate|].
  destruct l as [|y l]; simpl in *.
  - intros A. inversion A. now left.
  - intros A. right. now apply IH.
Qed.

Lemma sorted_lastCanonical (l : list Canonical) (z : Canonical) :
  Sorted ctsLe l -> lastCanonical l = Some z -> forall r, In r l -> ctsLe r z.
Proof.
  unfold lastCanonical. induction 1 as [|x l Hs IH Hh]; simpl; [discriminate|].
  destruct l as [|y l]; simpl in *.
  - intros A r [<-|[]]. inversion A. apply localeLeb_refl.
  - intros A r [<-|Hin]; [|now apply IH].
    inversion Hh; subst. apply (localeLeb_trans _ (cts y)); [assumption|].
    apply IH; [exact A|now left].
Qed.

(** X25.  The series of the two later scripts (part_000 and
    fetch_cefas.mjs, second script each): it is sorted by timestamp, in the
    order of the host collation, and holds every timestamp once; the raw
    object of a record holds no label twice, no empty label, never the label
    [__proto__], and finite numbers only; every canonical field a record
    shows is the value of one of its raw labels; the latest record is null
    exactly when the series is empty, otherwise a record of the series with
    no greater timestamp in it; and when the series holds a record whose
    year is written with four digits, the latest record is such a record
    too and no four-digit record of the series is later in time. *)
Theorem later_series_sorted_and_sound (h : Host) (env : Env) (rows : list Row)
  (s : list Canonical) (latest : option Canonical) :
  In (s, latest) [(Canon.series h env rows, Canon.latest h env rows);
                  (Picker.series h env rows, Picker.latest h env rows)] ->
  Sorted ctsLe s
  /\ NoDup (map cts s)
  /\ (forall r, In r s ->
        goodRaw (craw r)
        /\ forall k v, fieldOf r k = Some v -> exists l, In (l, v) (craw r))
  /\ (latest = None <-> s = [])
  /\ (forall z, latest = Some z -> In z s /\ forall r, In r s -> ctsLe r z)
  /\ (forall (z r : Canonical) (t t' : Z),
        latest = Some z -> In r s ->
        cts z = toISOString t -> cts r = toISOString t' -> plainYear t' ->
        plainYear t /\ t' <= t).
Proof.
  intros H.
  assert (A : Sorted ctsLe s
              /\ NoDup (map cts s)
              /\ forall r, In r s ->
                   goodRaw (craw r)
                   /\ forall k v, fieldOf r k = Some v -> exists l, In (l, v) (craw r)).
  { destruct H as [E|[E|[]]]; inversion E; subst s.
    - apply sorted_records; try reflexivity;
        [apply canonicalize_sound|apply canon_byTs_good].
    - apply sorted_records; try reflexivity;
        [apply toRecord_sound|apply picker_byTs_good]. }
  assert (L : latest = lastCanonical s).
  { destruct H as [E|[E|[]]]; inversion E; reflexivity. }
  destruct A as (A1 & A2 & A3). subst latest.
  split; [exact A1|]. split; [exact A2|]. split; [exact A3|].
  split; [apply lastCanonical_none|].
  split.
  - intros z Hz. split; [now apply lastCanonical_in|].
    now apply sorted_lastCanonical.
  - intros z r t t' Hz Hr Ez Er P'.
    pose proof (sorted_lastCanonical s z A1 Hz r Hr) as Le.
    unfold ctsLe, ctsLeb in Le. rewrite Ez, Er in Le.
    destruct (plainYear_dec t) as [P|N].
    + split; [exact P|].
      unfold localeLeb in Le. rewrite (locale_plain_iso t' t P' P) in Le.
      destruct (Z.compare_spec t' t); [lia|lia|discriminate].
    + exfalso. pose proof (locale_outside_plain t t' N P') as C.
      unfold localeLeb in Le. rewrite localeCompare_antisym, C in Le. discriminate.
Qed.

Lemma later_series_sorted_and_sound_witness :
  map cts (Picker.series Example.utcHost Example.extEnv LaterSample.signedLabelRows)
  = ["-000001-01-01T00:00:00.000Z"; "+010000-01-01T00:00:00.000Z";
     "2024-06-01T12:00:00.000Z"]
  /\ Sorted ctsLe (Picker.series Example.utcHost Example.extEnv
                     LaterSample.signedLabelRows)
  /\ NoDup (map cts (Picker.series Example.utcHost Example.extEnv
                       LaterSample.signedLabelRows)).
Proof.
  split; [vm_compute; reflexivity|].
  pose proof (later_series_sorted_and_sound Example.utcHost Example.extEnv
                LaterSample.signedLabelRows _ _ (or_intror (or_introl eq_refl)))
    as (A & B & _).
  split; [exact A|exact B].
Defined.

Lemma underscore_pattern_dead (k : string) : meets (Whole "w_pdir") k = false.
Proof.
  unfold meets, test, canon.
  destruct (String.eqb_spec (stripNonAlnum (toLowerCase k)) "w_pdir") as [E|]; [|reflexivity].
  pose proof (stripped_no_underscore (toLowerCase k)) as H.
  rewrite E in H. discriminate H.
Qed.

Lemma picker_dir_found (o : Obj) :
  ~ In "" (map fst o) -> getProp o "W_PDIR" <> None ->
  Picker.pickField o Picker.dirPatterns <> None.
Proof.
  intros Hne Hw.
  assert (Hin : In "W_PDIR" (keys o)).
  { apply in_keys. destruct (getProp o "W_PDIR") eqn:E; [|congruence].
    apply getProp_some_pair in E. apply in_map_iff. now exists ("W_PDIR", n). }
  unfold Picker.dirPatterns. cbn [Picker.pickField].
  change (fun k : string => test (Whole "w_pdir") (canon k)) with (meets (Whole "w_pdir")).
  rewrite (proj2 (find_none_iff (meets (Whole "w_pdir")) (keys o)))
    by (intros x _; apply underscore_pattern_dead).
  change (fun k : string => test (Whole "wpdir") (canon k)) with (meets (Whole "wpdir")).
  destruct (List.find (meets (Whole "wpdir")) (keys o)) as [m|] eqn:F.
  - destruct (find_some _ _ F) as [Hm _].
    assert (Em : isEmptyStr m = false).
    { destruct m; [|reflexivity]. exfalso. apply Hne. now apply in_keys. }
    rewrite Em.
    destruct (getProp_some_in o m (proj1 (in_keys o m) Hm)) as [v ->]. discriminate.
  - exfalso. pose proof (proj1 (find_none_iff _ _) F "W_PDIR" Hin) as A.
    discriminate A.
Qed.

Lemma canon_dir_blind (k : string) :
  canon k = "wpdir" -> meetsAny Canon.dirPatterns k = false.
Proof. intros E. unfold meetsAny, Canon.dirPatterns. simpl. rewrite E. reflexivity. Qed.

(** X26.  The label [W_PDIR] in the two later scripts.  The pattern
    [^w_pdir$] is tested on a label whose underscore is already removed, so
    it meets no label at all.  fetch_cefas.mjs also lists [^wpdir$], which
    makes its fallback on the raw label W_PDIR dead code: whenever that
    label is present the pattern list has already found a direction.
    part_000 does not list it, so a record whose labels all fold to [wpdir]
    gets no direction there. *)
Theorem w_pdir_in_later_scripts :
  (forall k, meets (Whole "w_pdir") k = false)
  /\ (forall e, ~ In "" (map fst (raw e)) ->
        cdir (Picker.toRecord e) = Picker.pickField (raw e) Picker.dirPatterns)
  /\ (forall e, (forall k, In k (map fst (raw e)) -> canon k = "wpdir") ->
        cdir (Canon.canonicalize e) = None)
  /\ (forall t v, cdir (Picker.toRecord (mkNoted t [("W_PDIR", v)])) = Some v).
Proof.
  split; [exact underscore_pattern_dead|]. split; [|split].
  - intros e Hne. cbn [cdir Picker.toRecord]. unfold orElse.
    destruct (Picker.pickField (raw e) Picker.dirPatterns) eqn:E; [reflexivity|].
    destruct (getProp (raw e) "W_PDIR") eqn:G; [|reflexivity].
    exfalso. apply (picker_dir_found (raw e) Hne); [congruence|exact E].
  - intros e H. cbn [cdir Canon.canonicalize]. unfold Canon.pickField.
    assert (F : List.find
                  (fun x : string * num =>
                     existsb (fun re => test re (canon (fst x))) Canon.dirPatterns)
                  (entries (raw e)) = None).
    { apply find_none_iff. intros [k v] Hk.
      pose proof (proj1 (in_entries _ _) Hk) as Hk'.
      apply (canon_dir_blind k). apply H.
      apply in_map_iff. now exists (k, v). }
    now rewrite F.
  - intros t v. reflexivity.
Qed.

(* ------------------------------------------------------------------ *)

Lemma insertStation_perm (x : Picker.Station) (l : list Picker.Station) :
  Permutation (Picker.insertStation x l) (x :: l).
Proof.
  induction l as [|y l IH]; simpl; [apply Permutation_refl|].
  destruct (Picker.byCount x y); [apply Permutation_refl|].
  apply perm_trans with (y :: x :: l); [now constructor|apply perm_swap].
Qed.

Lemma sortStations_perm (l : list Picker.Station) :
  Permutation (Picker.sortStations l) l.
Proof.
  induction l as [|x l IH]; simpl; [constructor|].
  apply perm_trans with (x :: Picker.sortStations l);
    [apply insertStation_perm|now constructor].
Qed.

Lemma insertStation_head (x : Picker.Station) (l : list Picker.Station) :
  (forall y z, hd_error l = Some y -> In z l -> Picker.countGe y z) ->
  forall y z, hd_error (Picker.insertStation x l) = Some y ->
              In z (Picker.insertStation x l) -> Picker.countGe y z.
Proof.
  unfold Picker.countGe. destruct l as [|a l]; simpl.
  - intros _ y z A [<-|[]]. inversion A. lia.
  - intros H y z. pose proof (H a) as Ha. unfold Picker.byCount.
    destruct (N.leb_spec (Picker.rowCount a) (Picker.rowCount x)); simpl.
    + intros A. inversion A; subst. intros [<-|[<-|Hz]]; [lia|lia|].
      specialize (Ha z eq_refl (or_intror Hz)). lia.
    + intros A. inversion A; subst. intros [<-|Hz]; [lia|].
      apply (Permutation_in _ (insertStation_perm x l)) in Hz.
      destruct Hz as [<-|Hz]; [lia|].
      apply (Ha z eq_refl (or_intror Hz)).
Qed.

Lemma sortStations_head (l : list Picker.Station) (s : Picker.Station) :
  hd_error (Picker.sortStations l) = Some s ->
  In s l /\ forall z, In z l -> Picker.countGe s z.
Proof.
  intros H. split.
  - apply (Permutation_in _ (sortStations_perm l)).
    destruct (Picker.sortStations l); inversion H. now left.
  - assert (G : forall y z, hd_error (Picker.sortStations l) = Some y ->
                            In z (Picker.sortStations l) -> Picker.countGe y z).
    { clear. induction l as [|x l IH]; simpl.
      - intros y z A. discriminate.
      - now apply insertStation_head. }
    intros z Hz. apply (G s z H).
    apply (Permutation_in _ (Permutation_sym (sortStations_perm l)) Hz).
Qed.

Lemma sortStations_some (l : list Picker.Station) :
  l <> [] -> exists s, hd_error (Picker.sortStations l) = Some s.
Proof.
  intros H. destruct (Picker.sortStations l) as [|s r] eqn:E.
  - exfalso. apply H. apply Permutation_nil.
    rewrite <- E. apply sortStations_perm.
  - now exists s.
Qed.

Lemma updateKey_keys (m : Picker.StationMap) (k : string) (f : Picker.Station -> Picker.Station) :
  map fst (Picker.updateKey m k f) = map fst m.
Proof.
  induction m as [|[k' s] m IH]; simpl; [reflexivity|].
  destruct (k' =? k)%string; simpl; [reflexivity|now rewrite IH].
Qed.

Lemma count_not_nil (h : Host) (c : Picker.Columns) (m : Picker.StationMap) (r : Row) :
  Picker.count h c m r <> [].
Proof.
  unfold Picker.count. intros E. apply (f_equal (map fst)) in E.
  rewrite updateKey_keys in E.
  destruct (Picker.hasKey m (Picker.instKeyOf c r)) eqn:H.
  - destruct m; [discriminate H|discriminate E].
  - rewrite map_app in E. destruct (map fst m); discriminate E.
Qed.

Lemma fold_count_not_nil (h : Host) (c : Picker.Columns) (rows : list Row) :
  forall m, m <> [] -> fold_left (Picker.count h c) rows m <> [].
Proof.
  induction rows as [|r rows IH]; intros m Hm; simpl; [exact Hm|].
  apply IH, count_not_nil.
Qed.

Lemma filter_nil_iff {A : Type} (P : A -> bool) (l : list A) :
  filter P l = [] <-> forall x, In x l -> P x = false.
Proof.
  induction l as [|y l IH]; simpl; [tauto|].
  destruct (P y) eqn:E.
  - split; [discriminate|]. intros H. specialize (H y (or_introl eq_refl)). congruence.
  - rewrite IH. split.
    + intros H x [<-|Hx]; [exact E|now apply H].
    + intros H x Hx. apply H. now right.
Qed.

Lemma pickStation_cases (env : Env) (m : Picker.StationMap) :
  m <> [] ->
  exists s,
    Picker.pickStation env m = Some s
    /\ In s (map snd m)
    /\ ((Picker.namesCardigan s = true
         /\ forall z, In z (map snd m) -> Picker.namesCardigan z = true -> Picker.countGe s z)
        \/ ((forall z, In z (map snd m) -> Picker.namesCardigan z = false)
            /\ Picker.PREFERRED_INST env <> ""
            /\ Picker.hasInst env s = true
            /\ forall z, In z (map snd m) -> Picker.hasInst env z = true -> Picker.countGe s z)
        \/ ((forall z, In z (map snd m) -> Picker.namesCardigan z = false)
            /\ (Picker.PREFERRED_INST env = ""
                \/ forall z, In z (map snd m) -> Picker.hasInst env z = false)
            /\ forall z, In z (map snd m) -> Picker.countGe s z)).
Proof.
  intros Hm. unfold Picker.pickStation. cbv zeta.
  set (all := map snd m).
  assert (Hall : all <> []) by (unfold all; destruct m; [congruence|discriminate]).
  destruct (filter Picker.namesCardigan all) as [|a l] eqn:Fc.
  - pose proof (proj1 (filter_nil_iff _ _) Fc) as Hc.
    destruct (Picker.PREFERRED_INST env) as [|ch p] eqn:Ep; cbn [isEmptyStr].
    + destruct (sortStations_some all Hall) as [s Hs]. exists s.
      destruct (sortStations_head _ _ Hs) as [Hin Hmax].
      split; [exact Hs|]. split; [exact Hin|]. right. right.
      split; [exact Hc|]. split; [now left|exact Hmax].
    + destruct (filter (Picker.hasInst env) all) as [|b l'] eqn:Fi.
      * pose proof (proj1 (filter_nil_iff _ _) Fi) as Hi.
        destruct (sortStations_some all Hall) as [s Hs]. exists s.
        destruct (sortStations_head _ _ Hs) as [Hin Hmax].
        split; [exact Hs|]. split; [exact Hin|]. right. right.
        split; [exact Hc|]. split; [now right|exact Hmax].
      * destruct (sortStations_some (b :: l') ltac:(discriminate)) as [s Hs].
        exists s. destruct (sortStations_head _ _ Hs) as [Hin Hmax].
        rewrite <- Fi in Hin, Hmax. apply filter_In in Hin as [Hin Hh].
        split; [exact Hs|]. split; [exact Hin|]. right. left.
        split; [exact Hc|]. split; [discriminate|]. split; [exact Hh|].
        intros z Hz Hzi. apply Hmax. apply filter_In. now split.
  - destruct (sortStations_some (a :: l) ltac:(discriminate)) as [s Hs].
    exists s. destruct (sortStations_head _ _ Hs) as [Hin Hmax].
    rewrite <- Fc in Hin, Hmax. apply filter_In in Hin as [Hin Hh].
    split; [exact Hs|]. split; [exact Hin|]. left.
    split; [exact Hh|]. intros z Hz Hzc. apply Hmax. apply filter_In. now split.
Qed.

Lemma digit_noBar (c : ascii) : isDigit c = true -> Picker.noBar c = true.
Proof. each_char c. Qed.

Lemma sforall_weaken (P Q : ascii -> bool) (s : string) :
  (forall c, P c = true -> Q c = true) -> sforall P s = true -> sforall Q s = true.
Proof.
  intros H. induction s as [|c s IH]; simpl; [reflexivity|].
  intros A. apply andb_true_iff in A as [A B].
  now rewrite (H c A), (IH B).
Qed.

Lemma bar_prefix (a a' b b' : string) :
  sforall Picker.noBar a = true -> sforall Picker.noBar a' = true ->
  a ++ "|" ++ b = a' ++ "|" ++ b' -> a = a' /\ b = b'.
Proof.
  revert a'. induction a as [|x a IH]; intros [|y a'] Ha Ha' E; simpl in *.
  - inversion E. now split.
  - inversion E; subst. discriminate Ha'.
  - inversion E; subst. discriminate Ha.
  - inversion E; subst.
    apply andb_true_iff in Ha as [_ Ha]. apply andb_true_iff in Ha' as [_ Ha'].
    destruct (IH a' Ha Ha' H1) as [-> ->]. now split.
Qed.

Lemma instPart_noBar (c : Picker.Columns) (r : Row) :
  sforall Picker.noBar (Picker.orText (Picker.instDigitsOf c r) "no-inst") = true.
Proof.
  unfold Picker.orText.
  destruct (isEmptyStr (Picker.instDigitsOf c r)); [reflexivity|].
  apply (sforall_weaken isDigit); [apply digit_noBar|].
  unfold Picker.instDigitsOf. destruct (Picker.instCol c); [|reflexivity].
  apply sfilter_sforall.
Qed.

Lemma instDigits_digits (c : Picker.Columns) (r : Row) :
  sforall isDigit (Picker.instDigitsOf c r) = true.
Proof.
  unfold Picker.instDigitsOf. destruct (Picker.instCol c); [|reflexivity].
  apply sfilter_sforall.
Qed.

Lemma key_fixes_parts (c : Picker.Columns) (r r' : Row) :
  Picker.instKeyOf c r = Picker.instKeyOf c r' ->
  Picker.instDigitsOf c r = Picker.instDigitsOf c r'
  /\ Picker.orText (Picker.depOf c r) "no-deployment"
     = Picker.orText (Picker.depOf c r') "no-deployment".
Proof.
  unfold Picker.instKeyOf. intros E.
  apply bar_prefix in E as [E1 E2]; try apply instPart_noBar.
  split; [|exact E2].
  pose proof (instDigits_digits c r) as D. pose proof (instDigits_digits c r') as D'.
  unfold Picker.orText in E1.
  destruct (Picker.instDigitsOf c r) as [|x d] eqn:A;
    destruct (Picker.instDigitsOf c r') as [|y d'] eqn:B; cbn [isEmptyStr] in E1.
  - reflexivity.
  - rewrite <- E1 in D'. discriminate D'.
  - rewrite E1 in D. discriminate D.
  - exact E1.
Qed.

(* ------------------------------------------------------------------ *)
(* the station map *)

Lemma hasKey_in (m : Picker.StationMap) (k : string) :
  Picker.hasKey m k = true <-> In k (map fst m).
Proof.
  induction m as [|[k' s] m IH]; simpl; [split; [discriminate|tauto]|].
  rewrite orb_true_iff, IH. destruct (String.eqb_spec k' k); intuition congruence.
Qed.

Lemma in_updateKey (m : Picker.StationMap) (k0 : string)
  (f : Picker.Station -> Picker.Station) (k : string) (s' : Picker.Station) :
  NoDup (map fst m) ->
  (In (k, s') (Picker.updateKey m k0 f)
   <-> (k <> k0 /\ In (k, s') m) \/ (k = k0 /\ exists s, In (k0, s) m /\ s' = f s)).
Proof.
  induction m as [|[k' s] m IH]; simpl; intros N.
  - split; [tauto|]. intros [[_ []]|(_ & s & [] & _)].
  - inversion N as [|? ? Hn N']; subst.
    destruct (String.eqb_spec k' k0) as [->|D]; simpl.
    + split.
      * intros [A|A].
        -- inversion A; subst. right. split; [reflexivity|]. exists s. now split; [left|].
        -- left. split; [|now right]. intros ->. apply Hn.
           apply in_map_iff. now exists (k0, s').
      * intros [[Hk [A|A]]|(-> & s0 & [A|A] & ->)].
        -- inversion A; subst. congruence.
        -- now right.
        -- inversion A; subst. now left.
        -- exfalso. apply Hn. apply in_map_iff. now exists (k0, s0).
    + rewrite (IH N'). split.
      * intros [A|[[Hk A]|(-> & s0 & A & ->)]].
        -- inversion A; subst. left. split; [exact D|now left].
        -- left. split; [exact Hk|now right].
        -- right. split; [reflexivity|]. exists s0. split; [now right|reflexivity].
      * intros [[Hk [A|A]]|(-> & s0 & [A|A] & ->)].
        -- now left.
        -- right. left. now split.
        -- inversion A; subst. congruence.
        -- right. right. split; [reflexivity|]. now exists s0.
Qed.

Lemma NoDup_snoc (l : list string) (x : string) :
  NoDup l -> ~ In x l -> NoDup (l ++ [x]).
Proof.
  intros N Hn. induction l as [|y l IH]; simpl.
  - repeat constructor. intros [].
  - inversion N; subst. constructor.
    + rewrite in_app_iff. simpl. intros [A|[A|[]]]; [contradiction|].
      apply Hn. now left.
    + apply IH; [assumption|]. intros A. apply Hn. now right.
Qed.

Lemma filter_snoc {A : Type} (P : A -> bool) (l : list A) (x : A) :
  filter P (l ++ [x]) = (filter P l ++ if P x then [x] else [])%list.
Proof. rewrite filter_app. reflexivity. Qed.

Lemma count_counted (h : Host) (c : Picker.Columns) (rows : list Row)
  (m : Picker.StationMap) (r : Row) :
  Picker.counted c rows m -> Picker.counted c (rows ++ [r]) (Picker.count h c m r).
Proof.
  intros (N & Hall & Hc). unfold Picker.count. cbv zeta.
  set (key := Picker.instKeyOf c r).
  set (m' := if Picker.hasKey m key then m else (m ++ [(key, Picker.fresh c r)])%list).
  assert (N' : NoDup (map fst m')).
  { unfold m'. destruct (Picker.hasKey m key) eqn:E; [exact N|].
    rewrite map_app. apply NoDup_snoc; [exact N|].
    intros A. apply (proj2 (hasKey_in m key)) in A. congruence. }
  assert (K' : forall k, In k (map fst m') <-> In k (map fst m) \/ k = key).
  { intros k. unfold m'. destruct (Picker.hasKey m key) eqn:E.
    - split; [now left|]. intros [A| ->]; [exact A|now apply hasKey_in].
    - rewrite map_app, in_app_iff. simpl. intuition. }
  assert (M' : forall k s, In (k, s) m' ->
                 In (k, s) m \/ (Picker.hasKey m key = false /\ k = key
                                 /\ s = Picker.fresh c r)).
  { intros k s. unfold m'. destruct (Picker.hasKey m key) eqn:E; [now left|].
    rewrite in_app_iff. simpl. intros [A|[A|[]]]; [now left|].
    inversion A; subst. right. now repeat split. }
  split; [now rewrite updateKey_keys|]. split.
  - intros x Hx. rewrite updateKey_keys. apply K'.
    apply in_app_iff in Hx as [Hx|[<-|[]]]; [left; now apply Hall|now right].
  - intros k s Hs. apply (in_updateKey m' key _ k s N') in Hs.
    rewrite filter_snoc, length_app.
    destruct Hs as [[Hk Hs]|(-> & s0 & Hs & ->)].
    + destruct (M' _ _ Hs) as [A|(_ & A & _)]; [|congruence].
      destruct (Hc _ _ A) as (Hn & r0 & Hr0 & Hk0 & Hi & Hd).
      fold key. rewrite (proj2 (String.eqb_neq key k)) by congruence.
      simpl. rewrite Nat.add_0_r. split; [exact Hn|].
      exists r0. split; [apply in_app_iff; now left|]. now repeat split.
    + fold key. rewrite String.eqb_refl. cbn [length Picker.bump Picker.rowCount
        Picker.instId Picker.deployment].
      destruct (M' _ _ Hs) as [A|(E & _ & ->)].
      * destruct (Hc _ _ A) as (Hn & r0 & Hr0 & Hk0 & Hi & Hd).
        split; [rewrite Hn; lia|].
        exists r0. split; [apply in_app_iff; now left|]. now repeat split.
      * split.
        -- cbn [Picker.fresh Picker.rowCount].
           replace (filter (fun r1 => (Picker.instKeyOf c r1 =? key)%string) rows)
             with (@nil Row); [reflexivity|].
           symmetry. apply filter_nil_iff. intros x Hx.
           apply String.eqb_neq. intros Ex.
           assert (In key (map fst m)) by (rewrite <- Ex; now apply Hall).
           apply (proj2 (hasKey_in m key)) in H. congruence.
        -- exists r. split; [apply in_app_iff; right; now left|]. now repeat split.
Qed.

Lemma stationMap_counted (h : Host) (c : Picker.Columns) (rows : list Row) :
  Picker.counted c rows (Picker.stationMapOf h c rows).
Proof.
  unfold Picker.stationMapOf.
  induction rows as [|r rows IH] using rev_ind.
  - simpl. split; [constructor|]. split; [intros r []|intros k s []].
  - rewrite fold_left_app. simpl. now apply count_counted.
Qed.

(** The order of the sort on years written with a sign: the negative year
    first, then the year past 9999, then the four-digit year, in the first
    script as in the later ones. *)
Lemma signed_years_sort_first :
  map ts (Fetch.series Example.utcHost Example.extEnv Sample.signedRows)
  = ["-000001-01-01T00:00:00.000Z"; "+010000-01-01T00:00:00.000Z";
     "2024-06-01T12:00:00.000Z"]
  /\ map cts (Canon.series Example.utcHost Example.extEnv LaterSample.signedLabelRows)
     = ["-000001-01-01T00:00:00.000Z"; "+010000-01-01T00:00:00.000Z";
        "2024-06-01T12:00:00.000Z"]
  /\ map cts (Picker.series Example.utcHost Example.extEnv LaterSample.signedLabelRows)
     = ["-000001-01-01T00:00:00.000Z"; "+010000-01-01T00:00:00.000Z";
        "2024-06-01T12:00:00.000Z"]
  /\ option_map cts (Picker.latest Example.utcHost Example.extEnv
                       LaterSample.signedLabelRows)
     = Some "2024-06-01T12:00:00.000Z".
Proof. repeat split; vm_compute; reflexivity. Qed.

(** X27.  [pickStation] of fetch_cefas.mjs on a payload with rows: a
    station is always chosen, and it is an entry of the station map.  If
    some entry names Cardigan in its deployment, the chosen one does, and no
    Cardigan entry counts more rows; otherwise, if INST_ID holds digits and
    some entry has that instrument id, the chosen one has it, and no such
    entry counts more rows; otherwise no entry at all counts more rows. *)
Theorem chosen_station_is_best (h : Host) (env : Env) (r : Row) (rows : list Row) :
  exists s,
    Picker.chosenOf h env (r :: rows) = Some s
    /\ In s (map snd (Picker.stationMapOf h (Picker.columns (headersOf (r :: rows)))
                        (r :: rows)))
    /\ forall all,
         all = map snd (Picker.stationMapOf h (Picker.columns (headersOf (r :: rows)))
                          (r :: rows)) ->
         (Picker.namesCardigan s = true
          /\ forall z, In z all -> Picker.namesCardigan z = true ->
                       (Picker.rowCount z <= Picker.rowCount s)%N)
         \/ ((forall z, In z all -> Picker.namesCardigan z = false)
             /\ Picker.PREFERRED_INST env <> ""
             /\ Picker.hasInst env s = true
             /\ forall z, In z all -> Picker.hasInst env z = true ->
                          (Picker.rowCount z <= Picker.rowCount s)%N)
         \/ ((forall z, In z all -> Picker.namesCardigan z = false)
             /\ (Picker.PREFERRED_INST env = ""
                 \/ forall z, In z all -> Picker.hasInst env z = false)
             /\ forall z, In z all -> (Picker.rowCount z <= Picker.rowCount s)%N).
Proof.
  unfold Picker.chosenOf.
  set (m := Picker.stationMapOf h (Picker.columns (headersOf (r :: rows))) (r :: rows)).
  assert (Hm : m <> []).
  { unfold m, Picker.stationMapOf. cbn [fold_left].
    apply fold_count_not_nil, count_not_nil. }
  destruct (pickStation_cases env m Hm) as (s & Hs & Hin & Hc).
  exists s. split; [exact Hs|]. split; [exact Hin|]. intros all ->. exact Hc.
Qed.

(** X28.  The station map of fetch_cefas.mjs: it holds one entry per
    instrument key and an entry for the key of every row; an entry counts
    exactly the rows of its key, so it counts at least one, and its
    instrument id and deployment are those of a row of that key. *)
Theorem station_entry_counts_its_rows (h : Host) (c : Picker.Columns) (rows : list Row) :
  NoDup (map fst (Picker.stationMapOf h c rows))
  /\ (forall r, In r rows ->
        In (Picker.instKeyOf c r) (map fst (Picker.stationMapOf h c rows)))
  /\ forall k s, In (k, s) (Picker.stationMapOf h c rows) ->
       Picker.rowCount s
       = N.of_nat (length (filter (fun r => (Picker.instKeyOf c r =? k)%string) rows))
       /\ (0 < Picker.rowCount s)%N
       /\ exists r0, In r0 rows /\ Picker.instKeyOf c r0 = k
                     /\ Picker.instId s = Picker.instId (Picker.fresh c r0)
                     /\ Picker.deployment s = Picker.deployment (Picker.fresh c r0).
Proof.
  destruct (stationMap_counted h c rows) as (N & Hall & Hc).
  split; [exact N|]. split; [exact Hall|].
  intros k s Hs. destruct (Hc k s Hs) as (Hn & r0 & Hr0 & Hk & Hi & Hd).
  split; [exact Hn|]. split; [|now exists r0].
  rewrite Hn.
  assert (In r0 (filter (fun r => (Picker.instKeyOf c r =? k)%string) rows)).
  { apply filter_In. split; [exact Hr0|]. now apply String.eqb_eq. }
  destruct (filter _ rows); [contradiction|]. simpl. lia.
Qed.

Lemma matchesChosen_counted (c : Picker.Columns) (s : Picker.Station) (r0 r : Row) :
  Picker.instId s = Picker.instId (Picker.fresh c r0) ->
  Picker.instId s <> None ->
  Picker.instKeyOf c r = Picker.instKeyOf c r0 ->
  Picker.matchesChosen c s r = true.
Proof.
  intros Hi Hn Hk. destruct (key_fixes_parts c r r0 Hk) as [Hd _].
  unfold Picker.matchesChosen. cbv zeta. rewrite Hi in *.
  unfold Picker.fresh in *. cbn [Picker.instId] in *.
  destruct (Picker.instDigitsOf c r0) as [|a d] eqn:E; cbn [isEmptyStr] in *;
    [congruence|].
  rewrite Hd. cbn [Picker.truthy isEmptyStr negb strOrEmpty andb].
  now rewrite String.eqb_refl.
Qed.

Lemma matchesChosen_nameless (c : Picker.Columns) (s : Picker.Station) (r : Row) :
  Picker.truthy (Picker.instId s) = false -> lc (Picker.deployment s) = "" ->
  Picker.matchesChosen c s r = false.
Proof.
  intros Hi Hd. unfold Picker.matchesChosen. cbv zeta. rewrite Hi, Hd.
  cbn [isEmptyStr negb andb orb]. now rewrite andb_false_r.
Qed.

Lemma fold_step_nameless (h : Host) (c : Picker.Columns) (s : Picker.Station)
  (rows : list Row) :
  (forall r, Picker.matchesChosen c s r = false) ->
  forall m, fold_left (Picker.step h c s) rows m = m.
Proof.
  intros H. induction rows as [|r rows IH]; intros m; simpl; [reflexivity|].
  unfold Picker.step at 2. rewrite (H r). cbn [negb]. apply IH.
Qed.

(** X29.  Which rows the chosen station of fetch_cefas.mjs selects.  When
    the chosen entry has an instrument id, every row counted for it is
    selected.  When it has neither an instrument id nor any deployment text,
    as on a payload without an instrument and a deployment column, no row is
    selected and the series is empty whatever the rows hold. *)
Theorem chosen_station_selection (h : Host) (env : Env) (rows : list Row)
  (s : Picker.Station) :
  Picker.chosenOf h env rows = Some s ->
  (forall k, In (k, s) (Picker.stationMapOf h (Picker.columns (headersOf rows)) rows) ->
     Picker.instId s <> None ->
     forall r, Picker.instKeyOf (Picker.columns (headersOf rows)) r = k ->
               Picker.matchesChosen (Picker.columns (headersOf rows)) s r = true)
  /\ (Picker.truthy (Picker.instId s) = false -> lc (Picker.deployment s) = "" ->
      (forall r, Picker.matchesChosen (Picker.columns (headersOf rows)) s r = false)
      /\ Picker.series h env rows = []).
Proof.
  intros Hs. split.
  - intros k Hk Hn r Hr.
    destruct (stationMap_counted h (Picker.columns (headersOf rows)) rows)
      as (_ & _ & Hc).
    destruct (Hc k s Hk) as (_ & r0 & _ & Hk0 & Hi & _).
    apply (matchesChosen_counted _ s r0 r Hi Hn). congruence.
  - intros Hi Hd.
    assert (A : forall r, Picker.matchesChosen (Picker.columns (headersOf rows)) s r
                          = false)
      by (intros r; now apply matchesChosen_nameless).
    split; [exact A|].
    unfold Picker.series, Picker.byTsOf. rewrite Hs.
    now rewrite (fold_step_nameless h _ s rows A).
Qed.

Lemma chosen_station_selection_witness :
  Picker.chosenOf Example.utcHost Example.extEnv Example.longRows
  = Some LaterSample.namelessStation
  /\ Picker.series Example.utcHost Example.extEnv Example.longRows = [].
Proof.
  assert (E : Picker.chosenOf Example.utcHost Example.extEnv Example.longRows
              = Some LaterSample.namelessStation) by (vm_compute; reflexivity).
  split; [exact E|].
  apply (proj2 (chosen_station_selection Example.utcHost Example.extEnv
                  Example.longRows LaterSample.namelessStation E));
    reflexivity.
Defined.

Lemma digitsOnly_digit_free (s : string) :
  sforall (fun c => negb (isDigit c)) s = true -> digitsOnly s = "".
Proof.
  unfold digitsOnly. induction s as [|c s IH]; simpl; [reflexivity|].
  intros H. apply andb_true_iff in H as [Hc Hs].
  apply negb_true_iff in Hc. rewrite Hc. now apply IH.
Qed.

Lemma digitsOnly_trim (s : string) : digitsOnly (trim s) = digitsOnly s.
Proof.
  unfold digitsOnly. apply (sfilter_trim isDigit).
  intros c Hc. now apply white_not_digit.
Qed.

(** X30.  An instrument id without a digit (the first script of
    fetch_cefas.mjs and the second script of part_000): when INST_ID is set
    to a text that holds no digit, the instrument test compares two empty
    digit strings, so it accepts every row whose instrument cell is filled
    and holds no digit, whatever the cell says. *)
Theorem digit_free_inst_id (env : Env) (id : string) (c : Fetch.Columns)
  (col inst : string) (row : Row) :
  INST_ID env = Some id -> id <> "" ->
  sforall (fun ch => negb (isDigit ch)) id = true ->
  Fetch.instCol c = Some col -> prop row col = Some inst ->
  sforall (fun ch => negb (isDigit ch)) inst = true ->
  (inst <> "" -> Canon.isCardigan env c row = true)
  /\ (trim inst <> "" -> Fetch.isCardigan env c row = true).
Proof.
  intros He Hid Hfree Hc Hp Hinst.
  assert (T1 : Canon.TARGET_INST env = "").
  { unfold Canon.TARGET_INST, envOr. rewrite He.
    destruct id; [congruence|]. now apply digitsOnly_digit_free. }
  assert (T2 : digitsOnly (Fetch.TARGET_INST env) = "").
  { unfold Fetch.TARGET_INST, Fetch.INST_ID_ENV. rewrite He.
    destruct id; [congruence|]. cbn [isEmptyStr].
    rewrite digitsOnly_trim. now apply digitsOnly_digit_free. }
  split.
  - intros Hne. unfold Canon.isCardigan. cbv zeta. rewrite Hc.
    unfold cell, colKey. rewrite Hp. cbn [strOrEmpty].
    rewrite T1, (digitsOnly_digit_free inst Hinst).
    destruct inst; [congruence|]. reflexivity.
  - intros Hne. unfold Fetch.isCardigan. cbv zeta. rewrite Hc.
    unfold cell, colKey. rewrite Hp. unfold norm. cbn [strOrEmpty].
    rewrite T2, digitsOnly_trim, (digitsOnly_digit_free inst Hinst).
    destruct (trim inst); [congruence|]. reflexivity.
Qed.

Lemma digit_free_inst_id_witness :
  Canon.isCardigan LaterSample.namedEnv
    (Fetch.columns ["InstId"; "Deployment"])
    [("InstId", "n/a"); ("Deployment", "Poole")] = true
  /\ Fetch.isCardigan LaterSample.namedEnv
       (Fetch.columns ["InstId"; "Deployment"])
       [("InstId", "n/a"); ("Deployment", "Poole")] = true.
Proof.
  destruct (digit_free_inst_id LaterSample.namedEnv "EXT"
              (Fetch.columns ["InstId"; "Deployment"]) "InstId" "n/a"
              [("InstId", "n/a"); ("Deployment", "Poole")]
              eq_refl ltac:(discriminate) eq_refl eq_refl eq_refl eq_refl)
    as [A B].
  split; [apply A|apply B]; discriminate.
Defined.
